(** * POPE evaluation driver: a shallow embedding of
      [internvl_chat/eval/pope/evaluate_pope.py]

    The file follows the script top-down: Python values and exceptions,
    the shard sampler ([InferenceSampler]), the dataset reader
    ([VQADataset]), the [json] round trip used by the gather step, the
    evaluation loop ([evaluate_chat_model]) and the [__main__] block.
    Part I holds the model, Part II the lemmas and theorems. *)

From Stdlib Require Import Ascii String.
From Stdlib Require Import ZArith NArith List Lia Bool.
From Stdlib Require Import Floats.SpecFloat.
Import ListNotations.
Local Open Scope Z_scope.

(* ====================================================================== *)
(** * Part I: the model                                                    *)
(* ====================================================================== *)

(** ** Exceptions and the result monad

    Every failure of the script is an uncaught exception that aborts the
    run; a computation is therefore either a value or the exception that
    was raised.  [NotModelled] is no exception of Python: it marks the
    inputs on which the model stops short of the library (a float in a JSON
    text). *)

Inductive exn : Type :=
| AssertionError (msg : string)
| ZeroDivisionError
| IndexError
| KeyError
| TypeError
| ValueError
| JSONDecodeError
| FileNotFoundError
| OSError
| RecursionError
| NotModelled.

Inductive result (A : Type) : Type :=
| Ok (a : A)
| Raise (e : exn).

Arguments Ok {A} a.
Arguments Raise {A} e.

Definition bind {A B : Type} (m : result A) (f : A -> result B) : result B :=
  match m with
  | Ok a => f a
  | Raise e => Raise e
  end.

Notation "x <- m ;; k" := (bind m (fun x => k))
  (at level 61, m at next level, right associativity).
Notation "' p <- m ;; k" := (bind m (fun x => match x with p => k end))
  (at level 61, p pattern, m at next level, right associativity).

Fixpoint mapM {A B : Type} (f : A -> result B) (l : list A) : result (list B) :=
  match l with
  | [] => Ok []
  | a :: l' => b <- f a ;; bs <- mapM f l' ;; Ok (b :: bs)
  end.

(** ** Python built-ins used by the sampler *)

(** [range(start, stop)]: a half-open interval of integers. *)
Record py_range : Type := Range { range_start : Z; range_stop : Z }.

(** [len(range(start, stop))] *)
Definition range_len (r : py_range) : Z :=
  Z.max 0 (range_stop r - range_start r).

(** [list(range(start, stop))]: the integers the range yields, in order. *)
Definition range_list (r : py_range) : list Z :=
  map (fun k => range_start r + Z.of_nat k)
      (seq 0 (Z.to_nat (range_stop r - range_start r))).

(** [sum(l)]: a left fold from 0. *)
Definition py_sum (l : list Z) : Z := fold_left Z.add l 0.

(** [l[:k]]: a negative bound counts from the end, and bounds are clipped
    to the list. *)
Definition py_slice_upto {A : Type} (l : list A) (k : Z) : list A :=
  let n := Z.of_nat (length l) in
  let k' := if k <? 0 then Z.max 0 (n + k) else Z.min k n in
  firstn (Z.to_nat k') l.

(** [int(b)] for a boolean [b]. *)
Definition int_of_bool (b : bool) : Z := if b then 1 else 0.

(** ** The shard sampler: [InferenceSampler] (lines 64-87) *)

(** [shard_sizes = [shard_size + int(r < left) for r in range(world_size)]] *)
Definition shard_sizes (total_size world_size : Z) : list Z :=
  let shard_size := total_size / world_size in
  let left := total_size mod world_size in
  map (fun r => shard_size + int_of_bool (r <? left))
      (range_list (Range 0 world_size)).

(** [InferenceSampler._get_local_indices] (lines 73-81).  Python's [//]
    and [%] are floor division and the matching remainder, as [Z.div] and
    [Z.modulo] are; both raise [ZeroDivisionError] on a zero divisor. *)
Definition _get_local_indices (total_size world_size rank : Z)
  : result py_range :=
  if world_size =? 0 then Raise ZeroDivisionError
  else
    let sizes := shard_sizes total_size world_size in
    let begin_ := py_sum (py_slice_upto sizes rank) in
    let end_ := Z.min (py_sum (py_slice_upto sizes (rank + 1))) total_size in
    Ok (Range begin_ end_).

(** The process group [torch.distributed] holds for the process: what
    [get_rank()] and [get_world_size()] return. *)
Record process_group : Type := ProcessGroup {
  pg_rank : Z;
  pg_world_size : Z
}.

Record InferenceSampler : Type := MkSampler {
  _size : Z;
  _rank : Z;
  _world_size : Z;
  _local_indices : py_range
}.

(** [InferenceSampler.__init__] (lines 66-71). *)
Definition InferenceSampler_init (pg : process_group) (size : Z)
  : result InferenceSampler :=
  if 0 <? size then
    li <- _get_local_indices size (pg_world_size pg) (pg_rank pg) ;;
    Ok (MkSampler size (pg_rank pg) (pg_world_size pg) li)
  else Raise (AssertionError "").

(** [InferenceSampler.__iter__] and [__len__] (lines 83-87). *)
Definition InferenceSampler_iter (s : InferenceSampler) : list Z :=
  range_list (_local_indices s).

Definition InferenceSampler_len (s : InferenceSampler) : Z :=
  range_len (_local_indices s).

(** ** Python strings

    A [str] is a sequence of Unicode code points; the literals of the script
    are ASCII and are written as Rocq strings.  The characters the model
    tests for are written by their code points:
    9 tab, 10 line feed, 13 carriage return, 32 space, 34 double quote,
    43 [+], 44 comma, 45 [-], 46 [.], 47 [/], 48-57 the digits, 58 colon,
    69 [E], 91 and 93 the brackets, 92 backslash, 98 [b], 101 [e], 102 [f],
    110 [n], 114 [r], 116 [t], 117 [u], 123 and 125 the braces. *)

Definition pystr : Type := list N.

Definition str (s : string) : pystr :=
  map N_of_ascii (list_ascii_of_string s).

Definition pystr_eqb (a b : pystr) : bool :=
  if list_eq_dec N.eq_dec a b then true else false.

(** [s.split(sep)] for a separator of one character: the pieces between
    the separators, empty pieces included. *)
Fixpoint split_char (sep : N) (s : pystr) : list pystr :=
  match s with
  | [] => [[]]
  | c :: rest =>
      if (c =? sep)%N then [] :: split_char sep rest
      else match split_char sep rest with
           | [] => [[c]]
           | piece :: pieces => (c :: piece) :: pieces
           end
  end.

(** ** What the script gets from outside

    The model, the tokenizer, the image library and the file system are
    external collaborators.  They are taken as an interface: the script is
    modelled against any implementation of it, and each call may raise. *)

(** The keyword arguments of [generation_config] (lines 123-130). *)
Record generation_config : Type := GenerationConfig {
  num_beams : Z;
  max_new_tokens : Z;
  min_new_tokens : Z;
  length_penalty : Z;
  do_sample : bool;
  temperature : spec_float
}.

Class Runtime : Type := {
  (** a [torch.Tensor] and a decoded [PIL.Image] *)
  tensor : Type;
  image : Type;
  (** [open(path).readlines()] reads text: the content of the file as the
      text layer delivers it (decoded, line ends translated to LF), or the
      exception [open] raises *)
  read_text : pystr -> result pystr;
  (** [Image.open(path).convert('RGB')] *)
  Image_open : pystr -> result image;
  (** [build_transform(is_train=False, input_size, pad2square)] *)
  build_transform : Z -> bool -> image -> result tensor;
  (** [t.unsqueeze(0)], [torch.cat(ts, dim=0)], [t.to(torch.bfloat16).cuda()] *)
  unsqueeze0 : tensor -> tensor;
  torch_cat : list tensor -> tensor;
  to_bfloat16_cuda : tensor -> tensor;
  (** [model.chat(template, tokenizer, pixel_values, question, generation_config)] *)
  model_chat : pystr -> tensor -> pystr -> generation_config -> result pystr;
  (** [model.internvl.config.force_image_size],
      [model.internvl.config.vision_config.image_size], [model.config.pad2square] *)
  force_image_size : option Z;
  vision_image_size : Z;
  pad2square : bool;
  (** [os.path.exists] and [os.makedirs] on a non-empty path *)
  fs_exists : pystr -> bool;
  fs_makedirs : pystr -> result unit;
  (** [time.strftime('%y%m%d%H%M%S', time.localtime())] *)
  time_prefix : pystr
}.

(** ** The dataset reader: [VQADataset] (lines 36-61) *)

(** [f.readlines()]: the text cut after every line feed, each line keeping
    its line feed; a last line without one is kept when it is not empty. *)
Fixpoint readlines (text : pystr) : list pystr :=
  match text with
  | [] => []
  | c :: rest =>
      if (c =? 10)%N then [c] :: readlines rest
      else match readlines rest with
           | [] => [[c]]
           | line :: lines => (c :: line) :: lines
           end
  end.

Record VQADataset {R : Runtime} : Type := MkDataset {
  ds_root : pystr;
  ds_data : list pystr;
  ds_prompt : pystr;
  ds_transform : image -> result tensor
}.

(** [VQADataset.__init__] (lines 38-42). *)
Definition VQADataset_init {R : Runtime}
    (root data prompt : pystr) (input_size : Z) (pad : bool)
  : result VQADataset :=
  text <- read_text data ;;
  Ok (MkDataset R root (readlines text) prompt (build_transform input_size pad)).

(** [VQADataset.__len__] (lines 44-45). *)
Definition VQADataset_len {R : Runtime} (ds : VQADataset) : Z :=
  Z.of_nat (length (ds_data ds)).

(** *** The specification's words for the item count

    [split_lines] cuts a text at its line feeds ([text.split('\n')]): the
    pieces before the last one are the bodies of the terminated lines, the
    last piece is what follows the last line feed.  The non-empty lines of
    a file are the pieces with at least one character; its blank lines are
    the terminated lines whose body is empty. *)
Definition split_lines (text : pystr) : list pystr := split_char 10%N text.

Definition is_empty (s : pystr) : bool :=
  match s with [] => true | _ => false end.

Definition nonempty_line_count (text : pystr) : Z :=
  Z.of_nat (length (filter (fun p => negb (is_empty p)) (split_lines text))).

Definition blank_line_count (text : pystr) : Z :=
  Z.of_nat (length (filter is_empty (removelast (split_lines text)))).

(** ** A concrete runtime for the examples

    Files are an association list from paths to texts, an image is its
    path, a tensor is a string, and the stand-in for the model answers with
    the question reversed, followed by the pixel values it was given. *)

Fixpoint assoc_get {V : Type} (k : pystr) (d : list (pystr * V)) : option V :=
  match d with
  | [] => None
  | (k', v) :: d' => if pystr_eqb k k' then Some v else assoc_get k d'
  end.

Definition demo_runtime (files : list (pystr * pystr)) : Runtime := {|
  tensor := pystr;
  image := pystr;
  read_text := fun p =>
    match assoc_get p files with
    | Some text => Ok text
    | None => Raise FileNotFoundError
    end;
  Image_open := fun p => Ok p;
  build_transform := fun _ _ img => Ok img;
  unsqueeze0 := fun t => t;
  torch_cat := fun ts => concat ts;
  to_bfloat16_cuda := fun t => t;
  model_chat := fun _ pv q _ => Ok (rev q ++ pv);
  force_image_size := None;
  vision_image_size := 224;
  pad2square := false;
  fs_exists := fun _ => false;
  fs_makedirs := fun _ => Ok tt;
  time_prefix := str "240101000000"
|}.

(** ** Python values

    The values that flow through the script's [json] calls: [None],
    booleans, integers, strings, lists and dictionaries with string keys.
    A dictionary keeps its items in insertion order.  Floats are outside
    the model: where [json.loads] would build one, the model answers
    [NotModelled]. *)

#[local] Unset Elimination Schemes.

Inductive pyval : Type :=
| PNone
| PBool (b : bool)
| PInt (z : Z)
| PStr (s : pystr)
| PList (l : list pyval)
| PDict (d : list (pystr * pyval)).

#[local] Set Elimination Schemes.

(** [d[k] = v]: the value of an existing key is replaced in place, a new
    key goes to the end. *)
Fixpoint dict_set (d : list (pystr * pyval)) (k : pystr) (v : pyval)
  : list (pystr * pyval) :=
  match d with
  | [] => [(k, v)]
  | (k', v') :: d' =>
      if pystr_eqb k k' then (k', v) :: d'
      else (k', v') :: dict_set d' k v
  end.

(** ** [json.dumps] (defaults: [ensure_ascii=True], separators [", "] and
    [": "]) *)

(** One lower-case hexadecimal digit, and ['{0:04x}'.format(n)] for
    [n < 0x10000]. *)
Definition hex_digit (d : N) : N :=
  (if d <? 10 then 48 + d else 87 + d)%N.

Definition hex4 (n : N) : pystr :=
  [hex_digit (n / 4096); hex_digit ((n / 256) mod 16);
   hex_digit ((n / 16) mod 16); hex_digit (n mod 16)]%N.

(** The replacement of one character in [encode_basestring_ascii]: the
    short escapes, printable ASCII as it is, [\uXXXX] for the rest of the
    basic plane, and a surrogate pair of escapes above it. *)
Definition escape_char (c : N) : pystr :=
  (if c =? 34 then [92; 34]
   else if c =? 92 then [92; 92]
   else if c =? 10 then [92; 110]
   else if c =? 13 then [92; 114]
   else if c =? 9 then [92; 116]
   else if c =? 12 then [92; 102]
   else if c =? 8 then [92; 98]
   else if (32 <=? c) && (c <=? 126) then [c]
   else if c <? 65536 then 92 :: 117 :: hex4 c
   else
     let n := c - 65536 in
     let s1 := N.lor 55296 (N.land (N.shiftr n 10) 1023) in
     let s2 := N.lor 56320 (N.land n 1023) in
     (92 :: 117 :: hex4 s1) ++ (92 :: 117 :: hex4 s2))%N.

Definition encode_basestring_ascii (s : pystr) : pystr :=
  34%N :: flat_map escape_char s ++ [34%N].

(** [repr] of an integer: its decimal digits, most significant first (an
    integer of any size: the limit recent versions of CPython put on the
    digits of a conversion is not modelled).  A number below [2^k] has at
    most [k] digits, which is the fuel [repr_nat] gives. *)
Fixpoint digits_of (fuel : nat) (n : N) (acc : pystr) : pystr :=
  match fuel with
  | O => acc
  | S fuel' =>
      let acc' := (48 + n mod 10)%N :: acc in
      if (n <? 10)%N then acc' else digits_of fuel' (n / 10)%N acc'
  end.

Definition repr_nat (n : N) : pystr :=
  digits_of (S (N.to_nat (N.log2 n))) n [].

Definition repr_int (z : Z) : pystr :=
  if z <? 0 then 45%N :: repr_nat (Z.to_N (- z)) else repr_nat (Z.to_N z).

(** [sep.join(parts)] *)
Fixpoint join (sep : pystr) (parts : list pystr) : pystr :=
  match parts with
  | [] => []
  | [p] => p
  | p :: rest => p ++ sep ++ join sep rest
  end.

(** [json.dumps(v)].  The literals are [null], [true] and [false]; the
    items of a list and of a dictionary are separated by a comma and a
    space, a key and its value by a colon and a space. *)
Fixpoint json_dumps (v : pyval) : pystr :=
  match v with
  | PNone => [110; 117; 108; 108]%N
  | PBool true => [116; 114; 117; 101]%N
  | PBool false => [102; 97; 108; 115; 101]%N
  | PInt z => repr_int z
  | PStr s => encode_basestring_ascii s
  | PList l => 91%N :: join [44; 32]%N (map json_dumps l) ++ [93%N]
  | PDict d =>
      123%N
      :: join [44; 32]%N
           (map (fun kv => encode_basestring_ascii (fst kv)
                           ++ [58; 32]%N ++ json_dumps (snd kv)) d)
      ++ [125%N]
  end.

(** ** [json.loads] (the scanner of CPython's [_json] accelerator)

    The scanner works on the text that is left; each function returns the
    value it read and the text after it. *)

(** [WHITESPACE]: space, tab, line feed, carriage return. *)
Definition is_json_ws (c : N) : bool :=
  ((c =? 32) || (c =? 9) || (c =? 10) || (c =? 13))%N.

Fixpoint skip_ws (s : pystr) : pystr :=
  match s with
  | [] => []
  | c :: r => if is_json_ws c then skip_ws r else s
  end.

(** The value of one hexadecimal digit, either case. *)
Definition hex_value (c : N) : option N :=
  (if (48 <=? c) && (c <=? 57) then Some (c - 48)
   else if (97 <=? c) && (c <=? 102) then Some (c - 87)
   else if (65 <=? c) && (c <=? 70) then Some (c - 55)
   else None)%N.

Definition hex4_value (a b c d : N) : option N :=
  match hex_value a, hex_value b, hex_value c, hex_value d with
  | Some x, Some y, Some z, Some w => Some (((x * 16 + y) * 16 + z) * 16 + w)%N
  | _, _, _, _ => None
  end.

Definition is_high_surrogate (c : N) : bool := ((55296 <=? c) && (c <=? 56319))%N.
Definition is_low_surrogate (c : N) : bool := ((56320 <=? c) && (c <=? 57343))%N.

(** [Py_UNICODE_JOIN_SURROGATES] *)
Definition join_surrogates (hi lo : N) : N :=
  (65536 + N.lor (N.shiftl (N.land hi 1023) 10) (N.land lo 1023))%N.

(** The character a short escape stands for ([BACKSLASH]). *)
Definition backslash (c : N) : option N :=
  (if c =? 34 then Some 34
   else if c =? 92 then Some 92
   else if c =? 47 then Some 47
   else if c =? 98 then Some 8
   else if c =? 102 then Some 12
   else if c =? 110 then Some 10
   else if c =? 114 then Some 13
   else if c =? 116 then Some 9
   else None)%N.

Definition cons_char (c : N) (r : result (pystr * pystr))
  : result (pystr * pystr) :=
  '(s, rest) <- r ;; Ok (c :: s, rest).

(** [scanstring], entered after the opening quote ([strict=True]): the
    characters up to the closing quote, escapes decoded.  After a [\uXXXX]
    escape of a high surrogate, a following [\uXXXX] escape (with at least
    one character after it) is decoded too, and when it is a low surrogate
    the two become one character; otherwise the scan goes on right after
    the first escape. *)
Fixpoint scanstring (s : pystr) : result (pystr * pystr) :=
  match s with
  | [] => Raise JSONDecodeError
  | c :: r =>
      if (c =? 34)%N then Ok ([], r)
      else if (c =? 92)%N then
        match r with
        | [] => Raise JSONDecodeError
        | e :: r1 =>
            if (e =? 117)%N then
              match r1 with
              | h1 :: h2 :: h3 :: h4 :: r2 =>
                  match hex4_value h1 h2 h3 h4 with
                  | None => Raise JSONDecodeError
                  | Some uni =>
                      match r2 with
                      | b :: u :: l1 :: l2 :: l3 :: l4 :: ((_ :: _) as r3) =>
                          if is_high_surrogate uni && (b =? 92)%N && (u =? 117)%N
                          then
                            match hex4_value l1 l2 l3 l4 with
                            | None => Raise JSONDecodeError
                            | Some uni2 =>
                                if is_low_surrogate uni2
                                then cons_char (join_surrogates uni uni2)
                                               (scanstring r3)
                                else cons_char uni (scanstring r2)
                            end
                          else cons_char uni (scanstring r2)
                      | _ => cons_char uni (scanstring r2)
                      end
                  end
              | _ => Raise JSONDecodeError
              end
            else
              match backslash e with
              | Some ch => cons_char ch (scanstring r1)
              | None => Raise JSONDecodeError
              end
        end
      else if (c <? 32)%N then Raise JSONDecodeError
      else cons_char c (scanstring r)
  end.

(** [_match_number]: an optional minus sign, then [0] or a non-zero digit
    followed by digits.  A fraction or an exponent after it makes the
    number a float. *)
Definition is_digit (c : N) : bool := ((48 <=? c) && (c <=? 57))%N.

Fixpoint scan_digits (s : pystr) : pystr * pystr :=
  match s with
  | [] => ([], [])
  | c :: r =>
      if is_digit c then let (ds, rest) := scan_digits r in (c :: ds, rest)
      else ([], s)
  end.

(** [int(digits)] for a run of decimal digits. *)
Definition int_of_digits (ds : pystr) : N :=
  fold_left (fun a c => a * 10 + (c - 48))%N ds 0%N.

Definition starts_with_digit (s : pystr) : bool :=
  match s with
  | c :: _ => is_digit c
  | [] => false
  end.

Definition is_float_tail (s : pystr) : bool :=
  match s with
  | c :: r =>
      if (c =? 46)%N then starts_with_digit r
      else if ((c =? 101) || (c =? 69))%N then
        match r with
        | sg :: r' =>
            if ((sg =? 43) || (sg =? 45))%N then starts_with_digit r'
            else is_digit sg
        | [] => false
        end
      else false
  | [] => false
  end.

Definition match_integer (s : pystr) : result (pystr * pystr) :=
  match s with
  | [] => Raise JSONDecodeError
  | c :: r =>
      if (c =? 48)%N then Ok ([c], r)
      else if is_digit c then Ok (scan_digits s)
      else Raise JSONDecodeError
  end.

Definition match_number (s : pystr) : result (pyval * pystr) :=
  let '(negative, s1) :=
    match s with
    | c :: r => if (c =? 45)%N then (true, r) else (false, s)
    | [] => (false, s)
    end in
  '(ds, rest) <- match_integer s1 ;;
  if is_float_tail rest then Raise NotModelled
  else
    let n := Z.of_N (int_of_digits ds) in
    Ok (PInt (if negative then - n else n), rest).

(** [s.startswith(prefix)], returning what follows the prefix. *)
Fixpoint strip_prefix (prefix s : pystr) : option pystr :=
  match prefix, s with
  | [], _ => Some s
  | p :: prefix', c :: s' => if (p =? c)%N then strip_prefix prefix' s' else None
  | _ :: _, [] => None
  end.

(** [scan_once], [_parse_array] and [_parse_object].  The loops of the two
    parsers carry what they have read so far; [fuel] bounds the number of
    nested calls. *)
Fixpoint scan_once (fuel : nat) (s : pystr) {struct fuel}
  : result (pyval * pystr) :=
  match fuel with
  | O => Raise RecursionError
  | S fuel' =>
      match s with
      | [] => Raise JSONDecodeError
      | c :: r =>
          if (c =? 34)%N then
            '(x, rest) <- scanstring r ;; Ok (PStr x, rest)
          else if (c =? 123)%N then
            match skip_ws r with
            | [] => Raise JSONDecodeError
            | c1 :: r1 =>
                if (c1 =? 125)%N then Ok (PDict [], r1)
                else parse_object fuel' [] (c1 :: r1)
            end
          else if (c =? 91)%N then
            match skip_ws r with
            | [] => Raise JSONDecodeError
            | c1 :: r1 =>
                if (c1 =? 93)%N then Ok (PList [], r1)
                else parse_array fuel' [] (c1 :: r1)
            end
          else
            match strip_prefix (str "null") s, strip_prefix (str "true") s,
                  strip_prefix (str "false") s with
            | Some rest, _, _ => Ok (PNone, rest)
            | _, Some rest, _ => Ok (PBool true, rest)
            | _, _, Some rest => Ok (PBool false, rest)
            | None, None, None =>
                match strip_prefix (str "NaN") s,
                      strip_prefix (str "Infinity") s,
                      strip_prefix (str "-Infinity") s with
                | None, None, None => match_number s
                | _, _, _ => Raise NotModelled
                end
            end
      end
  end

with parse_array (fuel : nat) (acc : list pyval) (s : pystr) {struct fuel}
  : result (pyval * pystr) :=
  match fuel with
  | O => Raise RecursionError
  | S fuel' =>
      '(v, r) <- scan_once fuel' s ;;
      match skip_ws r with
      | [] => Raise JSONDecodeError
      | c :: r1 =>
          if (c =? 93)%N then Ok (PList (rev (v :: acc)), r1)
          else if (c =? 44)%N then parse_array fuel' (v :: acc) (skip_ws r1)
          else Raise JSONDecodeError
      end
  end

with parse_object (fuel : nat) (acc : list (pystr * pyval)) (s : pystr)
    {struct fuel} : result (pyval * pystr) :=
  match fuel with
  | O => Raise RecursionError
  | S fuel' =>
      match s with
      | [] => Raise JSONDecodeError
      | q :: r =>
          if negb (q =? 34)%N then Raise JSONDecodeError
          else
            '(key, r1) <- scanstring r ;;
            match skip_ws r1 with
            | [] => Raise JSONDecodeError
            | c :: r2 =>
                if negb (c =? 58)%N then Raise JSONDecodeError
                else
                  '(v, r3) <- scan_once fuel' (skip_ws r2) ;;
                  match skip_ws r3 with
                  | [] => Raise JSONDecodeError
                  | c' :: r4 =>
                      if (c' =? 125)%N then Ok (PDict (dict_set acc key v), r4)
                      else if (c' =? 44)%N then
                        parse_object fuel' (dict_set acc key v) (skip_ws r4)
                      else Raise JSONDecodeError
                  end
            end
      end
  end.

(** [json.loads(s)]: one value, white space around it, and nothing else.
    The scanner never needs more than two nested calls per character. *)
Definition json_loads (s : pystr) : result pyval :=
  '(v, rest) <- scan_once (2 * length s + 2) (skip_ws s) ;;
  match skip_ws rest with
  | [] => Ok v
  | _ :: _ => Raise JSONDecodeError
  end.

(** ** Notions used to state what the [json] round trip does

    A Python string holds code points below [0x110000].  [json.loads]
    joins the escapes of a high surrogate and of a low surrogate that
    follow each other into one character: [join_pairs] is that effect on
    the string that was written. *)

Definition valid_char (c : N) : Prop := (c < 1114112)%N.

Definition valid_str (s : pystr) : Prop := Forall valid_char s.

Fixpoint join_pairs (s : pystr) : pystr :=
  match s with
  | [] => []
  | c :: r =>
      match r with
      | d :: r' =>
          if is_high_surrogate c && is_low_surrogate d
          then join_surrogates c d :: join_pairs r'
          else c :: join_pairs r
      | [] => [c]
      end
  end.

(** A string without a high surrogate directly followed by a low one. *)
Fixpoint pair_free (s : pystr) : bool :=
  match s with
  | [] => true
  | c :: r =>
      match r with
      | d :: _ => negb (is_high_surrogate c && is_low_surrogate d) && pair_free r
      | [] => true
      end
  end.

(** What [scanstring] finds when it looks past a [\uXXXX] escape. *)
Inductive lookahead_result : Type :=
| LNone
| LJoin (lo : N) (rest : pystr)
| LError.

Definition lookahead (uni : N) (r2 : pystr) : lookahead_result :=
  match r2 with
  | b :: u :: l1 :: l2 :: l3 :: l4 :: ((_ :: _) as r3) =>
      if is_high_surrogate uni && (b =? 92)%N && (u =? 117)%N then
        match hex4_value l1 l2 l3 l4 with
        | None => LError
        | Some uni2 => if is_low_surrogate uni2 then LJoin uni2 r3 else LNone
        end
      else LNone
  | _ => LNone
  end.

(** Where a value ends inside what [json.dumps] writes: at the end of the
    text, or before a comma, a closing bracket or a closing brace. *)
Definition value_end (rest : pystr) : Prop :=
  match rest with
  | [] => True
  | c :: _ => c = 44%N \/ c = 93%N \/ c = 125%N
  end.

(** What [json.loads] returns for the text [json.dumps] wrote for [v]:
    [v] with the surrogate pairs of its strings joined, and every
    dictionary rebuilt item by item from its (joined) keys. *)
Fixpoint json_norm (v : pyval) : pyval :=
  match v with
  | PStr s => PStr (join_pairs s)
  | PList l => PList (map json_norm l)
  | PDict d =>
      PDict (fold_left
               (fun acc kv => dict_set acc (join_pairs (fst kv)) (json_norm (snd kv)))
               d [])
  | _ => v
  end.

(** All strings of a value, keys included, are Python strings. *)
Fixpoint valid_val (v : pyval) : Prop :=
  match v with
  | PStr s => valid_str s
  | PList l =>
      (fix all (l : list pyval) : Prop :=
         match l with
         | [] => True
         | x :: l' => valid_val x /\ all l'
         end) l
  | PDict d =>
      (fix all (d : list (pystr * pyval)) : Prop :=
         match d with
         | [] => True
         | kv :: d' => valid_str (fst kv) /\ valid_val (snd kv) /\ all d'
         end) d
  | _ => True
  end.

(** The values the round trip leaves as they are: no string holds a high
    surrogate directly followed by a low one, and the keys of every
    dictionary are distinct (as they are in any Python [dict]). *)
Fixpoint stable_val (v : pyval) : Prop :=
  match v with
  | PStr s => pair_free s = true
  | PList l =>
      (fix all (l : list pyval) : Prop :=
         match l with
         | [] => True
         | x :: l' => stable_val x /\ all l'
         end) l
  | PDict d =>
      NoDup (map fst d)
      /\ (fix all (d : list (pystr * pyval)) : Prop :=
            match d with
            | [] => True
            | kv :: d' =>
                pair_free (fst kv) = true /\ stable_val (snd kv) /\ all d'
            end) d
  | _ => True
  end.

(** The number of nested scanner calls a value needs. *)
Fixpoint scan_cost (v : pyval) : nat :=
  match v with
  | PList l => S (fold_right (fun x n => S (scan_cost x + n)) O l)
  | PDict d => S (fold_right (fun kv n => S (scan_cost (snd kv) + n)) O d)
  | _ => 1
  end.

(** ** [VQADataset.__getitem__] (lines 47-61) *)

(** [l[i]] on a list: a negative index counts from the end. *)
Definition py_index {A : Type} (l : list A) (i : Z) : result A :=
  let n := Z.of_nat (length l) in
  let j := if i <? 0 then i + n else i in
  if (0 <=? j) && (j <? n) then
    match nth_error l (Z.to_nat j) with
    | Some a => Ok a
    | None => Raise IndexError
    end
  else Raise IndexError.

(** [str.isspace] on one character, and [s.strip()]. *)
Definition is_space (c : N) : bool :=
  (((9 <=? c) && (c <=? 13)) || ((28 <=? c) && (c <=? 32))
   || (c =? 133) || (c =? 160) || (c =? 5760)
   || ((8192 <=? c) && (c <=? 8202))
   || (c =? 8232) || (c =? 8233) || (c =? 8239) || (c =? 8287)
   || (c =? 12288))%N.

Fixpoint lstrip (s : pystr) : pystr :=
  match s with
  | [] => []
  | c :: r => if is_space c then lstrip r else s
  end.

Definition py_strip (s : pystr) : pystr := rev (lstrip (rev (lstrip s))).

(** [v[k]] and [v.get(k, default)] with a string key. *)
Definition py_getitem (v : pyval) (k : pystr) : result pyval :=
  match v with
  | PDict d =>
      match assoc_get k d with
      | Some x => Ok x
      | None => Raise KeyError
      end
  | _ => Raise TypeError
  end.

Definition py_get (v : pyval) (k : pystr) (default : pyval) : result pyval :=
  match v with
  | PDict d =>
      match assoc_get k d with
      | Some x => Ok x
      | None => Ok default
      end
  | _ => Raise TypeError
  end.

(** Where the script needs a [str]: [os.path.join] and [+ ' '] raise
    [TypeError] on anything else. *)
Definition as_str (v : pyval) : result pystr :=
  match v with
  | PStr s => Ok s
  | _ => Raise TypeError
  end.

(** [os.path.join(a, b)] on POSIX. *)
Definition os_path_join (a b : pystr) : pystr :=
  match b with
  | 47%N :: _ => b
  | _ =>
      match a with
      | [] => b
      | _ => if (last a 0 =? 47)%N then a ++ b else a ++ 47%N :: b
      end
  end.

(** The dictionary [__getitem__] returns. *)
Record item {R : Runtime} : Type := MkItem {
  question_id : pyval;
  question : pystr;
  pixel_values : tensor;
  annotation : pyval
}.

(** [VQADataset.__getitem__]: the four fields are read in the order of
    line 49 ([KeyError] for a missing [image], [text] or [question_id],
    [TypeError] when the line is not a JSON object), then the image is
    opened and transformed, then the question is built (line 55). *)
Definition VQADataset_getitem {R : Runtime} (ds : VQADataset) (idx : Z)
  : result item :=
  line <- py_index (ds_data ds) idx ;;
  data <- json_loads (py_strip line) ;;
  image_v <- py_getitem data (str "image") ;;
  question_v <- py_getitem data (str "text") ;;
  qid <- py_getitem data (str "question_id") ;;
  ann <- py_get data (str "answer") PNone ;;
  image_s <- as_str image_v ;;
  img <- Image_open (os_path_join (ds_root ds) image_s) ;;
  t <- ds_transform ds img ;;
  question_s <- as_str question_v ;;
  Ok (MkItem R qid (question_s ++ str " " ++ ds_prompt ds) (unsqueeze0 t) ann).

(** ** The driver: configuration and arguments *)

(** An entry of [ds_collections] (lines 16-24). *)
Record ds_config : Type := DsConfig {
  cfg_root : pystr;
  cfg_question : pystr;
  cfg_metric : pyval;
  cfg_max_new_tokens : Z;
  cfg_min_new_tokens : Z
}.

Definition ds_collections : list (pystr * ds_config) :=
  [(str "pope",
    DsConfig (str "data/pope/val2014") (str "data/pope/llava_pope_test.jsonl")
             PNone 100 1)].

(** [ds_collections[ds_name]] *)
Definition ds_lookup (ds_name : pystr) : result ds_config :=
  match assoc_get ds_name ds_collections with
  | Some cfg => Ok cfg
  | None => Raise KeyError
  end.

(** The parsed command line (lines 174-184); [arg_datasets] is the list
    line 189 makes of the comma-separated option. *)
Record Args : Type := MkArgs {
  arg_checkpoint : pystr;
  arg_datasets : list pystr;
  arg_batch_size : Z;
  arg_num_workers : Z;
  arg_num_beams : Z;
  arg_template : pystr;
  arg_temperature : spec_float;
  arg_out_dir : pystr;
  arg_seed : Z
}.

(** ** [collate_fn] and the batches of the [DataLoader] *)

(** [collate_fn] (lines 27-33). *)
Definition collate_fn {R : Runtime} (batches : list item)
  : tensor * list pystr * list pyval * list pyval :=
  (torch_cat (map pixel_values batches),
   map question batches,
   map question_id batches,
   map annotation batches).

(** The [BatchSampler] of the loader ([drop_last=False]): the indices of
    the sampler in groups of [batch_size], the last group possibly
    shorter. *)
Fixpoint batch_sampler {A : Type} (size : nat) (batch : list A) (l : list A)
  : list (list A) :=
  match l with
  | [] =>
      match batch with
      | [] => []
      | _ :: _ => [rev batch]
      end
  | idx :: l' =>
      let batch' := idx :: batch in
      if (length batch' =? size)%nat then rev batch' :: batch_sampler size [] l'
      else batch_sampler size batch' l'
  end.

(** The index batches of [DataLoader(dataset, sampler, batch_size, ...)];
    a batch size that is not positive is refused with [ValueError]. *)
Definition dataloader_batches (batch_size : Z) (indices : list Z)
  : result (list (list Z)) :=
  if 0 <? batch_size then Ok (batch_sampler (Z.to_nat batch_size) [] indices)
  else Raise ValueError.

(** One step of the loader: fetch the items of a batch and collate them. *)
Definition fetch {R : Runtime} (ds : VQADataset) (batch : list Z)
  : result (tensor * list pystr * list pyval * list pyval) :=
  items <- mapM (VQADataset_getitem ds) batch ;;
  Ok (collate_fn items).

(** ** The evaluation loop of [evaluate_chat_model] (lines 103-146) *)

(** [generation_config] (lines 123-130); [temperature > 0] compares the
    float with the integer zero. *)
Definition make_generation_config (args : Args) (cfg : ds_config)
  : generation_config :=
  GenerationConfig
    (arg_num_beams args)
    (cfg_max_new_tokens cfg)
    (cfg_min_new_tokens cfg)
    1
    (if SFltb (S754_zero false) (arg_temperature args) then true else false)
    (arg_temperature args).

(** The dictionary appended to [outputs] (lines 141-146). *)
Definition prediction (qid : pyval) (text model_id : pystr) : pyval :=
  PDict [(str "question_id", qid);
         (str "text", PStr text);
         (str "model_id", PStr model_id);
         (str "metadata", PDict [])].

(** [zip(a, b, c)]: as long as the shortest of the three. *)
Fixpoint zip3 {A B C : Type} (a : list A) (b : list B) (c : list C)
  : list (A * B * C) :=
  match a, b, c with
  | x :: a', y :: b', z :: c' => (x, y, z) :: zip3 a' b' c'
  | _, _, _ => []
  end.

(** The body of the loop for one batch (lines 122-146): the predictions it
    appends to [outputs]. *)
Definition eval_batch {R : Runtime} (args : Args) (cfg : ds_config)
    (batch : tensor * list pystr * list pyval * list pyval)
  : result (list pyval) :=
  let '(pixels, questions, question_ids, annotations) := batch in
  let pixels := to_bfloat16_cuda pixels in
  let generation_config := make_generation_config args cfg in
  q0 <- py_index questions 0 ;;
  pred <- model_chat (arg_template args) pixels q0 generation_config ;;
  let answers := [pred] in
  Ok (map (fun '(qid, answer, ann) => prediction qid pred (arg_checkpoint args))
          (zip3 question_ids answers annotations)).

(** Lines 98-101: an explicit image size of the model configuration wins
    over the size of the vision encoder. *)
Definition image_size {R : Runtime} : Z :=
  match force_image_size with
  | Some size => size
  | None => vision_image_size
  end.

(** Lines 98-146 for one dataset name on the process of [pg]: the list
    [outputs] when the loop has finished. *)
Definition local_outputs {R : Runtime} (args : Args) (ds_name : pystr)
    (pg : process_group) : result (list pyval) :=
  cfg <- ds_lookup ds_name ;;
  dataset <- VQADataset_init (cfg_root cfg) (cfg_question cfg) (str "")
                             image_size pad2square ;;
  sampler <- InferenceSampler_init pg (VQADataset_len dataset) ;;
  batches <- dataloader_batches (arg_batch_size args)
                                (InferenceSampler_iter sampler) ;;
  outs <- mapM (fun b => batch <- fetch dataset b ;; eval_batch args cfg batch)
               batches ;;
  Ok (concat outs).

(** ** The gather step (lines 148-155), for all processes at once

    Every process runs the same script against the same files and the same
    model; rank [r] of [world_size] contributes [json.dumps(outputs)], and
    every process receives the contributions in rank order. *)

Definition all_gather_outputs {R : Runtime} (args : Args) (ds_name : pystr)
    (world_size : Z) : result (list pystr) :=
  mapM (fun r =>
          outputs <- local_outputs args ds_name (ProcessGroup r world_size) ;;
          Ok (json_dumps (PList outputs)))
       (range_list (Range 0 world_size)).

(** Iterating a value, as [itertools.chain.from_iterable] does with each
    element. *)
Definition py_iter (v : pyval) : result (list pyval) :=
  match v with
  | PList l => Ok l
  | PDict d => Ok (map (fun kv => PStr (fst kv)) d)
  | PStr s => Ok (map (fun c => PStr [c]) s)
  | _ => Raise TypeError
  end.

(** Lines 154-155. *)
Definition merge_outputs (gathered : list pystr) : result (list pyval) :=
  loaded <- mapM json_loads gathered ;;
  parts <- mapM py_iter loaded ;;
  Ok (concat parts).

(** [merged_outputs] after line 155, the same list on every process. *)
Definition merged_outputs {R : Runtime} (args : Args) (ds_name : pystr)
    (world_size : Z) : result (list pyval) :=
  gathered <- all_gather_outputs args ds_name world_size ;;
  merge_outputs gathered.

(** The text [json.dump] writes to the results file (line 162). *)
Definition results_file_text {R : Runtime} (args : Args) (ds_name : pystr)
    (world_size : Z) : result pystr :=
  merged <- merged_outputs args ds_name world_size ;;
  Ok (json_dumps (PList merged)).

(** ** The script as a process: what it does, in order

    The observable steps of a run are recorded as a trace; a run is the
    trace up to its end or to the exception that ends it. *)

Inductive event : Type :=
| EvMakedirs (path : pystr)
| EvPrint (text : list pystr)
| EvInitProcessGroup (world_size rank : Z)
| EvSetDevice (local_rank : Z)
| EvFromPretrained (checkpoint : pystr)
| EvSeed (seed : Z)
| EvEvaluate (ds_name : pystr)
| EvBarrier
| EvAllGather
| EvWriteFile (path text : pystr)
| EvSystem (cmd : pystr).

Definition io (A : Type) : Type := (list event * result A)%type.

Definition io_ret {A : Type} (a : A) : io A := ([], Ok a).

Definition io_bind {A B : Type} (m : io A) (f : A -> io B) : io B :=
  match m with
  | (t, Ok a) => let (t', r) := f a in (t ++ t', r)
  | (t, Raise e) => (t, Raise e)
  end.

Definition emit (e : event) : io unit := ([e], Ok tt).

Definition lift {A : Type} (r : result A) : io A := ([], r).

Notation "x <~ m ;; k" := (io_bind m (fun x => k))
  (at level 61, m at next level, right associativity).
Notation "m ;;; k" := (io_bind m (fun _ => k))
  (at level 61, right associativity).

Fixpoint io_for {A : Type} (l : list A) (body : A -> io unit) : io unit :=
  match l with
  | [] => io_ret tt
  | a :: l' => body a ;;; io_for l' body
  end.

(** [os.path.exists] and [os.makedirs]: the empty path never exists and
    cannot be created. *)
Definition os_path_exists {R : Runtime} (p : pystr) : bool :=
  match p with
  | [] => false
  | _ :: _ => fs_exists p
  end.

Definition os_makedirs {R : Runtime} (p : pystr) : result unit :=
  match p with
  | [] => Raise FileNotFoundError
  | _ :: _ => fs_makedirs p
  end.

(** One turn of the loop over [args.datasets] (lines 96-169).  Dataset
    construction and inference happen inside [local_outputs]; the
    [EvEvaluate] step marks where they start. *)
Definition evaluate_dataset {R : Runtime} (args : Args) (pg : process_group)
    (ds_name : pystr) : io unit :=
  emit (EvEvaluate ds_name) ;;;
  _ <~ lift (local_outputs args ds_name pg) ;;
  emit EvBarrier ;;;
  emit EvAllGather ;;;
  merged <~ lift (merged_outputs args ds_name (pg_world_size pg)) ;;
  if pg_rank pg =? 0 then
    let results_file :=
      os_path_join (arg_out_dir args)
                   (ds_name ++ str "_" ++ time_prefix ++ str ".json") in
    let cmd :=
      str "python eval/pope/eval_pope.py --annotation-dir ./data/pope/coco --question-file ./data/pope/llava_pope_test.jsonl --result-file "
      ++ results_file in
    emit (EvPrint [str "Evaluating " ++ ds_name ++ str " ..."]) ;;;
    emit (EvWriteFile results_file (json_dumps (PList merged))) ;;;
    emit (EvPrint [str "Results saved to " ++ results_file]) ;;;
    emit (EvPrint [cmd]) ;;;
    emit (EvSystem cmd)
  else io_ret tt.

(** [evaluate_chat_model] (lines 90-169). *)
Definition evaluate_chat_model {R : Runtime} (args : Args) (pg : process_group)
  : io unit :=
  emit (EvFromPretrained (arg_checkpoint args)) ;;;
  emit (EvSeed (arg_seed args)) ;;;
  io_for (arg_datasets args) (evaluate_dataset args pg).

(** The namespace [parser.parse_args()] returns (lines 174-184), and the
    integers read from [WORLD_SIZE], [RANK] and [LOCAL_RANK]. *)
Record Namespace : Type := MkNamespace {
  ns_checkpoint : pystr;
  ns_datasets : pystr;
  ns_batch_size : Z;
  ns_num_workers : Z;
  ns_num_beams : Z;
  ns_template : pystr;
  ns_temperature : spec_float;
  ns_out_dir : pystr;
  ns_seed : Z
}.

Record Environ : Type := MkEnviron {
  env_world_size : Z;
  env_rank : Z;
  env_local_rank : Z
}.

(** The [__main__] block (lines 172-201). *)
Definition main {R : Runtime} (ns : Namespace) (env : Environ) : io unit :=
  (if os_path_exists (ns_out_dir ns) then io_ret tt
   else emit (EvMakedirs (ns_out_dir ns)) ;;; lift (os_makedirs (ns_out_dir ns))) ;;;
  let datasets := split_char 44%N (ns_datasets ns) in
  emit (EvPrint (str "datasets:" :: datasets)) ;;;
  lift (if ns_batch_size ns =? 1 then Ok tt
        else Raise (AssertionError "Only batch size 1 is supported")) ;;;
  emit (EvInitProcessGroup (env_world_size env) (env_rank env)) ;;;
  emit (EvSetDevice (env_local_rank env)) ;;;
  evaluate_chat_model
    (MkArgs (ns_checkpoint ns) datasets (ns_batch_size ns) (ns_num_workers ns)
            (ns_num_beams ns) (ns_template ns) (ns_temperature ns)
            (ns_out_dir ns) (ns_seed ns))
    (ProcessGroup (env_rank env) (env_world_size env)).

(** ** Notions used to state the claims about the driver *)

(** A float is positive: [+inf] or a finite number with a positive sign. *)
Definition float_positive (t : spec_float) : bool :=
  match t with
  | S754_infinity false => true
  | S754_finite false _ _ => true
  | _ => false
  end.

(** What the loop does with one index when the batch size is 1: fetch the
    record, ask the model its question about its image, and build the
    prediction. *)
Definition predict_one {R : Runtime} (args : Args) (cfg : ds_config)
    (ds : VQADataset) (idx : Z) : result pyval :=
  it <- VQADataset_getitem ds idx ;;
  pred <- model_chat (arg_template args)
                     (to_bfloat16_cuda (torch_cat [pixel_values it]))
                     (question it)
                     (make_generation_config args cfg) ;;
  Ok (prediction (question_id it) pred (arg_checkpoint args)).

(** ** A small run for the examples: three records, checkpoint [ckpt] *)

Definition demo_line (img q id : string) : string :=
  let dq := String (ascii_of_nat 34) EmptyString in
  ("{" ++ dq ++ "image" ++ dq ++ ": " ++ dq ++ img ++ dq ++ ", "
   ++ dq ++ "text" ++ dq ++ ": " ++ dq ++ q ++ dq ++ ", "
   ++ dq ++ "question_id" ++ dq ++ ": " ++ id ++ "}"
   ++ String (ascii_of_nat 10) EmptyString)%string.

Definition demo_questions : pystr :=
  str (demo_line "a.jpg" "Is there a cat?" "1"
       ++ demo_line "b.jpg" "Is there a dog?" "2"
       ++ demo_line "c.jpg" "Is there a car?" "3")%string.

Definition demo : Runtime :=
  demo_runtime [(str "data/pope/llava_pope_test.jsonl", demo_questions)].

Definition demo_args (batch_size : Z) : Args :=
  MkArgs (str "ckpt") [str "pope"] batch_size 1 5 (str "vicuna_v1.1")
         (S754_zero false) (str "results") 0.

Definition demo_namespace (batch_size : Z) (out_dir : string) : Namespace :=
  MkNamespace (str "ckpt") (str "pope") batch_size 1 5 (str "vicuna_v1.1")
              (S754_zero false) (str out_dir) 0.

(** ** Auxiliary notions of the proofs *)

(** The boundary before rank [k]: [k] full shards of the base size, plus
    one extra item for each of the first [left] ranks. *)
Definition boundary (total ws k : Z) : Z :=
  k * (total / ws) + Z.min k (total mod ws).

(** One step of [int_of_digits]: the value so far, and the next digit. *)
Definition digit_step (a c : N) : N := (a * 10 + (c - 48))%N.

(** Every text [json.dumps] writes starts with a character that is neither
    white space nor a closing bracket or brace. *)
Definition value_head (s : pystr) : Prop :=
  exists c t, s = c :: t /\ is_json_ws c = false /\ c <> 93%N /\ c <> 125%N.

(** What the round trip lemma says of one value. *)
Definition scans_back (v : pyval) : Prop :=
  valid_val v ->
  forall (fuel : nat) (rest : pystr),
    (scan_cost v <= fuel)%nat -> value_end rest ->
    scan_once fuel (json_dumps v ++ rest) = Ok (json_norm v, rest).

(** The nested calls the items of a list and the members of a dictionary
    need ([scan_cost] without the call that opens the bracket). *)
Definition items_cost (l : list pyval) : nat :=
  fold_right (fun x n => S (scan_cost x + n)) O l.

Definition members_cost (d : list (pystr * pyval)) : nat :=
  fold_right (fun kv n => S (scan_cost (snd kv) + n)) O d.

(** What [json_dumps] writes for one member of a dictionary, and what
    [json_norm] does with it. *)
Definition dump_member (kv : pystr * pyval) : pystr :=
  encode_basestring_ascii (fst kv) ++ [58; 32]%N ++ json_dumps (snd kv).

Definition norm_member (acc : list (pystr * pyval)) (kv : pystr * pyval)
  : list (pystr * pyval) :=
  dict_set acc (join_pairs (fst kv)) (json_norm (snd kv)).

(** A prediction of the run of [args]: the four fields, in the order the
    dictionary is written. *)
Definition is_prediction (args : Args) (p : pyval) : Prop :=
  exists qid text, p = prediction qid text (arg_checkpoint args).

(** A scanner call makes progress: it consumes at least one character, or
    it raises something other than [RecursionError]. *)
Definition progresses (s : pystr) (m : result (pyval * pystr)) : Prop :=
  match m with
  | Ok (_, r) => (length r < length s)%nat
  | Raise e => e <> RecursionError
  end.

(* ====================================================================== *)
(** * Part II: lemmas and theorems                                         *)
(* ====================================================================== *)

(** ** The result monad *)

Lemma bind_Ok {A B : Type} (m : result A) (f : A -> result B) (b : B) :
  bind m f = Ok b -> exists a, m = Ok a /\ f a = Ok b.
Proof.
  destruct m as [a | e]; simpl; intros H; [eauto | discriminate].
Qed.

(** ** Ranges *)

Lemma range_list_In (a b i : Z) :
  In i (range_list (Range a b)) <-> a <= i < b.
Proof.
  unfold range_list; simpl. rewrite in_map_iff. split.
  - intros [k [<- Hk]]. apply in_seq in Hk. lia.
  - intros H. exists (Z.to_nat (i - a)). split; [lia |].
    apply in_seq. lia.
Qed.

Lemma range_list_length (a b : Z) :
  Z.of_nat (length (range_list (Range a b))) = range_len (Range a b).
Proof.
  unfold range_list, range_len; simpl.
  rewrite length_map, length_seq. lia.
Qed.

Lemma map_seq_shift (a : Z) (m s t : nat) :
  map (fun k => a + Z.of_nat k) (seq (s + t) m)
  = map (fun k => a + Z.of_nat s + Z.of_nat k) (seq t m).
Proof.
  revert t; induction m as [| m IH]; intros t; simpl; [reflexivity |].
  f_equal; [lia |].
  replace (S (s + t)) with (s + S t)%nat by lia. apply IH.
Qed.

Lemma range_list_app (a b c : Z) :
  a <= b -> b <= c ->
  range_list (Range a b) ++ range_list (Range b c) = range_list (Range a c).
Proof.
  intros Hab Hbc. unfold range_list; simpl.
  replace (Z.to_nat (c - a)) with (Z.to_nat (b - a) + Z.to_nat (c - b))%nat by lia.
  rewrite seq_app, map_app. f_equal.
  rewrite <- (Nat.add_0_r (0 + Z.to_nat (b - a))), map_seq_shift.
  apply map_ext. intros k. lia.
Qed.

(** ** The shard sampler *)

Lemma fold_left_add_acc (l : list Z) (a : Z) :
  fold_left Z.add l a = a + fold_left Z.add l 0.
Proof.
  revert a; induction l as [| x l IH]; intros a; simpl; [lia |].
  rewrite IH, (IH x). lia.
Qed.

Lemma py_sum_app (l1 l2 : list Z) : py_sum (l1 ++ l2) = py_sum l1 + py_sum l2.
Proof.
  unfold py_sum. rewrite fold_left_app. apply fold_left_add_acc.
Qed.

Lemma py_slice_upto_firstn {A : Type} (l : list A) (k : Z) :
  0 <= k <= Z.of_nat (length l) ->
  py_slice_upto l k = firstn (Z.to_nat k) l.
Proof.
  intros H. unfold py_slice_upto.
  destruct (Z.ltb_spec k 0); [lia |].
  f_equal. lia.
Qed.

Lemma shard_sizes_length (total ws : Z) :
  length (shard_sizes total ws) = Z.to_nat ws.
Proof.
  unfold shard_sizes, range_list; simpl.
  rewrite !length_map, length_seq. f_equal. lia.
Qed.

Lemma sum_shard_prefix (q left : Z) (m : nat) :
  0 <= left ->
  py_sum (map (fun r => q + int_of_bool (r <? left))
              (map (fun k => 0 + Z.of_nat k) (seq 0 m)))
  = Z.of_nat m * q + Z.min (Z.of_nat m) left.
Proof.
  intros Hl. induction m as [| m IH].
  - simpl. unfold py_sum; simpl. lia.
  - rewrite seq_S, !map_app, py_sum_app, IH.
    cbn [map Nat.add py_sum fold_left]. rewrite !Z.add_0_l.
    unfold int_of_bool.
    destruct (Z.ltb_spec (Z.of_nat m) left); lia.
Qed.

Lemma shard_prefix_boundary (total ws k : Z) :
  1 <= ws -> 0 <= k <= ws ->
  py_sum (py_slice_upto (shard_sizes total ws) k) = boundary total ws k.
Proof.
  intros Hw Hk.
  rewrite py_slice_upto_firstn by (rewrite shard_sizes_length; lia).
  unfold shard_sizes, range_list; simpl.
  rewrite !firstn_map.
  replace (Z.to_nat (ws - 0)) with (Z.to_nat k + Z.to_nat (ws - k))%nat by lia.
  rewrite seq_app, firstn_app, length_seq, Nat.sub_diag, firstn_O, app_nil_r.
  rewrite firstn_all2 by (rewrite length_seq; lia).
  rewrite sum_shard_prefix by (apply Z.mod_pos_bound; lia).
  unfold boundary. rewrite Z2Nat.id by lia. reflexivity.
Qed.

Lemma boundary_0 (total ws : Z) : 1 <= ws -> boundary total ws 0 = 0.
Proof.
  intros Hw. unfold boundary.
  pose proof (Z.mod_pos_bound total ws ltac:(lia)). lia.
Qed.

Lemma boundary_ws (total ws : Z) : 1 <= ws -> boundary total ws ws = total.
Proof.
  intros Hw. unfold boundary.
  pose proof (Z.mod_pos_bound total ws ltac:(lia)).
  pose proof (Z.div_mod total ws ltac:(lia)).
  rewrite Z.min_r by lia. lia.
Qed.

Lemma boundary_step (total ws k : Z) :
  1 <= ws ->
  boundary total ws (k + 1) - boundary total ws k
  = total / ws + int_of_bool (k <? total mod ws).
Proof.
  intros Hw. unfold boundary, int_of_bool.
  destruct (Z.ltb_spec k (total mod ws)); lia.
Qed.

Lemma boundary_mono (total ws j k : Z) :
  0 <= total -> 1 <= ws -> j <= k ->
  boundary total ws j <= boundary total ws k.
Proof.
  intros Ht Hw Hjk. unfold boundary.
  assert (0 <= total / ws) by (apply Z.div_pos; lia).
  assert (j * (total / ws) <= k * (total / ws)) by nia.
  lia.
Qed.

(** On a valid rank the sampler's range runs from one boundary to the
    next: the [min] with [total_size] on line 80 never cuts anything. *)
Lemma _get_local_indices_boundary (total ws r : Z) :
  0 <= total -> 1 <= ws -> 0 <= r < ws ->
  _get_local_indices total ws r
  = Ok (Range (boundary total ws r) (boundary total ws (r + 1))).
Proof.
  intros Ht Hw Hr. unfold _get_local_indices.
  destruct (Z.eqb_spec ws 0); [lia |].
  rewrite !shard_prefix_boundary by lia.
  pose proof (boundary_mono total ws (r + 1) ws Ht Hw ltac:(lia)) as Hm.
  rewrite boundary_ws in Hm by lia.
  rewrite Z.min_l by lia. reflexivity.
Qed.

Lemma boundary_locate (total ws : Z) (n : nat) (i : Z) :
  1 <= ws ->
  boundary total ws 0 <= i < boundary total ws (Z.of_nat n) ->
  exists r, 0 <= r < Z.of_nat n
            /\ boundary total ws r <= i < boundary total ws (r + 1).
Proof.
  intros Hw. induction n as [| n IH]; intros Hi; [simpl in Hi; lia |].
  destruct (Z.lt_ge_cases i (boundary total ws (Z.of_nat n))) as [Hlt | Hge].
  - destruct IH as [r [Hr Hb]]; [lia |]. exists r. split; [lia | exact Hb].
  - exists (Z.of_nat n). split; [lia |].
    replace (Z.of_nat n + 1) with (Z.of_nat (S n)) by lia. lia.
Qed.

Lemma shards_concat (total ws : Z) (n : nat) :
  0 <= total -> 1 <= ws ->
  concat (map (fun r => range_list (Range (boundary total ws r)
                                          (boundary total ws (r + 1))))
              (range_list (Range 0 (Z.of_nat n))))
  = range_list (Range (boundary total ws 0) (boundary total ws (Z.of_nat n))).
Proof.
  intros Ht Hw. induction n as [| n IH].
  - unfold range_list; simpl. rewrite Z.sub_diag. reflexivity.
  - rewrite <- (range_list_app 0 (Z.of_nat n) (Z.of_nat (S n))) by lia.
    rewrite map_app, concat_app, IH.
    replace (range_list (Range (Z.of_nat n) (Z.of_nat (S n)))) with [Z.of_nat n].
    + simpl. rewrite app_nil_r.
      replace (Z.of_nat n + 1) with (Z.of_nat (S n)) by lia.
      apply range_list_app; apply boundary_mono; lia.
    + unfold range_list; cbn [range_start range_stop].
      replace (Z.to_nat (Z.of_nat (S n) - Z.of_nat n)) with 1%nat by lia.
      cbn [seq map]. rewrite Z.add_0_r. reflexivity.
Qed.

Lemma mapM_pointwise {A B : Type} (f : A -> result B) (g : A -> B) (l : list A) :
  (forall a, In a l -> f a = Ok (g a)) -> mapM f l = Ok (map g l).
Proof.
  induction l as [| a l IH]; intros H; simpl; [reflexivity |].
  rewrite (H a) by (left; reflexivity). simpl.
  rewrite IH by (intros b Hb; apply H; right; exact Hb).
  reflexivity.
Qed.

Lemma shards_concat_all (total ws : Z) :
  0 <= total -> 1 <= ws ->
  concat (map (fun r => range_list (Range (boundary total ws r)
                                          (boundary total ws (r + 1))))
              (range_list (Range 0 ws)))
  = range_list (Range 0 total).
Proof.
  intros Ht Hw.
  pose proof (shards_concat total ws (Z.to_nat ws) Ht Hw) as H.
  rewrite Z2Nat.id, boundary_0, boundary_ws in H by lia. exact H.
Qed.

(** C1.  For [total_size > 0] and [world_size >= 1] the ranges the sampler
    computes for the ranks [0 .. world_size-1] partition [[0, total_size)]:
    every rank gets a range inside it, every index lies in the range of some
    rank, two ranks whose ranges share an index are the same rank, any two
    shard sizes differ by at most one with the larger shards on the lower
    ranks, and the ranges concatenated in rank order enumerate
    [0, 1, ..., total_size-1]. *)
Theorem shard_ranges_partition (total_size world_size : Z) :
  0 < total_size -> 1 <= world_size ->
  let shard := _get_local_indices total_size world_size in
  (forall r, 0 <= r < world_size ->
     exists rg, shard r = Ok rg
                /\ forall i, In i (range_list rg) -> 0 <= i < total_size)
  /\ (forall i, 0 <= i < total_size ->
        exists r rg, 0 <= r < world_size /\ shard r = Ok rg
                     /\ In i (range_list rg))
  /\ (forall r1 r2 rg1 rg2 i,
        0 <= r1 < world_size -> 0 <= r2 < world_size ->
        shard r1 = Ok rg1 -> shard r2 = Ok rg2 ->
        In i (range_list rg1) -> In i (range_list rg2) -> r1 = r2)
  /\ (forall r1 r2 rg1 rg2,
        0 <= r1 < world_size -> 0 <= r2 < world_size ->
        shard r1 = Ok rg1 -> shard r2 = Ok rg2 ->
        Z.abs (range_len rg1 - range_len rg2) <= 1
        /\ (r1 <= r2 -> range_len rg2 <= range_len rg1))
  /\ (exists shards,
        mapM shard (range_list (Range 0 world_size)) = Ok shards
        /\ concat (map range_list shards) = range_list (Range 0 total_size)).
Proof.
  intros Ht Hw shard. subst shard.
  assert (Hget : forall r, 0 <= r < world_size ->
            _get_local_indices total_size world_size r
            = Ok (Range (boundary total_size world_size r)
                        (boundary total_size world_size (r + 1))))
    by (intros r Hr; apply _get_local_indices_boundary; lia).
  assert (Hmono : forall j k, j <= k ->
            boundary total_size world_size j <= boundary total_size world_size k)
    by (intros j k Hjk; apply boundary_mono; lia).
  pose proof (boundary_0 total_size world_size Hw) as H0.
  pose proof (boundary_ws total_size world_size Hw) as Hlast.
  assert (Hlen : forall r, 0 <= r < world_size ->
            range_len (Range (boundary total_size world_size r)
                             (boundary total_size world_size (r + 1)))
            = total_size / world_size
              + int_of_bool (r <? total_size mod world_size)).
  { intros r Hr. unfold range_len; simpl. rewrite boundary_step by lia.
    assert (0 <= total_size / world_size) by (apply Z.div_pos; lia).
    unfold int_of_bool. destruct (r <? total_size mod world_size); lia. }
  split; [| split; [| split; [| split]]].
  - intros r Hr. eexists. split; [apply Hget; exact Hr |].
    intros i Hi. apply range_list_In in Hi.
    pose proof (Hmono 0 r ltac:(lia)). pose proof (Hmono (r + 1) world_size ltac:(lia)).
    lia.
  - intros i Hi.
    destruct (boundary_locate total_size world_size (Z.to_nat world_size) i Hw)
      as [r [Hr Hb]]; [rewrite Z2Nat.id by lia; lia |].
    rewrite Z2Nat.id in Hr by lia.
    exists r. eexists. split; [exact Hr |]. split; [apply Hget; exact Hr |].
    apply range_list_In. exact Hb.
  - intros r1 r2 rg1 rg2 i Hr1 Hr2 E1 E2 I1 I2.
    rewrite Hget in E1, E2 by assumption.
    injection E1 as <-. injection E2 as <-.
    apply range_list_In in I1. apply range_list_In in I2.
    destruct (Z.lt_trichotomy r1 r2) as [Hlt | [Heq | Hgt]]; [| exact Heq |].
    + pose proof (Hmono (r1 + 1) r2 ltac:(lia)). lia.
    + pose proof (Hmono (r2 + 1) r1 ltac:(lia)). lia.
  - intros r1 r2 rg1 rg2 Hr1 Hr2 E1 E2.
    rewrite Hget in E1, E2 by assumption.
    injection E1 as <-. injection E2 as <-.
    rewrite !Hlen by assumption. unfold int_of_bool.
    destruct (Z.ltb_spec r1 (total_size mod world_size)),
             (Z.ltb_spec r2 (total_size mod world_size)); lia.
  - exists (map (fun r => Range (boundary total_size world_size r)
                                (boundary total_size world_size (r + 1)))
                (range_list (Range 0 world_size))).
    split.
    + apply mapM_pointwise. intros r Hr. apply range_list_In in Hr.
      apply Hget. exact Hr.
    + rewrite map_map.
      rewrite <- (Z2Nat.id world_size) at 1 by lia.
      rewrite shards_concat by lia.
      rewrite Z2Nat.id, H0, Hlast by lia. reflexivity.
Qed.

Lemma shard_ranges_partition_witness :
  exists r rg, 0 <= r < 3 /\ _get_local_indices 10 3 r = Ok rg
               /\ In 5 (range_list rg).
Proof.
  apply (shard_ranges_partition 10 3); lia.
Defined.

(** The example of the specification: 10 items over 3 ranks. *)
Example shards_10_3 :
  map (_get_local_indices 10 3) [0; 1; 2]
  = [Ok (Range 0 4); Ok (Range 4 7); Ok (Range 7 10)].
Proof. reflexivity. Qed.

Example shard_single_process :
  _get_local_indices 7 1 0 = Ok (Range 0 7).
Proof. reflexivity. Qed.

(** C5.  Constructing the sampler with a size that is not positive raises
    the assertion failure of line 68 and returns no sampler; with a positive
    size, in an initialised process group (at least one process), it returns
    a sampler that holds the rank's range. *)
Theorem InferenceSampler_init_guard (pg : process_group) (size : Z) :
  (size <= 0 -> InferenceSampler_init pg size = Raise (AssertionError ""))
  /\ (0 < size -> 1 <= pg_world_size pg ->
      exists li,
        _get_local_indices size (pg_world_size pg) (pg_rank pg) = Ok li
        /\ InferenceSampler_init pg size
           = Ok (MkSampler size (pg_rank pg) (pg_world_size pg) li)).
Proof.
  unfold InferenceSampler_init. split.
  - intros H. destruct (Z.ltb_spec 0 size); [lia | reflexivity].
  - intros H Hw. destruct (Z.ltb_spec 0 size); [| lia].
    unfold _get_local_indices.
    destruct (Z.eqb_spec (pg_world_size pg) 0); [lia |].
    eexists. split; reflexivity.
Qed.

Lemma InferenceSampler_init_guard_witness :
  InferenceSampler_init (ProcessGroup 1 3) 0 = Raise (AssertionError "")
  /\ exists li,
       _get_local_indices 10 3 1 = Ok li
       /\ InferenceSampler_init (ProcessGroup 1 3) 10 = Ok (MkSampler 10 1 3 li).
Proof.
  split.
  - apply (InferenceSampler_init_guard (ProcessGroup 1 3) 0). lia.
  - apply (InferenceSampler_init_guard (ProcessGroup 1 3) 10); simpl; lia.
Defined.

(** ** The dataset reader *)

Lemma split_lines_nonempty (text : pystr) : split_lines text <> [].
Proof.
  unfold split_lines. destruct text as [| c rest]; simpl; [discriminate |].
  destruct (c =? 10)%N; [discriminate |].
  destruct (split_char 10 rest); discriminate.
Qed.

(** [readlines] in terms of the pieces between line feeds: every piece but
    the last is a line (with its line feed put back), and the last piece is
    a line when it is not empty. *)
Lemma readlines_split_lines (text : pystr) :
  readlines text
  = map (fun p => p ++ [10%N]) (removelast (split_lines text))
    ++ (if is_empty (last (split_lines text) []) then []
        else [last (split_lines text) []]).
Proof.
  induction text as [| c rest IH]; [reflexivity |].
  pose proof (split_lines_nonempty rest) as Hne.
  unfold split_lines in *. cbn [readlines split_char].
  destruct (N.eqb_spec c 10) as [-> | Hc].
  - rewrite IH. destruct (split_char 10 rest) as [| p ps]; [contradiction |].
    reflexivity.
  - rewrite IH. destruct (split_char 10 rest) as [| p ps]; [contradiction |].
    destruct ps as [| p' ps'].
    + simpl. destruct p; reflexivity.
    + reflexivity.
Qed.

Lemma filter_partition_length {A : Type} (f : A -> bool) (l : list A) :
  (length l
   = length (filter (fun a => negb (f a)) l) + length (filter f l))%nat.
Proof.
  induction l as [| a l IH]; simpl; [reflexivity |].
  destruct (f a); simpl; lia.
Qed.

Lemma readlines_length (text : pystr) :
  Z.of_nat (length (readlines text))
  = nonempty_line_count text + blank_line_count text.
Proof.
  unfold nonempty_line_count, blank_line_count.
  rewrite readlines_split_lines.
  destruct (exists_last (split_lines_nonempty text)) as [body [tail E]].
  rewrite E, removelast_last, last_last.
  rewrite filter_app, !length_app, length_map.
  rewrite (filter_partition_length is_empty body) at 1.
  cbn [filter]. destruct (is_empty tail); cbn [negb length]; lia.
Qed.

(** C3 (as amended).  When the question file can be read, the dataset is
    built and its length is the number of lines [readlines] returns, blank
    lines included: the non-empty lines of the file plus its blank lines.
    It is the number of non-empty lines exactly when the file has no blank
    line.  When the file cannot be read, the exception propagates. *)
Theorem VQADataset_len_counts_every_line
    (R : Runtime) (root data prompt : pystr) (input_size : Z) (pad : bool) :
  match read_text data with
  | Ok text =>
      exists ds,
        VQADataset_init root data prompt input_size pad = Ok ds
        /\ ds_data ds = readlines text
        /\ VQADataset_len ds
           = nonempty_line_count text + blank_line_count text
        /\ (VQADataset_len ds = nonempty_line_count text
            <-> blank_line_count text = 0)
  | Raise e => VQADataset_init root data prompt input_size pad = Raise e
  end.
Proof.
  unfold VQADataset_init.
  destruct (read_text data) as [text | e]; simpl; [| reflexivity].
  eexists. split; [reflexivity |]. simpl. split; [reflexivity |].
  unfold VQADataset_len; simpl. rewrite readlines_length.
  split; [reflexivity | lia].
Qed.

(** C3, counterexample.  A question file of two records separated by a
    blank line has two non-empty lines, and the dataset has three items. *)
Lemma VQADataset_len_counts_blank_line :
  let text := str ("{}" ++ String (ascii_of_nat 10) (String (ascii_of_nat 10) "{}")) in
  let R := demo_runtime [(str "q.jsonl", text)] in
  exists ds,
    VQADataset_init (str "root") (str "q.jsonl") (str "") 224 false = Ok ds
    /\ VQADataset_len ds = 3
    /\ nonempty_line_count text = 2
    /\ VQADataset_len ds <> nonempty_line_count text.
Proof.
  eexists. split; [reflexivity |].
  split; [reflexivity |]. split; [reflexivity |]. discriminate.
Qed.

(** ** [json]: hexadecimal escapes and surrogate pairs *)

(** From here on [lia] reasons about division and remainder too. *)
Ltac Zify.zify_post_hook ::= Z.to_euclidean_division_equations.

Lemma hex_value_hex_digit (d : N) :
  (d < 16)%N -> hex_value (hex_digit d) = Some d.
Proof.
  intros H.
  assert (E : (d = 0 \/ d = 1 \/ d = 2 \/ d = 3 \/ d = 4 \/ d = 5 \/ d = 6
               \/ d = 7 \/ d = 8 \/ d = 9 \/ d = 10 \/ d = 11 \/ d = 12
               \/ d = 13 \/ d = 14 \/ d = 15)%N) by lia.
  repeat (destruct E as [-> | E]; [reflexivity |]). subst d. reflexivity.
Qed.

Lemma hex4_value_hex4 (n : N) :
  (n < 65536)%N ->
  hex4_value (hex_digit (n / 4096)) (hex_digit ((n / 256) mod 16))
             (hex_digit ((n / 16) mod 16)) (hex_digit (n mod 16)) = Some n.
Proof.
  intros H. unfold hex4_value.
  rewrite !hex_value_hex_digit by lia.
  f_equal. lia.
Qed.

Lemma testbit_above (y k n : N) :
  (y < 2 ^ k)%N -> (k <= n)%N -> N.testbit y n = false.
Proof.
  intros Hy Hn. destruct (N.eq_dec y 0) as [-> | Hne]; [apply N.bits_0 |].
  apply N.bits_above_log2.
  assert (N.log2 y < k)%N by (apply N.log2_lt_pow2; lia). lia.
Qed.

Lemma lor_shifted (x y k : N) :
  (y < 2 ^ k)%N -> N.lor (x * 2 ^ k) y = (x * 2 ^ k + y)%N.
Proof.
  intros Hy.
  assert (Hl : N.land (x * 2 ^ k) y = 0%N).
  { apply N.bits_inj_0. intros n. rewrite N.land_spec.
    destruct (N.lt_ge_cases n k) as [Hlt | Hge].
    - rewrite N.mul_pow2_bits_low by exact Hlt. reflexivity.
    - rewrite (testbit_above y k n Hy Hge). apply andb_false_r. }
  rewrite N.add_nocarry_lxor by exact Hl. symmetry. apply N.lxor_lor. exact Hl.
Qed.

(** The two halves [encode_basestring_ascii] writes for a character above
    the basic plane, as arithmetic. *)
Lemma surrogate_halves (c : N) :
  (65536 <= c < 1114112)%N ->
  let n := (c - 65536)%N in
  N.lor 55296 (N.land (N.shiftr n 10) 1023) = (55296 + n / 1024)%N
  /\ N.lor 56320 (N.land n 1023) = (56320 + n mod 1024)%N
  /\ (n / 1024 < 1024)%N.
Proof.
  intros Hc n.
  assert (Hn : (n < 1048576)%N) by (unfold n; lia).
  assert (Hq : (n / 1024 < 1024)%N) by (apply N.Div0.div_lt_upper_bound; lia).
  change 1023%N with (N.ones 10). rewrite !N.land_ones, N.shiftr_div_pow2.
  change (2 ^ 10)%N with 1024%N.
  rewrite (N.mod_small (n / 1024)) by exact Hq.
  change 55296%N with (54 * 2 ^ 10)%N. change 56320%N with (55 * 2 ^ 10)%N.
  rewrite !lor_shifted.
  - repeat split; try reflexivity. exact Hq.
  - change (2 ^ 10)%N with 1024%N. apply N.mod_lt. lia.
  - exact Hq.
Qed.

Lemma join_surrogates_halves (x y : N) :
  (x < 1024)%N -> (y < 1024)%N ->
  join_surrogates (55296 + x) (56320 + y) = (65536 + x * 1024 + y)%N.
Proof.
  intros Hx Hy. unfold join_surrogates.
  change 1023%N with (N.ones 10). rewrite !N.land_ones, N.shiftl_mul_pow2.
  change 55296%N with (54 * 2 ^ 10)%N. change 56320%N with (55 * 2 ^ 10)%N.
  change (2 ^ 10)%N with 1024%N.
  replace ((54 * 1024 + x) mod 1024)%N with x.
  2:{ rewrite N.add_comm, N.Div0.mod_add, N.mod_small; [reflexivity | exact Hx]. }
  replace ((55 * 1024 + y) mod 1024)%N with y.
  2:{ rewrite N.add_comm, N.Div0.mod_add, N.mod_small; [reflexivity | exact Hy]. }
  change 1024%N with (2 ^ 10)%N. rewrite lor_shifted by exact Hy. lia.
Qed.

(** ** [json]: strings *)

Ltac ncases :=
  repeat match goal with
    | |- context [(?a =? ?b)%N] => destruct (N.eqb_spec a b)
    | |- context [(?a <=? ?b)%N] => destruct (N.leb_spec a b)
    | |- context [(?a <? ?b)%N] => destruct (N.ltb_spec a b)
    end;
  cbn [andb orb negb]; try reflexivity; try discriminate; try lia;
  try (exfalso; lia).

(** Decide every equality test of the goal from the arithmetic facts at
    hand. *)
Ltac neqb :=
  repeat match goal with
    | |- context [(?a =? ?b)%N] =>
        first [ destruct (N.eqb_spec a b) as [? | ?]; [exfalso; lia |]
              | destruct (N.eqb_spec a b) as [? | ?]; [| exfalso; lia] ]
    end.

Lemma scanstring_u (h1 h2 h3 h4 uni : N) (r2 : pystr) :
  hex4_value h1 h2 h3 h4 = Some uni ->
  scanstring (92 :: 117 :: h1 :: h2 :: h3 :: h4 :: r2)%N
  = match lookahead uni r2 with
    | LNone => cons_char uni (scanstring r2)
    | LJoin lo r3 => cons_char (join_surrogates uni lo) (scanstring r3)
    | LError => Raise JSONDecodeError
    end.
Proof.
  intros H.
  change (scanstring (92 :: 117 :: h1 :: h2 :: h3 :: h4 :: r2)%N)
    with (match hex4_value h1 h2 h3 h4 with
          | None => Raise JSONDecodeError
          | Some uni =>
              match r2 with
              | b :: u :: l1 :: l2 :: l3 :: l4 :: ((_ :: _) as r3) =>
                  if is_high_surrogate uni && (b =? 92)%N && (u =? 117)%N
                  then
                    match hex4_value l1 l2 l3 l4 with
                    | None => Raise JSONDecodeError
                    | Some uni2 =>
                        if is_low_surrogate uni2
                        then cons_char (join_surrogates uni uni2) (scanstring r3)
                        else cons_char uni (scanstring r2)
                    end
                  else cons_char uni (scanstring r2)
              | _ => cons_char uni (scanstring r2)
              end
          end).
  rewrite H.
  destruct r2 as [| b [| u [| l1 [| l2 [| l3 [| l4 [| x r4]]]]]]];
    try reflexivity.
  unfold lookahead.
  destruct (is_high_surrogate uni && (b =? 92)%N && (u =? 117)%N);
    [| reflexivity].
  destruct (hex4_value l1 l2 l3 l4) as [uni2 |]; [| reflexivity].
  destruct (is_low_surrogate uni2); reflexivity.
Qed.

Lemma scanstring_plain (c : N) (r : pystr) :
  c <> 34%N -> c <> 92%N -> (32 <= c)%N ->
  scanstring (c :: r) = cons_char c (scanstring r).
Proof.
  intros H1 H2 H3. cbn [scanstring].
  destruct (N.eqb_spec c 34); [contradiction |].
  destruct (N.eqb_spec c 92); [contradiction |].
  destruct (N.ltb_spec c 32); [lia | reflexivity].
Qed.

Lemma lookahead_not_high (uni : N) (r : pystr) :
  is_high_surrogate uni = false -> lookahead uni r = LNone.
Proof.
  intros H. unfold lookahead. rewrite H.
  destruct r as [| b [| u [| l1 [| l2 [| l3 [| l4 [| x r4]]]]]]]; reflexivity.
Qed.

Lemma lookahead_not_backslash (uni b : N) (r : pystr) :
  b <> 92%N -> lookahead uni (b :: r) = LNone.
Proof.
  intros H. unfold lookahead.
  destruct r as [| u [| l1 [| l2 [| l3 [| l4 [| x r4]]]]]]; try reflexivity.
  destruct (N.eqb_spec b 92); [contradiction |].
  rewrite andb_false_r. reflexivity.
Qed.

Lemma lookahead_not_u (uni u : N) (r : pystr) :
  u <> 117%N -> lookahead uni (92%N :: u :: r) = LNone.
Proof.
  intros H. unfold lookahead.
  destruct r as [| l1 [| l2 [| l3 [| l4 [| x r4]]]]]; try reflexivity.
  destruct (N.eqb_spec u 117); [contradiction |].
  rewrite andb_false_r. reflexivity.
Qed.

Lemma lookahead_escape_u (uni l1 l2 l3 l4 uni2 : N) (r : pystr) :
  is_high_surrogate uni = true ->
  hex4_value l1 l2 l3 l4 = Some uni2 ->
  r <> [] ->
  lookahead uni (92 :: 117 :: l1 :: l2 :: l3 :: l4 :: r)%N
  = if is_low_surrogate uni2 then LJoin uni2 r else LNone.
Proof.
  intros Hh Hv Hr. destruct r as [| x r4]; [contradiction |].
  unfold lookahead. rewrite Hh, Hv. reflexivity.
Qed.

Lemma escape_char_nonempty (c : N) : escape_char c <> [].
Proof.
  unfold escape_char.
  repeat match goal with
    | |- context [if ?b then _ else _] => destruct b; try discriminate
    end.
Qed.

Lemma escaped_tail_nonempty (s rest : pystr) :
  flat_map escape_char s ++ 34%N :: rest <> [].
Proof.
  destruct s as [| c s]; simpl; [discriminate |].
  pose proof (escape_char_nonempty c).
  destruct (escape_char c); [contradiction | discriminate].
Qed.

Ltac escape_cases c :=
  unfold escape_char;
  destruct (N.eqb_spec c 34) as [-> | ?];
  [| destruct (N.eqb_spec c 92) as [-> | ?];
     [| destruct (N.eqb_spec c 10) as [-> | ?];
        [| destruct (N.eqb_spec c 13) as [-> | ?];
           [| destruct (N.eqb_spec c 9) as [-> | ?];
              [| destruct (N.eqb_spec c 12) as [-> | ?];
                 [| destruct (N.eqb_spec c 8) as [-> | ?];
                    [| destruct (N.leb_spec 32 c);
                       [destruct (N.leb_spec c 126) |];
                       cbn [andb];
                       [| destruct (N.ltb_spec c 65536)
                        | destruct (N.ltb_spec c 65536)]]]]]]]].

(** Scanning the escape of one character that is not a high surrogate
    gives the character back. *)
Lemma scanstring_escape_char (c : N) (T : pystr) :
  valid_char c -> is_high_surrogate c = false -> T <> [] ->
  scanstring (escape_char c ++ T) = cons_char c (scanstring T).
Proof.
  unfold valid_char. intros Hv Hh HT.
  escape_cases c; try reflexivity.
  - apply scanstring_plain; lia.
  - cbn [app hex4]. rewrite (scanstring_u _ _ _ _ c) by (apply hex4_value_hex4; lia).
    rewrite lookahead_not_high by exact Hh. reflexivity.
  - cbv zeta.
    destruct (surrogate_halves c ltac:(lia)) as [E1 [E2 Hq]].
    cbv zeta in E1, E2. rewrite E1, E2.
    set (k := (c - 65536)%N) in *.
    assert (Hr : (k mod 1024 < 1024)%N) by (apply N.mod_lt; lia).
    cbn [app hex4].
    rewrite (scanstring_u _ _ _ _ (55296 + k / 1024)%N)
      by (apply hex4_value_hex4; lia).
    rewrite (lookahead_escape_u _ _ _ _ _ (56320 + k mod 1024)%N);
      [| unfold is_high_surrogate; ncases | apply hex4_value_hex4; lia | exact HT].
    replace (is_low_surrogate (56320 + k mod 1024)) with true
      by (unfold is_low_surrogate; ncases).
    rewrite join_surrogates_halves by assumption.
    replace (65536 + k / 1024 * 1024 + k mod 1024)%N with c; [reflexivity |].
    pose proof (N.div_mod k 1024 ltac:(lia)). unfold k in *. lia.
  - cbn [app hex4]. rewrite (scanstring_u _ _ _ _ c) by (apply hex4_value_hex4; lia).
    rewrite lookahead_not_high by exact Hh. reflexivity.
  - exfalso. lia.
Qed.

(** Past the escape of a high surrogate, the scanner joins exactly the
    escape of a low surrogate. *)
Lemma lookahead_escape_char (uni d : N) (T : pystr) :
  is_high_surrogate uni = true -> valid_char d -> T <> [] ->
  lookahead uni (escape_char d ++ T)
  = if is_low_surrogate d then LJoin d T else LNone.
Proof.
  unfold valid_char. intros Hh Hv HT.
  escape_cases d;
    try (cbn [app]; rewrite lookahead_not_u by discriminate; reflexivity).
  - cbn [app]. rewrite lookahead_not_backslash by assumption.
    unfold is_low_surrogate; ncases.
  - cbn [app hex4].
    rewrite (lookahead_escape_u _ _ _ _ _ d);
      [reflexivity | exact Hh | apply hex4_value_hex4; lia | exact HT].
  - cbv zeta.
    destruct (surrogate_halves d ltac:(lia)) as [E1 [E2 Hq]].
    cbv zeta in E1, E2. rewrite E1, E2.
    set (k := (d - 65536)%N) in *.
    cbn [app hex4].
    rewrite (lookahead_escape_u _ _ _ _ _ (55296 + k / 1024)%N);
      [| exact Hh | apply hex4_value_hex4; lia | discriminate].
    replace (is_low_surrogate (55296 + k / 1024)) with false
      by (unfold is_low_surrogate; ncases).
    unfold is_low_surrogate; ncases.
  - cbn [app hex4].
    rewrite (lookahead_escape_u _ _ _ _ _ d);
      [reflexivity | exact Hh | apply hex4_value_hex4; lia | exact HT].
  - exfalso. lia.
Qed.

Lemma join_pairs_not_high (c : N) (s : pystr) :
  is_high_surrogate c = false -> join_pairs (c :: s) = c :: join_pairs s.
Proof.
  intros H. destruct s as [| d s]; [reflexivity |].
  cbn [join_pairs]. rewrite H. reflexivity.
Qed.

(** Scanning what [encode_basestring_ascii] wrote between the quotes gives
    the string back, with its surrogate pairs joined. *)
Lemma scanstring_escaped (n : nat) :
  forall (s rest : pystr),
    (length s <= n)%nat -> valid_str s ->
    scanstring (flat_map escape_char s ++ 34%N :: rest)
    = Ok (join_pairs s, rest).
Proof.
  induction n as [| n IH]; intros s rest Hlen Hv.
  - destruct s; [reflexivity | simpl in Hlen; lia].
  - destruct s as [| c s]; [reflexivity |].
    inversion Hv as [| c' s' Hc Hs]; subst.
    cbn [flat_map]. rewrite <- app_assoc.
    pose proof (escaped_tail_nonempty s rest) as HT.
    destruct (is_high_surrogate c) eqn:Hh.
    + (* the escape of a high surrogate: [\uXXXX] *)
      assert (Hesc : escape_char c = (92 :: 117 :: hex4 c)%N).
      { unfold is_high_surrogate in Hh. unfold escape_char.
        apply andb_prop in Hh as [H1 H2].
        apply N.leb_le in H1. apply N.leb_le in H2.
        ncases. }
      assert (Hlt : (c < 65536)%N).
      { unfold is_high_surrogate in Hh. apply andb_prop in Hh as [_ H2].
        apply N.leb_le in H2. lia. }
      rewrite Hesc. cbn [app hex4].
      rewrite (scanstring_u _ _ _ _ c) by (apply hex4_value_hex4; exact Hlt).
      destruct s as [| d s].
      * cbn [flat_map app]. rewrite lookahead_not_backslash by discriminate.
        reflexivity.
      * inversion Hs as [| d' s'' Hd Hs']; subst.
        cbn [flat_map]. rewrite <- app_assoc.
        rewrite lookahead_escape_char
          by (try assumption; apply escaped_tail_nonempty).
        cbn [join_pairs]. rewrite Hh. cbn [andb].
        destruct (is_low_surrogate d).
        -- rewrite IH by (try assumption; simpl in *; lia). reflexivity.
        -- rewrite app_assoc.
           change (escape_char d ++ flat_map escape_char s)
             with (flat_map escape_char (d :: s)).
           rewrite IH by (try assumption; simpl in *; lia). reflexivity.
    + rewrite scanstring_escape_char by assumption.
      rewrite IH by (try assumption; simpl in *; lia).
      rewrite join_pairs_not_high by exact Hh. reflexivity.
Qed.

Lemma encode_then_scan (s rest : pystr) :
  valid_str s ->
  exists body,
    encode_basestring_ascii s ++ rest = 34%N :: body
    /\ scanstring body = Ok (join_pairs s, rest).
Proof.
  intros Hv. unfold encode_basestring_ascii.
  exists (flat_map escape_char s ++ 34%N :: rest). split.
  - cbn [app]. rewrite <- app_assoc. reflexivity.
  - apply (scanstring_escaped (length s)); [lia | exact Hv].
Qed.

Lemma join_pairs_pair_free (s : pystr) :
  pair_free s = true -> join_pairs s = s.
Proof.
  induction s as [| c s IH]; [reflexivity |].
  destruct s as [| d s]; [reflexivity |].
  cbn [pair_free join_pairs]. intros H.
  apply andb_prop in H as [H1 H2].
  apply negb_true_iff in H1. rewrite H1.
  f_equal. apply IH. exact H2.
Qed.

(** ** [json]: integers *)

Lemma int_of_digits_fold (ds : pystr) :
  int_of_digits ds = fold_left digit_step ds 0%N.
Proof. reflexivity. Qed.

Lemma pow2_succ_nat (f : nat) : (2 ^ N.of_nat (S f) = 2 * 2 ^ N.of_nat f)%N.
Proof. rewrite Nat2N.inj_succ, N.pow_succ_r'. reflexivity. Qed.

Lemma digits_of_value (fuel : nat) :
  forall (n : N) (acc : pystr),
    (n < 2 ^ N.of_nat fuel)%N ->
    fold_left digit_step (digits_of fuel n acc) 0%N
    = fold_left digit_step acc n.
Proof.
  induction fuel as [| f IH]; intros n acc Hn.
  - simpl in Hn. assert (n = 0%N) by lia. subst. reflexivity.
  - rewrite pow2_succ_nat in Hn. cbn [digits_of].
    destruct (N.ltb_spec n 10) as [Hlt | Hge].
    + cbn [fold_left]. f_equal. unfold digit_step. lia.
    + rewrite IH by lia. cbn [fold_left]. f_equal. unfold digit_step. lia.
Qed.

Lemma digits_of_shape (fuel : nat) :
  forall (n : N) (acc : pystr),
    (0 < n < 2 ^ N.of_nat fuel)%N ->
    exists c ds,
      digits_of fuel n acc = c :: ds ++ acc
      /\ (49 <= c <= 57)%N
      /\ Forall (fun d => is_digit d = true) ds.
Proof.
  induction fuel as [| f IH]; intros n acc Hn.
  - simpl in Hn. lia.
  - rewrite pow2_succ_nat in Hn. cbn [digits_of].
    destruct (N.ltb_spec n 10) as [Hlt | Hge].
    + exists (48 + n mod 10)%N, []. split; [reflexivity |].
      split; [lia | constructor].
    + destruct (IH (n / 10)%N ((48 + n mod 10)%N :: acc) ltac:(lia))
        as [c [ds [E [Hc Hds]]]].
      exists c, (ds ++ [(48 + n mod 10)%N]). split.
      * rewrite E, <- app_assoc. reflexivity.
      * split; [exact Hc |]. apply Forall_app. split; [exact Hds |].
        constructor; [| constructor]. unfold is_digit. ncases.
Qed.

Lemma log2_fuel (n : N) : (n < 2 ^ N.of_nat (S (N.to_nat (N.log2 n))))%N.
Proof.
  rewrite Nat2N.inj_succ, N2Nat.id.
  destruct (N.eq_dec n 0) as [-> | Hn]; [reflexivity |].
  apply N.log2_spec. lia.
Qed.

Lemma scan_digits_app (ds rest : pystr) :
  Forall (fun d => is_digit d = true) ds ->
  starts_with_digit rest = false ->
  scan_digits (ds ++ rest) = (ds, rest).
Proof.
  intros Hds Hrest. induction Hds as [| d ds Hd _ IH].
  - destruct rest as [| c r]; [reflexivity |].
    simpl in *. rewrite Hrest. reflexivity.
  - cbn [app scan_digits]. rewrite Hd, IH. reflexivity.
Qed.

Lemma value_end_not_number (rest : pystr) :
  value_end rest -> starts_with_digit rest = false /\ is_float_tail rest = false.
Proof.
  destruct rest as [| c r]; [split; reflexivity |].
  intros [-> | [-> | ->]]; split; reflexivity.
Qed.

(** Reading back the decimal digits of a natural number. *)
Lemma match_integer_repr_nat (n : N) (rest : pystr) :
  value_end rest ->
  exists ds c tl,
    repr_nat n = ds /\ ds = c :: tl /\ is_digit c = true
    /\ match_integer (ds ++ rest) = Ok (ds, rest)
    /\ int_of_digits ds = n.
Proof.
  intros Hend. apply value_end_not_number in Hend as [Hd _].
  unfold repr_nat. pose proof (log2_fuel n) as Hfuel.
  set (f := N.to_nat (N.log2 n)) in *. clearbody f.
  assert (Hval : int_of_digits (digits_of (S f) n []) = n)
    by (rewrite int_of_digits_fold, digits_of_value by exact Hfuel; reflexivity).
  destruct (N.eq_dec n 0) as [-> | Hn].
  - exists [48%N], 48%N, []. repeat split; try reflexivity.
  - destruct (digits_of_shape (S f) n [] ltac:(lia)) as [c [ds [E [Hc Hds]]]].
    rewrite app_nil_r in E. rewrite E in *.
    exists (c :: ds), c, ds.
    assert (Hcd : is_digit c = true) by (unfold is_digit; ncases).
    repeat split; try assumption.
    unfold match_integer. cbn [app].
    destruct (N.eqb_spec c 48); [lia |]. rewrite Hcd.
    change (c :: ds ++ rest) with ((c :: ds) ++ rest).
    rewrite scan_digits_app; [reflexivity | | exact Hd].
    constructor; assumption.
Qed.

Lemma match_number_repr_int (z : Z) (rest : pystr) :
  value_end rest ->
  match_number (repr_int z ++ rest) = Ok (PInt z, rest).
Proof.
  intros Hend. pose proof (value_end_not_number rest Hend) as [_ Hf].
  unfold repr_int. destruct (Z.ltb_spec z 0) as [Hneg | Hpos].
  - destruct (match_integer_repr_nat (Z.to_N (- z)) rest Hend)
      as [ds [c [tl [E [Eds [Hc [Hm Hv]]]]]]].
    rewrite E. unfold match_number. cbn [app].
    rewrite N.eqb_refl, Hm. cbn [bind]. rewrite Hf, Hv.
    repeat f_equal. lia.
  - destruct (match_integer_repr_nat (Z.to_N z) rest Hend)
      as [ds [c [tl [E [Eds [Hc [Hm Hv]]]]]]].
    rewrite E. unfold match_number. clear E.
    rewrite Eds in Hm, Hv |- *. cbn [app] in Hm |- *.
    destruct (N.eqb_spec c 45) as [-> | _]; [discriminate |].
    rewrite Hm. cbn [bind]. rewrite Hf, Hv.
    repeat f_equal. lia.
Qed.

Lemma repr_int_head (z : Z) :
  exists c tl, repr_int z = c :: tl
               /\ (c = 45%N \/ is_digit c = true)
               /\ (c = 45%N -> exists d tl', tl = d :: tl' /\ is_digit d = true).
Proof.
  unfold repr_int. destruct (Z.ltb_spec z 0) as [Hneg | Hpos].
  - destruct (match_integer_repr_nat (Z.to_N (- z)) [] I)
      as [ds [c [tl [E [Eds [Hc _]]]]]].
    exists 45%N, ds. split; [rewrite E; reflexivity |].
    split; [left; reflexivity |]. intros _. exists c, tl. split; assumption.
  - destruct (match_integer_repr_nat (Z.to_N z) [] I)
      as [ds [c [tl [E [Eds [Hc _]]]]]].
    exists c, tl. split; [rewrite E; exact Eds |].
    split; [right; exact Hc |]. intros ->. discriminate.
Qed.

(** ** [json]: values *)

Section pyval_induction.
Variable P : pyval -> Prop.
Hypothesis HNone : P PNone.
Hypothesis HBool : forall b, P (PBool b).
Hypothesis HInt : forall z, P (PInt z).
Hypothesis HStr : forall s, P (PStr s).
Hypothesis HList : forall l, Forall P l -> P (PList l).
Hypothesis HDict : forall d, Forall (fun kv => P (snd kv)) d -> P (PDict d).

Fixpoint pyval_induction (v : pyval) : P v :=
  match v with
  | PNone => HNone
  | PBool b => HBool b
  | PInt z => HInt z
  | PStr s => HStr s
  | PList l =>
      HList l
        ((fix go (l : list pyval) : Forall P l :=
            match l with
            | [] => Forall_nil P
            | x :: l' => Forall_cons x (pyval_induction x) (go l')
            end) l)
  | PDict d =>
      HDict d
        ((fix go (d : list (pystr * pyval)) : Forall (fun kv => P (snd kv)) d :=
            match d with
            | [] => Forall_nil _
            | (k, x) :: d' =>
                Forall_cons (P := fun kv => P (snd kv)) (k, x)
                            (pyval_induction x) (go d')
            end) d)
  end.
End pyval_induction.

Lemma valid_val_list (l : list pyval) :
  valid_val (PList l) <-> Forall valid_val l.
Proof.
  induction l as [| x l IH]; cbn [valid_val].
  - split; [constructor | trivial].
  - split.
    + intros [Hx Hl]. constructor; [exact Hx | apply IH; exact Hl].
    + intros H. inversion H; subst. split; [assumption | apply IH; assumption].
Qed.

Lemma valid_val_dict (d : list (pystr * pyval)) :
  valid_val (PDict d)
  <-> Forall (fun kv => valid_str (fst kv) /\ valid_val (snd kv)) d.
Proof.
  induction d as [| kv d IH]; cbn [valid_val].
  - split; [constructor | trivial].
  - split.
    + intros [Hk [Hx Hd]]. constructor; [split; assumption | apply IH; exact Hd].
    + intros H. inversion H as [| ? ? [Hk Hx] Hd]; subst.
      split; [assumption |]. split; [assumption | apply IH; assumption].
Qed.

Lemma json_dumps_head (v : pyval) : value_head (json_dumps v).
Proof.
  unfold value_head. destruct v as [| [|] | z | s | l | d]; cbn [json_dumps].
  - eexists _, _. repeat split; discriminate.
  - eexists _, _. repeat split; discriminate.
  - eexists _, _. repeat split; discriminate.
  - destruct (repr_int_head z) as [c [tl [E [Hc _]]]].
    exists c, tl. split; [exact E |].
    destruct Hc as [-> | Hc]; [repeat split; discriminate |].
    unfold is_digit in Hc. apply andb_prop in Hc as [H1 H2].
    apply N.leb_le in H1. apply N.leb_le in H2.
    unfold is_json_ws. repeat split; ncases.
  - eexists _, _. unfold encode_basestring_ascii. repeat split; discriminate.
  - eexists _, _. repeat split; discriminate.
  - eexists _, _. repeat split; discriminate.
Qed.

Lemma value_head_app (s t : pystr) : value_head s -> value_head (s ++ t).
Proof.
  intros [c [r [-> H]]]. exists c, (r ++ t). split; [reflexivity | exact H].
Qed.

Lemma skip_ws_value_head (s : pystr) : value_head s -> skip_ws s = s.
Proof.
  intros [c [r [-> [H _]]]]. cbn [skip_ws]. rewrite H. reflexivity.
Qed.

Lemma join_head (sep : pystr) (p : pystr) (ps : list pystr) :
  value_head p -> value_head (join sep (p :: ps)).
Proof.
  intros H. destruct ps as [| q ps]; cbn [join]; [exact H |].
  apply value_head_app. exact H.
Qed.

(** *** Scalars *)

Lemma scan_once_string (fuel : nat) (body : pystr) :
  scan_once (S fuel) (34%N :: body)
  = '(x, rest) <- scanstring body ;; Ok (PStr x, rest).
Proof. reflexivity. Qed.

Lemma scan_once_number (fuel : nat) (c : N) (tl : pystr) :
  is_digit c = true
  \/ (c = 45%N /\ exists d tl', tl = d :: tl' /\ is_digit d = true) ->
  scan_once (S fuel) (c :: tl) = match_number (c :: tl).
Proof.
  intros H. cbn [scan_once].
  change (str "null") with [110; 117; 108; 108]%N.
  change (str "true") with [116; 114; 117; 101]%N.
  change (str "false") with [102; 97; 108; 115; 101]%N.
  change (str "NaN") with [78; 97; 78]%N.
  change (str "Infinity") with [73; 110; 102; 105; 110; 105; 116; 121]%N.
  change (str "-Infinity") with [45; 73; 110; 102; 105; 110; 105; 116; 121]%N.
  destruct H as [Hc | [-> [d [tl' [-> Hd]]]]].
  - unfold is_digit in Hc. apply andb_prop in Hc as [H1 H2].
    apply N.leb_le in H1. apply N.leb_le in H2.
    cbn [strip_prefix]. neqb. reflexivity.
  - unfold is_digit in Hd. apply andb_prop in Hd as [H1 H2].
    apply N.leb_le in H1. apply N.leb_le in H2.
    cbn [strip_prefix]. neqb. reflexivity.
Qed.

Lemma scan_once_int (fuel : nat) (z : Z) (rest : pystr) :
  value_end rest ->
  scan_once (S fuel) (repr_int z ++ rest) = Ok (PInt z, rest).
Proof.
  intros Hend. rewrite <- (match_number_repr_int z rest Hend).
  destruct (repr_int_head z) as [c [tl [E [Hc Hm]]]].
  rewrite E. cbn [app]. apply scan_once_number.
  destruct Hc as [-> | Hc]; [right | left; exact Hc].
  split; [reflexivity |].
  destruct (Hm eq_refl) as [d [tl' [-> Hd]]].
  exists d, (tl' ++ rest). split; [reflexivity | exact Hd].
Qed.

(** *** Arrays and objects *)

Lemma join_cons2 (sep p q : pystr) (ps : list pystr) :
  join sep (p :: q :: ps) = p ++ sep ++ join sep (q :: ps).
Proof. reflexivity. Qed.

Lemma parse_array_items (l : list pyval) :
  Forall scans_back l -> Forall valid_val l -> l <> [] ->
  forall (fuel : nat) (acc : list pyval) (rest : pystr),
    (items_cost l <= fuel)%nat ->
    parse_array fuel acc (join [44; 32]%N (map json_dumps l) ++ 93%N :: rest)
    = Ok (PList (rev acc ++ map json_norm l), rest).
Proof.
  induction l as [| x l IH]; intros HP Hv Hne fuel acc rest Hfuel;
    [contradiction |].
  inversion HP as [| ? ? Hx HPl]; subst.
  inversion Hv as [| ? ? Hvx Hvl]; subst.
  cbn [items_cost fold_right] in Hfuel.
  change (fold_right (fun x n => S (scan_cost x + n)) O l)
    with (items_cost l) in Hfuel.
  destruct fuel as [| f]; [lia |].
  cbn [parse_array]. destruct l as [| y l].
  - cbn [map join].
    rewrite (Hx Hvx f (93%N :: rest)) by (try lia; right; left; reflexivity).
    cbn. reflexivity.
  - change (map json_dumps (x :: y :: l))
      with (json_dumps x :: json_dumps y :: map json_dumps l).
    rewrite join_cons2, <- !app_assoc. cbn [app].
    rewrite (Hx Hvx f) by (try lia; left; reflexivity).
    cbn [bind skip_ws is_json_ws N.eqb Pos.eqb orb].
    rewrite skip_ws_value_head
      by (apply value_head_app, (join_head _ (json_dumps y)), json_dumps_head).
    change (json_dumps y :: map json_dumps l) with (map json_dumps (y :: l)).
    rewrite IH by (try assumption; try discriminate; lia).
    cbn [rev map]. rewrite <- app_assoc. reflexivity.
Qed.

Lemma parse_object_members (d : list (pystr * pyval)) :
  Forall (fun kv => scans_back (snd kv)) d ->
  Forall (fun kv => valid_str (fst kv) /\ valid_val (snd kv)) d ->
  d <> [] ->
  forall (fuel : nat) (acc : list (pystr * pyval)) (rest : pystr),
    (members_cost d <= fuel)%nat ->
    parse_object fuel acc (join [44; 32]%N (map dump_member d) ++ 125%N :: rest)
    = Ok (PDict (fold_left norm_member d acc), rest).
Proof.
  induction d as [| kv d IH]; intros HP Hv Hne fuel acc rest Hfuel;
    [contradiction |].
  inversion HP as [| ? ? Hx HPd]; subst.
  inversion Hv as [| ? ? [Hvk Hvx] Hvd]; subst.
  cbn [members_cost fold_right] in Hfuel.
  change (fold_right (fun kv n => S (scan_cost (snd kv) + n)) O d)
    with (members_cost d) in Hfuel.
  destruct fuel as [| f]; [lia |].
  assert (Hstep : forall tail,
            value_end tail ->
            parse_object (S f) acc (dump_member kv ++ tail)
            = match skip_ws tail with
              | [] => Raise JSONDecodeError
              | c' :: r4 =>
                  if (c' =? 125)%N then Ok (PDict (norm_member acc kv), r4)
                  else if (c' =? 44)%N then
                    parse_object f (norm_member acc kv) (skip_ws r4)
                  else Raise JSONDecodeError
              end).
  { intros tail Hend. unfold dump_member. rewrite <- !app_assoc.
    destruct (encode_then_scan (fst kv) ([58; 32]%N ++ json_dumps (snd kv) ++ tail) Hvk)
      as [body [E Hscan]].
    rewrite E. cbn [parse_object N.eqb Pos.eqb negb]. rewrite Hscan.
    cbn [bind app skip_ws is_json_ws N.eqb Pos.eqb orb negb].
    rewrite skip_ws_value_head by (apply value_head_app, json_dumps_head).
    rewrite (Hx Hvx f tail) by (try lia; exact Hend).
    reflexivity. }
  destruct d as [| kv' d].
  - cbn [map join fold_left]. rewrite Hstep by (right; right; reflexivity).
    cbn. reflexivity.
  - change (map dump_member (kv :: kv' :: d))
      with (dump_member kv :: dump_member kv' :: map dump_member d).
    rewrite join_cons2, <- !app_assoc. cbn [app].
    rewrite Hstep by (left; reflexivity).
    cbn [skip_ws is_json_ws N.eqb Pos.eqb orb].
    assert (Hhead : value_head (dump_member kv')).
    { unfold dump_member, encode_basestring_ascii. eexists _, _.
      cbn [app]. repeat split; discriminate. }
    rewrite skip_ws_value_head
      by (apply value_head_app, (join_head _ (dump_member kv')), Hhead).
    change (dump_member kv' :: map dump_member d) with (map dump_member (kv' :: d)).
    rewrite IH by (try assumption; try discriminate; lia).
    reflexivity.
Qed.

Lemma json_dumps_dict (d : list (pystr * pyval)) :
  json_dumps (PDict d)
  = 123%N :: join [44; 32]%N (map dump_member d) ++ [125%N].
Proof. reflexivity. Qed.

Lemma json_norm_dict (d : list (pystr * pyval)) :
  json_norm (PDict d) = PDict (fold_left norm_member d []).
Proof. reflexivity. Qed.

(** Scanning the text written for a value gives the normal form of the
    value and stops right after it. *)
Lemma scan_once_json_dumps (v : pyval) : scans_back v.
Proof.
  induction v as [| b | z | s | l IH | d IH] using pyval_induction;
    intros Hv fuel rest Hfuel Hend;
    (destruct fuel as [| f]; [cbn [scan_cost] in Hfuel; lia |]).
  - reflexivity.
  - destruct b; reflexivity.
  - apply scan_once_int. exact Hend.
  - cbn [json_dumps json_norm].
    destruct (encode_then_scan s rest Hv) as [body [E Hscan]].
    rewrite E, scan_once_string, Hscan. reflexivity.
  - cbn [json_dumps json_norm]. apply valid_val_list in Hv.
    destruct l as [| x l].
    + reflexivity.
    + cbn [app]. rewrite <- app_assoc. cbn [app scan_once N.eqb Pos.eqb].
      assert (Hhead : value_head (join [44; 32]%N (map json_dumps (x :: l))
                                  ++ 93%N :: rest))
        by (apply value_head_app, (join_head _ (json_dumps x)), json_dumps_head).
      rewrite (skip_ws_value_head _ Hhead).
      pose proof (parse_array_items (x :: l) IH Hv ltac:(discriminate) f [] rest)
        as Hloop.
      destruct Hhead as [c [t [E [_ [Hc _]]]]]. rewrite E in *.
      destruct (N.eqb_spec c 93); [contradiction |].
      apply Hloop. cbn [scan_cost] in Hfuel. unfold items_cost. lia.
  - rewrite json_dumps_dict, json_norm_dict. apply valid_val_dict in Hv.
    destruct d as [| kv d].
    + reflexivity.
    + cbn [app]. rewrite <- app_assoc. cbn [app scan_once N.eqb Pos.eqb].
      assert (Hhead : value_head (join [44; 32]%N (map dump_member (kv :: d))
                                  ++ 125%N :: rest)).
      { apply value_head_app, (join_head _ (dump_member kv)).
        unfold dump_member, encode_basestring_ascii. eexists _, _.
        cbn [app]. repeat split; discriminate. }
      rewrite (skip_ws_value_head _ Hhead).
      pose proof (parse_object_members (kv :: d) IH Hv ltac:(discriminate) f [] rest)
        as Hloop.
      destruct Hhead as [c [t [E [_ [_ Hc]]]]]. rewrite E in *.
      destruct (N.eqb_spec c 125); [contradiction |].
      apply Hloop. cbn [scan_cost] in Hfuel. unfold members_cost. lia.
Qed.

(** *** The fuel [json_loads] gives the scanner is enough *)

Lemma json_dumps_length_pos (v : pyval) : (1 <= length (json_dumps v))%nat.
Proof.
  destruct (json_dumps_head v) as [c [t [E _]]]. rewrite E. simpl. lia.
Qed.

Lemma join_length_bound (f : pyval -> nat) (g : pyval -> pystr) (l : list pyval) :
  Forall (fun x => (f x <= length (g x))%nat) l ->
  (fold_right (fun x n => S (f x + n)) O l
   <= length (join [44; 32]%N (map g l)) + 1)%nat.
Proof.
  induction l as [| x l IH]; intros H; [simpl; lia |].
  inversion H as [| ? ? Hx Hl]; subst. specialize (IH Hl).
  destruct l as [| y l].
  - simpl. lia.
  - change (map g (x :: y :: l)) with (g x :: g y :: map g l).
    rewrite join_cons2, !length_app. cbn [fold_right length] in *.
    change (g y :: map g l) with (map g (y :: l)). lia.
Qed.

Lemma join_members_length_bound (d : list (pystr * pyval)) :
  Forall (fun kv => (scan_cost (snd kv) <= length (json_dumps (snd kv)))%nat) d ->
  (members_cost d <= length (join [44; 32]%N (map dump_member d)) + 1)%nat.
Proof.
  induction d as [| kv d IH]; intros H; [simpl; lia |].
  inversion H as [| ? ? Hx Hd]; subst. specialize (IH Hd).
  assert (Hm : (scan_cost (snd kv) <= length (dump_member kv))%nat)
    by (unfold dump_member; rewrite !length_app; lia).
  destruct d as [| kv' d].
  - cbn [members_cost fold_right map join]. lia.
  - change (map dump_member (kv :: kv' :: d))
      with (dump_member kv :: dump_member kv' :: map dump_member d).
    rewrite join_cons2, !length_app.
    cbn [members_cost fold_right length] in *.
    change (dump_member kv' :: map dump_member d)
      with (map dump_member (kv' :: d)). lia.
Qed.

Lemma scan_cost_le_length (v : pyval) :
  (scan_cost v <= length (json_dumps v))%nat.
Proof.
  induction v as [| b | z | s | l IH | d IH] using pyval_induction;
    try (apply json_dumps_length_pos).
  - cbn [scan_cost json_dumps length]. rewrite length_app.
    pose proof (join_length_bound scan_cost json_dumps l IH). simpl. lia.
  - rewrite json_dumps_dict. cbn [scan_cost length]. rewrite length_app.
    pose proof (join_members_length_bound d IH) as H.
    unfold members_cost in H.
    simpl. lia.
Qed.

(** The round trip: [json.loads] reads the text [json.dumps] wrote for a
    value, and returns its normal form. *)
Lemma json_loads_dumps (v : pyval) :
  valid_val v -> json_loads (json_dumps v) = Ok (json_norm v).
Proof.
  intros Hv. unfold json_loads.
  rewrite skip_ws_value_head by apply json_dumps_head.
  rewrite <- (app_nil_r (json_dumps v)) at 2.
  rewrite (scan_once_json_dumps v Hv); [reflexivity | | exact I].
  pose proof (scan_cost_le_length v). lia.
Qed.

(** *** Values the round trip leaves unchanged *)

Lemma pystr_eqb_neq (a b : pystr) : a <> b -> pystr_eqb a b = false.
Proof.
  unfold pystr_eqb. destruct (list_eq_dec N.eq_dec a b); congruence.
Qed.

Lemma dict_set_fresh (d : list (pystr * pyval)) (k : pystr) (v : pyval) :
  ~ In k (map fst d) -> dict_set d k v = d ++ [(k, v)].
Proof.
  induction d as [| [k' v'] d IH]; intros H; [reflexivity |].
  cbn [dict_set]. cbn [map fst In] in H.
  rewrite pystr_eqb_neq by (intros ->; apply H; left; reflexivity).
  rewrite IH by (intros Hin; apply H; right; exact Hin). reflexivity.
Qed.

Lemma fold_norm_member_stable (d : list (pystr * pyval)) :
  Forall (fun kv => join_pairs (fst kv) = fst kv
                    /\ json_norm (snd kv) = snd kv) d ->
  forall acc, NoDup (map fst (acc ++ d)) ->
              fold_left norm_member d acc = acc ++ d.
Proof.
  induction 1 as [| [k v] d [Hk Hv] _ IH]; intros acc Hnd.
  - rewrite app_nil_r. reflexivity.
  - cbn [fold_left]. unfold norm_member at 2. cbn [fst snd] in *.
    rewrite Hk, Hv.
    rewrite map_app in Hnd. cbn [map fst] in Hnd.
    pose proof (NoDup_remove_2 _ _ _ Hnd) as Hfresh.
    rewrite dict_set_fresh by (intros Hin; apply Hfresh, in_or_app; left; exact Hin).
    rewrite IH.
    + rewrite <- app_assoc. reflexivity.
    + rewrite <- app_assoc, map_app. exact Hnd.
Qed.

Lemma stable_val_list (l : list pyval) :
  stable_val (PList l) <-> Forall stable_val l.
Proof.
  induction l as [| x l IH]; cbn [stable_val].
  - split; [constructor | trivial].
  - split.
    + intros [Hx Hl]. constructor; [exact Hx | apply IH; exact Hl].
    + intros H. inversion H; subst. split; [assumption | apply IH; assumption].
Qed.

Lemma stable_val_dict (d : list (pystr * pyval)) :
  stable_val (PDict d)
  <-> NoDup (map fst d)
      /\ Forall (fun kv => pair_free (fst kv) = true /\ stable_val (snd kv)) d.
Proof.
  cbn [stable_val]. apply and_iff_compat_l.
  induction d as [| kv d IH].
  - split; [constructor | trivial].
  - split.
    + intros [Hk [Hx Hd]]. constructor; [split; assumption | apply IH; exact Hd].
    + intros H. inversion H as [| ? ? [Hk Hx] Hd]; subst.
      split; [assumption |]. split; [assumption | apply IH; assumption].
Qed.

Lemma json_norm_stable (v : pyval) : stable_val v -> json_norm v = v.
Proof.
  induction v as [| b | z | s | l IH | d IH] using pyval_induction;
    intros Hs; try reflexivity.
  - cbn [json_norm]. f_equal. apply join_pairs_pair_free. exact Hs.
  - cbn [json_norm]. f_equal. apply stable_val_list in Hs.
    induction l as [| x l IHl]; [reflexivity |].
    inversion IH; inversion Hs; subst. cbn [map]. f_equal; auto.
  - rewrite json_norm_dict. apply stable_val_dict in Hs as [Hnd Hs].
    f_equal. rewrite fold_norm_member_stable; [reflexivity | | exact Hnd].
    clear Hnd. induction d as [| kv d IHd]; [constructor |].
    inversion IH; inversion Hs as [| ? ? [Hk Hx] Hd]; subst.
    constructor; [| auto].
    split; [apply join_pairs_pair_free; exact Hk | auto].
Qed.

(** The round trip is the identity on the values it leaves stable. *)
Lemma json_loads_dumps_stable (v : pyval) :
  valid_val v -> stable_val v -> json_loads (json_dumps v) = Ok v.
Proof.
  intros Hv Hs. rewrite json_loads_dumps by exact Hv.
  rewrite json_norm_stable by exact Hs. reflexivity.
Qed.

(** ** [json.loads]: the scanner never runs out of fuel

    The bound on nested calls that [json_loads] gives the scanner is never
    reached: [RecursionError] is not an outcome of the model. *)

Lemma skip_ws_length (s : pystr) : (length (skip_ws s) <= length s)%nat.
Proof.
  induction s as [| c s IH]; cbn [skip_ws]; [lia |].
  destruct (is_json_ws c); cbn [length]; lia.
Qed.

Lemma lookahead_join_length (uni lo : N) (r2 r3 : pystr) :
  lookahead uni r2 = LJoin lo r3 -> (length r3 < length r2)%nat.
Proof.
  unfold lookahead.
  destruct r2 as [| b [| u [| l1 [| l2 [| l3 [| l4 [| x r4]]]]]]];
    try discriminate.
  destruct (is_high_surrogate uni && (b =? 92)%N && (u =? 117)%N);
    [| discriminate].
  destruct (hex4_value l1 l2 l3 l4) as [uni2 |]; [| discriminate].
  destruct (is_low_surrogate uni2); [| discriminate].
  intros H. injection H as _ <-. cbn [length]. lia.
Qed.

Lemma scanstring_outcome (n : nat) :
  forall s, (length s <= n)%nat ->
    match scanstring s with
    | Ok (_, r) => (length r < length s)%nat
    | Raise e => e = JSONDecodeError
    end.
Proof.
  induction n as [| n IH]; intros s Hlen.
  - destruct s; [reflexivity | cbn [length] in Hlen; lia].
  - destruct s as [| c r0]; [reflexivity |].
    cbn [length] in Hlen.
    assert (Hrec : forall c' t,
              (length t <= n)%nat ->
              match cons_char c' (scanstring t) with
              | Ok (_, r) => (length r < S (length t))%nat
              | Raise e => e = JSONDecodeError
              end).
    { intros c' t Ht. specialize (IH t Ht). unfold cons_char.
      destruct (scanstring t) as [[x r] | e]; cbn [bind]; [lia | exact IH]. }
    destruct (N.eqb_spec c 34) as [-> | Hq].
    { cbn [scanstring N.eqb Pos.eqb length]. lia. }
    destruct (N.eqb_spec c 92) as [-> | Hb].
    + destruct r0 as [| e r1]; [reflexivity |].
      destruct (N.eqb_spec e 117) as [-> | Hu].
      * destruct r1 as [| h1 [| h2 [| h3 [| h4 r2]]]]; try reflexivity.
        destruct (hex4_value h1 h2 h3 h4) as [uni |] eqn:Hhex.
        -- rewrite (scanstring_u _ _ _ _ uni) by exact Hhex.
           cbn [length] in *.
           destruct (lookahead uni r2) as [| lo r3 |] eqn:Hl; [| | reflexivity].
           ++ pose proof (Hrec uni r2 ltac:(lia)) as H.
              destruct (cons_char uni (scanstring r2)) as [[x r] | e];
                [lia | exact H].
           ++ apply lookahead_join_length in Hl.
              pose proof (Hrec (join_surrogates uni lo) r3 ltac:(lia)) as H.
              destruct (cons_char _ (scanstring r3)) as [[x r] | e];
                [lia | exact H].
        -- cbn [scanstring N.eqb Pos.eqb]. rewrite Hhex. reflexivity.
      * cbn [scanstring N.eqb Pos.eqb].
        destruct (N.eqb_spec e 117); [contradiction |].
        destruct (backslash e) as [ch |]; [| reflexivity].
        cbn [length] in *.
        pose proof (Hrec ch r1 ltac:(lia)) as H.
        destruct (cons_char ch (scanstring r1)) as [[x r] | e'];
          [lia | exact H].
    + cbn [scanstring].
      destruct (N.eqb_spec c 34); [contradiction |].
      destruct (N.eqb_spec c 92); [contradiction |].
      destruct (c <? 32)%N; [reflexivity |].
      pose proof (Hrec c r0 ltac:(lia)) as H. cbn [length].
      destruct (cons_char c (scanstring r0)) as [[x r] | e]; [lia | exact H].
Qed.

Lemma scan_digits_length (s : pystr) :
  (length (snd (scan_digits s)) <= length s)%nat.
Proof.
  induction s as [| c s IH]; cbn [scan_digits]; [cbn; lia |].
  destruct (is_digit c); [| cbn [snd length]; lia].
  destruct (scan_digits s) as [ds rest]. cbn [snd length] in *. lia.
Qed.

Lemma match_number_outcome (s : pystr) :
  match match_number s with
  | Ok (_, r) => (length r < length s)%nat
  | Raise e => e <> RecursionError
  end.
Proof.
  assert (Hint : forall t,
            match match_integer t with
            | Ok (_, r) => (length r < length t)%nat
            | Raise e => e = JSONDecodeError
            end).
  { intros [| c r]; [reflexivity |]. unfold match_integer.
    destruct (c =? 48)%N; [cbn [length]; lia |].
    destruct (is_digit c) eqn:Hd; [| reflexivity].
    cbn [scan_digits]. rewrite Hd.
    pose proof (scan_digits_length r) as H.
    destruct (scan_digits r) as [ds rest]. cbn [snd length] in *. lia. }
  unfold match_number.
  destruct s as [| c r].
  - cbn [match_integer bind]. discriminate.
  - destruct (c =? 45)%N.
    + specialize (Hint r).
      destruct (match_integer r) as [[ds rest] | e]; cbn [bind];
        [| subst e; discriminate].
      destruct (is_float_tail rest); [discriminate | cbn [length]; lia].
    + specialize (Hint (c :: r)).
      destruct (match_integer (c :: r)) as [[ds rest] | e]; cbn [bind];
        [| subst e; discriminate].
      destruct (is_float_tail rest); [discriminate | exact Hint].
Qed.

Lemma strip_prefix_length (p s r : pystr) :
  strip_prefix p s = Some r -> (length r + length p = length s)%nat.
Proof.
  revert s. induction p as [| a p IH]; intros s H.
  - injection H as <-. cbn [length]. lia.
  - destruct s as [| c s]; [discriminate |]. cbn [strip_prefix] in H.
    destruct (a =? c)%N; [| discriminate].
    apply IH in H. cbn [length]. lia.
Qed.

Lemma progresses_weaken (s' s : pystr) (m : result (pyval * pystr)) :
  progresses s' m -> (length s' <= length s)%nat -> progresses s m.
Proof.
  unfold progresses. destruct m as [[v r] | e]; [lia | trivial].
Qed.

Lemma scan_once_literals (s : pystr) :
  progresses s
    match strip_prefix (str "null") s, strip_prefix (str "true") s,
          strip_prefix (str "false") s with
    | Some rest, _, _ => Ok (PNone, rest)
    | _, Some rest, _ => Ok (PBool true, rest)
    | _, _, Some rest => Ok (PBool false, rest)
    | None, None, None =>
        match strip_prefix (str "NaN") s,
              strip_prefix (str "Infinity") s,
              strip_prefix (str "-Infinity") s with
        | None, None, None => match_number s
        | _, _, _ => Raise NotModelled
        end
    end.
Proof.
  destruct (strip_prefix (str "null") s) as [r1 |] eqn:E1.
  { apply strip_prefix_length in E1. cbn in E1 |- *. lia. }
  destruct (strip_prefix (str "true") s) as [r2 |] eqn:E2.
  { apply strip_prefix_length in E2. cbn in E2 |- *. lia. }
  destruct (strip_prefix (str "false") s) as [r3 |] eqn:E3.
  { apply strip_prefix_length in E3. cbn in E3 |- *. lia. }
  destruct (strip_prefix (str "NaN") s); [discriminate |].
  destruct (strip_prefix (str "Infinity") s); [discriminate |].
  destruct (strip_prefix (str "-Infinity") s); [discriminate |].
  pose proof (match_number_outcome s) as H. unfold progresses.
  destruct (match_number s) as [[v r] | e]; exact H.
Qed.

Lemma scanner_fuel (fuel : nat) :
  (forall s, (2 * length s + 1 <= fuel)%nat -> progresses s (scan_once fuel s))
  /\ (forall acc s, (2 * length s + 2 <= fuel)%nat ->
        progresses s (parse_array fuel acc s))
  /\ (forall acc s, (2 * length s + 2 <= fuel)%nat ->
        progresses s (parse_object fuel acc s)).
Proof.
  induction fuel as [| f [IHscan [IHarr IHobj]]].
  - repeat split; intros; lia.
  - split; [| split].
    + intros [| c r] Hf; [discriminate |].
      cbn [length] in Hf. cbn [scan_once].
      pose proof (skip_ws_length r) as Hws.
      destruct (c =? 34)%N.
      { pose proof (scanstring_outcome (length r) r ltac:(lia)) as H.
        destruct (scanstring r) as [[x rest] | e]; cbn [bind progresses length];
          [lia | subst e; discriminate]. }
      destruct (c =? 123)%N.
      { destruct (skip_ws r) as [| c1 r1]; [discriminate |].
        cbn [length] in Hws.
        destruct (c1 =? 125)%N; [cbn [progresses length]; lia |].
        apply (progresses_weaken (c1 :: r1)); [| cbn [length]; lia].
        apply IHobj. cbn [length]. lia. }
      destruct (c =? 91)%N.
      { destruct (skip_ws r) as [| c1 r1]; [discriminate |].
        cbn [length] in Hws.
        destruct (c1 =? 93)%N; [cbn [progresses length]; lia |].
        apply (progresses_weaken (c1 :: r1)); [| cbn [length]; lia].
        apply IHarr. cbn [length]. lia. }
      apply scan_once_literals.
    + intros acc s Hf. cbn [parse_array].
      pose proof (IHscan s ltac:(lia)) as H.
      destruct (scan_once f s) as [[v r] | e]; cbn [bind]; [| exact H].
      cbn [progresses] in H.
      pose proof (skip_ws_length r) as Hws.
      destruct (skip_ws r) as [| c r1]; [discriminate |].
      cbn [length] in Hws.
      destruct (c =? 93)%N; [cbn [progresses]; lia |].
      destruct (c =? 44)%N; [| discriminate].
      pose proof (skip_ws_length r1) as Hws1.
      apply (progresses_weaken (skip_ws r1)); [| lia].
      apply IHarr. lia.
    + intros acc [| q r] Hf; [discriminate |].
      cbn [length] in Hf. cbn [parse_object].
      destruct (negb (q =? 34)%N); [discriminate |].
      pose proof (scanstring_outcome (length r) r ltac:(lia)) as H.
      destruct (scanstring r) as [[key r1] | e]; cbn [bind];
        [| subst e; discriminate].
      pose proof (skip_ws_length r1) as Hws1.
      destruct (skip_ws r1) as [| c r2]; [discriminate |].
      cbn [length] in Hws1.
      destruct (negb (c =? 58)%N); [discriminate |].
      pose proof (skip_ws_length r2) as Hws2.
      pose proof (IHscan (skip_ws r2) ltac:(lia)) as H3.
      destruct (scan_once f (skip_ws r2)) as [[v r3] | e]; cbn [bind];
        [| exact H3].
      cbn [progresses] in H3.
      pose proof (skip_ws_length r3) as Hws3.
      destruct (skip_ws r3) as [| c' r4]; [discriminate |].
      cbn [length] in Hws3.
      destruct (c' =? 125)%N; [cbn [progresses length]; lia |].
      destruct (c' =? 44)%N; [| discriminate].
      pose proof (skip_ws_length r4) as Hws4.
      apply (progresses_weaken (skip_ws r4)); [| cbn [length]; lia].
      apply IHobj. lia.
Qed.

(** [json_loads] never raises [RecursionError]: whatever the text, the
    outcome is a value, a [JSONDecodeError], or [NotModelled] for a text
    with a float in it. *)
Lemma json_loads_fuel (s : pystr) : json_loads s <> Raise RecursionError.
Proof.
  unfold json_loads.
  pose proof (skip_ws_length s) as Hws.
  pose proof (proj1 (scanner_fuel (2 * length s + 2)) (skip_ws s) ltac:(lia)) as H.
  destruct (scan_once (2 * length s + 2) (skip_ws s)) as [[v rest] | e];
    cbn [bind].
  - destruct (skip_ws rest); discriminate.
  - intros E. apply H. congruence.
Qed.

(** ** The evaluation loop *)

Lemma mapM_ext_in {A B : Type} (f g : A -> result B) (l : list A) :
  (forall a, In a l -> f a = g a) -> mapM f l = mapM g l.
Proof.
  induction l as [| a l IH]; intros H; [reflexivity |].
  cbn [mapM]. rewrite (H a) by (left; reflexivity).
  rewrite IH by (intros b Hb; apply H; right; exact Hb). reflexivity.
Qed.

Lemma mapM_map {A B C : Type} (h : A -> B) (f : B -> result C) (l : list A) :
  mapM f (map h l) = mapM (fun a => f (h a)) l.
Proof.
  induction l as [| a l IH]; [reflexivity |].
  cbn [map mapM]. rewrite IH. reflexivity.
Qed.

Lemma mapM_app {A B : Type} (f : A -> result B) (l1 l2 : list A) :
  mapM f (l1 ++ l2)
  = (bs1 <- mapM f l1 ;; bs2 <- mapM f l2 ;; Ok (bs1 ++ bs2)).
Proof.
  induction l1 as [| a l1 IH]; cbn [app mapM].
  - cbn [bind]. destruct (mapM f l2); reflexivity.
  - destruct (f a) as [b | e]; [| reflexivity]. cbn [bind]. rewrite IH.
    destruct (mapM f l1) as [bs1 | e]; [| reflexivity]. cbn [bind].
    destruct (mapM f l2); reflexivity.
Qed.

(** Running a loop shard by shard and concatenating is running it over
    the concatenated shards, failures included. *)
Lemma mapM_concat {A B : Type} (f : A -> result B) (ls : list (list A)) :
  (outs <- mapM (mapM f) ls ;; Ok (concat outs)) = mapM f (concat ls).
Proof.
  induction ls as [| l ls IH]; [reflexivity |].
  cbn [concat mapM]. rewrite mapM_app, <- IH.
  destruct (mapM f l) as [bs | e]; [| reflexivity]. cbn [bind].
  destruct (mapM (mapM f) ls) as [outs | e]; reflexivity.
Qed.

Lemma mapM_singletons {A B : Type} (f : A -> result B) (l : list A) :
  (outs <- mapM (fun a => b <- f a ;; Ok [b]) l ;; Ok (concat outs)) = mapM f l.
Proof.
  induction l as [| a l IH]; [reflexivity |].
  cbn [mapM]. rewrite <- IH.
  destruct (f a) as [b | e]; [| reflexivity]. cbn [bind].
  destruct (mapM (fun a => b <- f a ;; Ok [b]) l) as [outs | e]; reflexivity.
Qed.

Lemma batch_sampler_one {A : Type} (l : list A) :
  batch_sampler 1 [] l = map (fun idx => [idx]) l.
Proof.
  induction l as [| a l IH]; [reflexivity |].
  cbn [batch_sampler length Nat.eqb rev app map]. rewrite IH. reflexivity.
Qed.

(** With one index per batch, the body of the loop is [predict_one]. *)
Lemma eval_single_batch {R : Runtime} (args : Args) (cfg : ds_config)
    (ds : VQADataset) (idx : Z) :
  (batch <- fetch ds [idx] ;; eval_batch args cfg batch)
  = (p <- predict_one args cfg ds idx ;; Ok [p]).
Proof.
  unfold fetch, predict_one. cbn [mapM].
  destruct (VQADataset_getitem ds idx) as [it | e]; [| reflexivity].
  cbn [bind collate_fn map eval_batch]. unfold py_index.
  cbn [length Z.of_nat Z.ltb Z.compare Z.leb andb nth_error Z.to_nat bind].
  destruct (model_chat _ _ _ _) as [pred | e]; reflexivity.
Qed.

(** The loop of one process when the batch size is 1. *)
Lemma local_outputs_batch_one {R : Runtime} (args : Args) (ds_name : pystr)
    (pg : process_group) :
  arg_batch_size args = 1 ->
  local_outputs args ds_name pg
  = (cfg <- ds_lookup ds_name ;;
     dataset <- VQADataset_init (cfg_root cfg) (cfg_question cfg) (str "")
                                image_size pad2square ;;
     sampler <- InferenceSampler_init pg (VQADataset_len dataset) ;;
     mapM (predict_one args cfg dataset) (InferenceSampler_iter sampler)).
Proof.
  intros Hbs. unfold local_outputs.
  destruct (ds_lookup ds_name) as [cfg | e]; [| reflexivity]. cbn [bind].
  destruct (VQADataset_init _ _ _ _ _) as [dataset | e]; [| reflexivity].
  cbn [bind].
  destruct (InferenceSampler_init pg (VQADataset_len dataset)) as [sampler | e];
    [| reflexivity].
  cbn [bind]. unfold dataloader_batches. rewrite Hbs.
  cbn [Z.ltb Z.compare Z.to_nat Pos.to_nat Pos.iter_op Nat.add bind].
  rewrite batch_sampler_one, mapM_map.
  rewrite (mapM_ext_in _ (fun idx => p <- predict_one args cfg dataset idx ;; Ok [p]))
    by (intros idx _; apply eval_single_batch).
  apply mapM_singletons.
Qed.

Lemma ranks_nonempty (ws : Z) : 1 <= ws -> range_list (Range 0 ws) <> [].
Proof.
  intros H. unfold range_list; cbn [range_start range_stop].
  replace (Z.to_nat (ws - 0)) with (S (Z.to_nat (ws - 1))) by lia.
  discriminate.
Qed.

Lemma mapM_raise {A B : Type} (e : exn) (l : list A) :
  l <> [] -> mapM (fun _ => @Raise B e) l = Raise e.
Proof. destruct l; [contradiction | reflexivity]. Qed.

Lemma InferenceSampler_init_rank (ws r n : Z) :
  0 < n -> 1 <= ws -> 0 <= r < ws ->
  InferenceSampler_init (ProcessGroup r ws) n
  = Ok (MkSampler n r ws (Range (boundary n ws r) (boundary n ws (r + 1)))).
Proof.
  intros Hn Hw Hr. unfold InferenceSampler_init. cbn [pg_rank pg_world_size].
  destruct (Z.ltb_spec 0 n); [| lia].
  rewrite _get_local_indices_boundary by lia. reflexivity.
Qed.

Lemma InferenceSampler_init_empty (pg : process_group) (n : Z) :
  n <= 0 -> InferenceSampler_init pg n = Raise (AssertionError "").
Proof.
  intros Hn. unfold InferenceSampler_init.
  destruct (Z.ltb_spec 0 n); [lia | reflexivity].
Qed.



(** The run of the witness is a successful one: three predictions, the
    first two from rank 0 and the third from rank 1. *)
Example demo_run_succeeds :
  exists p1 p2 p3,
    @local_outputs demo (demo_args 1) (str "pope") (ProcessGroup 0 2) = Ok [p1; p2]
    /\ @local_outputs demo (demo_args 1) (str "pope") (ProcessGroup 1 2) = Ok [p3]
    /\ @local_outputs demo (demo_args 1) (str "pope") (ProcessGroup 0 1)
       = Ok [p1; p2; p3].
Proof. do 3 eexists. repeat split; vm_compute; reflexivity. Qed.

Lemma py_index_head {A : Type} (a : A) (l : list A) : py_index (a :: l) 0 = Ok a.
Proof.
  unfold py_index. cbn [Z.ltb Z.compare Z.leb andb].
  destruct (Z.ltb_spec 0 (Z.of_nat (length (a :: l)))) as [_ | H];
    [reflexivity | cbn [length] in H; lia].
Qed.


Lemma do_sample_positive (t : spec_float) :
  (if SFltb (S754_zero false) t then true else false) = float_positive t.
Proof. destruct t as [s | s | | s m e]; try destruct s; reflexivity. Qed.

(** C6.  The generation configuration built for every batch takes the beam
    count from the arguments and the bounds on new tokens from the dataset
    configuration, has length penalty 1 and the temperature of the
    arguments, and samples exactly when that temperature is positive (a
    zero, a negative number or a NaN gives deterministic decoding); it is
    the configuration the model is called with. *)
Theorem generation_config_of_run (R : Runtime) (args : Args) (cfg : ds_config) :
  make_generation_config args cfg
  = GenerationConfig (arg_num_beams args)
                     (cfg_max_new_tokens cfg) (cfg_min_new_tokens cfg) 1
                     (float_positive (arg_temperature args))
                     (arg_temperature args)
  /\ (do_sample (make_generation_config args cfg) = true
      <-> float_positive (arg_temperature args) = true)
  /\ forall pixels q0 qs qids anns,
       eval_batch args cfg (pixels, q0 :: qs, qids, anns)
       = (pred <- model_chat (arg_template args) (to_bfloat16_cuda pixels) q0
                             (make_generation_config args cfg) ;;
          Ok (map (fun '(qid, answer, ann) =>
                     prediction qid pred (arg_checkpoint args))
                  (zip3 qids [pred] anns))).
Proof.
  split; [| split].
  - unfold make_generation_config. rewrite do_sample_positive. reflexivity.
  - unfold make_generation_config. cbn [do_sample].
    rewrite do_sample_positive. reflexivity.
  - intros pixels q0 qs qids anns. unfold eval_batch.
    rewrite py_index_head. reflexivity.
Qed.

(** The configuration of the [pope] dataset, and a positive and a zero
    temperature. *)
Example generation_config_pope :
  ds_lookup (str "pope")
  = Ok (DsConfig (str "data/pope/val2014")
                 (str "data/pope/llava_pope_test.jsonl") PNone 100 1)
  /\ do_sample (make_generation_config (demo_args 1)
                  (DsConfig [] [] PNone 100 1)) = false
  /\ float_positive (S754_finite false 1 (-1)) = true.
Proof. repeat split. Qed.

Lemma as_str_Ok (v : pyval) (s : pystr) : as_str v = Ok s <-> v = PStr s.
Proof.
  destruct v; cbn [as_str]; split; intros H; try discriminate; congruence.
Qed.

(** C7.  [__getitem__] returns a record exactly when the line of the index
    is a JSON object with string fields [image] and [text] and a field
    [question_id], and the image opens and transforms; the question of the
    record is then the [text] field followed by a space and the prompt of
    the dataset, the same suffix for every record. *)
Theorem getitem_question_suffix (R : Runtime) (ds : VQADataset) (idx : Z)
    (it : item) :
  VQADataset_getitem ds idx = Ok it
  <-> exists line data image_s text qid ann img t,
        py_index (ds_data ds) idx = Ok line
        /\ json_loads (py_strip line) = Ok data
        /\ py_getitem data (str "image") = Ok (PStr image_s)
        /\ py_getitem data (str "text") = Ok (PStr text)
        /\ py_getitem data (str "question_id") = Ok qid
        /\ py_get data (str "answer") PNone = Ok ann
        /\ Image_open (os_path_join (ds_root ds) image_s) = Ok img
        /\ ds_transform ds img = Ok t
        /\ question it = text ++ (str " " ++ ds_prompt ds)
        /\ it = MkItem R qid (text ++ (str " " ++ ds_prompt ds)) (unsqueeze0 t) ann.
Proof.
  unfold VQADataset_getitem. split.
  - intros H.
    apply bind_Ok in H as [line [E1 H]].
    apply bind_Ok in H as [data [E2 H]].
    apply bind_Ok in H as [image_v [E3 H]].
    apply bind_Ok in H as [question_v [E4 H]].
    apply bind_Ok in H as [qid [E5 H]].
    apply bind_Ok in H as [ann [E6 H]].
    apply bind_Ok in H as [image_s [E7 H]].
    apply bind_Ok in H as [img [E8 H]].
    apply bind_Ok in H as [t [E9 H]].
    apply bind_Ok in H as [text [E10 H]].
    apply as_str_Ok in E7, E10. subst image_v question_v.
    injection H as <-.
    exists line, data, image_s, text, qid, ann, img, t.
    repeat (split; [assumption || reflexivity |]). reflexivity.
  - intros [line [data [image_s [text [qid [ann [img [t H]]]]]]]].
    destruct H as [E1 [E2 [E3 [E4 [E5 [E6 [E8 [E9 [_ ->]]]]]]]]].
    rewrite E1; cbn [bind]. rewrite E2; cbn [bind]. rewrite E3; cbn [bind].
    rewrite E4; cbn [bind]. rewrite E5; cbn [bind]. rewrite E6; cbn [bind as_str].
    rewrite E8; cbn [bind]. rewrite E9; cbn [bind]. reflexivity.
Qed.

(** The driver builds the dataset with an empty prompt (line 106): the
    suffix is a single space. *)
Example getitem_demo :
  exists ds it,
    @VQADataset_init demo (str "data/pope/val2014")
                     (str "data/pope/llava_pope_test.jsonl") (str "") 224 false
    = Ok ds
    /\ @VQADataset_getitem demo ds 0 = Ok it
    /\ question it = str "Is there a cat? "
    /\ question_id it = PInt 1.
Proof. do 2 eexists. repeat split; vm_compute; reflexivity. Qed.



(** With a batch size of 2 the three records of the example give two
    batches and two predictions: the second record gets none. *)
Example demo_batch_two :
  exists p1 p3,
    @local_outputs demo (demo_args 2) (str "pope") (ProcessGroup 0 1) = Ok [p1; p3]
    /\ py_getitem p1 (str "question_id") = Ok (PInt 1)
    /\ py_getitem p3 (str "question_id") = Ok (PInt 3).
Proof. do 2 eexists. repeat split; vm_compute; reflexivity. Qed.

(** ** Predictions and the results file *)

Lemma mapM_Ok_Forall {A B : Type} (f : A -> result B) (P : B -> Prop)
    (l : list A) (outs : list B) :
  (forall a b, f a = Ok b -> P b) -> mapM f l = Ok outs -> Forall P outs.
Proof.
  intros Hf. revert outs. induction l as [| a l IH]; intros outs H.
  - injection H as <-. constructor.
  - cbn [mapM] in H. apply bind_Ok in H as [b [Hb H]].
    apply bind_Ok in H as [bs [Hbs H]]. injection H as <-.
    constructor; [apply (Hf a); exact Hb | apply IH; exact Hbs].
Qed.

Lemma mapM_Ok_map {A B C : Type} (f : A -> result B) (g : B -> C)
    (l : list A) (outs : list B) :
  mapM f l = Ok outs ->
  mapM (fun a => b <- f a ;; Ok (g b)) l = Ok (map g outs).
Proof.
  revert outs. induction l as [| a l IH]; intros outs H.
  - injection H as <-. reflexivity.
  - cbn [mapM] in H |- *. apply bind_Ok in H as [b [Hb H]].
    apply bind_Ok in H as [bs [Hbs H]]. injection H as <-.
    rewrite Hb. cbn [bind]. rewrite (IH bs Hbs). reflexivity.
Qed.

Lemma mapM_total {A B : Type} (f : A -> result B) (g : A -> B) (l : list A) :
  Forall (fun a => f a = Ok (g a)) l -> mapM f l = Ok (map g l).
Proof.
  induction 1 as [| a l Ha _ IH]; [reflexivity |].
  cbn [mapM map]. rewrite Ha, IH. reflexivity.
Qed.

Lemma Forall_concat {A : Type} (P : A -> Prop) (ls : list (list A)) :
  Forall (Forall P) ls -> Forall P (concat ls).
Proof.
  induction 1 as [| l ls Hl _ IH]; [constructor |].
  cbn [concat]. apply Forall_app. split; assumption.
Qed.

Lemma eval_batch_predictions {R : Runtime} (args : Args) (cfg : ds_config)
    (batch : tensor * list pystr * list pyval * list pyval) (outs : list pyval) :
  eval_batch args cfg batch = Ok outs -> Forall (is_prediction args) outs.
Proof.
  destruct batch as [[[pixels questions] qids] anns]. unfold eval_batch.
  intros H. apply bind_Ok in H as [q0 [_ H]].
  apply bind_Ok in H as [pred [_ H]]. injection H as <-.
  apply Forall_map, Forall_forall. intros [[qid answer] ann] _.
  exists qid, pred. reflexivity.
Qed.

Lemma local_outputs_predictions {R : Runtime} (args : Args) (ds_name : pystr)
    (pg : process_group) (outs : list pyval) :
  local_outputs args ds_name pg = Ok outs -> Forall (is_prediction args) outs.
Proof.
  unfold local_outputs. intros H.
  apply bind_Ok in H as [cfg [_ H]]. apply bind_Ok in H as [dataset [_ H]].
  apply bind_Ok in H as [sampler [_ H]]. apply bind_Ok in H as [batches [_ H]].
  apply bind_Ok in H as [parts [Hparts H]]. injection H as <-.
  apply Forall_concat.
  refine (mapM_Ok_Forall _ _ _ _ _ Hparts).
  intros b part Hb. apply bind_Ok in Hb as [batch [_ Hb]].
  apply (eval_batch_predictions args cfg batch). exact Hb.
Qed.

Lemma json_norm_prediction (qid : pyval) (text model_id : pystr) :
  json_norm (prediction qid text model_id)
  = prediction (json_norm qid) (join_pairs text) (join_pairs model_id).
Proof. reflexivity. Qed.

Lemma merged_outputs_of_locals {R : Runtime} (args : Args) (ds_name : pystr)
    (world_size : Z) (locals : list (list pyval)) :
  mapM (fun r => local_outputs args ds_name (ProcessGroup r world_size))
       (range_list (Range 0 world_size)) = Ok locals ->
  Forall (Forall valid_val) locals ->
  merged_outputs args ds_name world_size = Ok (map json_norm (concat locals)).
Proof.
  intros Hloc Hvalid. unfold merged_outputs, all_gather_outputs.
  rewrite (mapM_Ok_map _ (fun outs => json_dumps (PList outs)) _ _ Hloc).
  cbn [bind]. unfold merge_outputs.
  rewrite mapM_map.
  rewrite (mapM_total _ (fun outs => PList (map json_norm outs))).
  2:{ apply (Forall_impl _ (P := Forall valid_val)); [| exact Hvalid].
      intros outs Hv. apply json_loads_dumps, valid_val_list. exact Hv. }
  cbn [bind]. rewrite mapM_map.
  rewrite (mapM_total _ (fun outs => map json_norm outs))
    by (apply Forall_forall; reflexivity).
  cbn [bind]. rewrite concat_map. reflexivity.
Qed.

(** C8.  What a batch appends to [outputs] is one dictionary with exactly
    the fields [question_id] (the identifier of the record), [text] (the
    text the model generated), [model_id] (the checkpoint) and [metadata]
    (the empty dictionary).  When every process has finished its loop (and
    the strings of the predictions are Python strings), the text written to
    the results file is the JSON array [json.dumps] writes for the merged
    list, and every element of that list is a dictionary of these four
    fields. *)
Theorem predictions_and_results_file (R : Runtime) (args : Args) :
  (forall cfg it its,
     eval_batch args cfg (collate_fn (it :: its))
     = (pred <- model_chat (arg_template args)
                  (to_bfloat16_cuda (torch_cat (map pixel_values (it :: its))))
                  (question it) (make_generation_config args cfg) ;;
        Ok [PDict [(str "question_id", question_id it);
                   (str "text", PStr pred);
                   (str "model_id", PStr (arg_checkpoint args));
                   (str "metadata", PDict [])]]))
  /\ (forall ds_name world_size locals,
        mapM (fun r => local_outputs args ds_name (ProcessGroup r world_size))
             (range_list (Range 0 world_size)) = Ok locals ->
        Forall (Forall valid_val) locals ->
        exists merged,
          merged_outputs args ds_name world_size = Ok merged
          /\ results_file_text args ds_name world_size
             = Ok (json_dumps (PList merged))
          /\ merged = map json_norm (concat locals)
          /\ Forall (fun p => exists qid text model_id,
                        p = PDict [(str "question_id", qid);
                                   (str "text", PStr text);
                                   (str "model_id", PStr model_id);
                                   (str "metadata", PDict [])])
                    merged).
Proof.
  split.
  - intros cfg it its. unfold collate_fn, eval_batch. cbn [map].
    rewrite py_index_head. cbn [bind].
    destruct (model_chat _ _ _ _) as [pred | e]; [| reflexivity].
    cbn [bind zip3 map]. destruct (map question_id its), (map annotation its);
      reflexivity.
  - intros ds_name world_size locals Hloc Hvalid.
    pose proof (merged_outputs_of_locals args ds_name world_size locals Hloc Hvalid)
      as Hm.
    exists (map json_norm (concat locals)).
    split; [exact Hm |]. split; [| split; [reflexivity |]].
    + unfold results_file_text. rewrite Hm. reflexivity.
    + apply Forall_map, Forall_concat.
      assert (Hpred : Forall (Forall (is_prediction args)) locals).
      { refine (mapM_Ok_Forall _ _ _ _ _ Hloc).
        intros r outs Hr. apply (local_outputs_predictions _ _ _ _ Hr). }
      apply (Forall_impl _ (P := Forall (is_prediction args))); [| exact Hpred].
      intros outs Houts.
      apply (Forall_impl _ (P := is_prediction args)); [| exact Houts].
      intros p [qid [text ->]]. rewrite json_norm_prediction.
      exists (json_norm qid), (join_pairs text),
             (join_pairs (arg_checkpoint args)).
      reflexivity.
Qed.

Lemma predictions_and_results_file_witness :
  exists merged,
    @merged_outputs demo (demo_args 1) (str "pope") 2 = Ok merged
    /\ @results_file_text demo (demo_args 1) (str "pope") 2
       = Ok (json_dumps (PList merged))
    /\ length merged = 3%nat.
Proof.
  assert (Hloc : exists locals,
            mapM (fun r => @local_outputs demo (demo_args 1) (str "pope")
                                          (ProcessGroup r 2))
                 (range_list (Range 0 2)) = Ok locals
            /\ Forall (Forall valid_val) locals
            /\ length (concat locals) = 3%nat).
  { eexists. split; [vm_compute; reflexivity |]. split; [| reflexivity].
    repeat (first [apply Forall_nil | apply Forall_cons]);
      cbn [valid_val fst snd]; unfold valid_str;
      repeat (first [apply Forall_nil | apply Forall_cons | split | exact I
                     | reflexivity]). }
  destruct Hloc as [locals [Hloc [Hvalid Hlen]]].
  destruct (proj2 (predictions_and_results_file demo (demo_args 1))
                  (str "pope") 2 locals Hloc Hvalid)
    as [merged [Hm [Hfile [E _]]]].
  exists merged. split; [exact Hm |]. split; [exact Hfile |].
  rewrite E, length_map. exact Hlen.
Defined.

(** ** The serialize-then-deserialize round trip of the gather step *)

Lemma valid_str_literal (s : string) :
  forallb (fun c => (c <? 1114112)%N) (str s) = true -> valid_str (str s).
Proof.
  intros H. apply Forall_forall. intros c Hc.
  rewrite forallb_forall in H. apply N.ltb_lt, H, Hc.
Qed.




(** ** The [__main__] block *)

(** C4 (as amended).  With a batch size other than 1 the run ends before
    the process group is initialised and before [evaluate_chat_model] is
    entered, so before any model is loaded, any dataset built or any
    inference made.  It ends with the assertion failure of line 191 when
    the output directory exists or [os.makedirs] creates it; when
    [os.makedirs] raises (line 187 runs first), it ends with that
    exception. *)
Theorem main_batch_size_guard (R : Runtime) (ns : Namespace) (env : Environ) :
  ns_batch_size ns <> 1 ->
  main ns env
  = let printed := EvPrint (str "datasets:" :: split_char 44%N (ns_datasets ns)) in
    let failure := Raise (AssertionError "Only batch size 1 is supported") in
    if os_path_exists (ns_out_dir ns) then ([printed], failure)
    else
      match os_makedirs (ns_out_dir ns) with
      | Ok _ => ([EvMakedirs (ns_out_dir ns); printed], failure)
      | Raise e => ([EvMakedirs (ns_out_dir ns)], Raise e)
      end.
Proof.
  intros Hbs. unfold main.
  destruct (Z.eqb_spec (ns_batch_size ns) 1) as [E | _]; [contradiction |].
  destruct (os_path_exists (ns_out_dir ns)).
  - reflexivity.
  - cbn [io_bind emit lift app].
    destruct (os_makedirs (ns_out_dir ns)) as [[] | e]; reflexivity.
Qed.

Lemma main_batch_size_guard_witness :
  @main demo (demo_namespace 2 "results") (MkEnviron 1 0 0)
  = ([EvMakedirs (str "results"); EvPrint [str "datasets:"; str "pope"]],
     Raise (AssertionError "Only batch size 1 is supported")).
Proof.
  rewrite (main_batch_size_guard demo (demo_namespace 2 "results")
                                 (MkEnviron 1 0 0))
    by (cbn; lia).
  reflexivity.
Defined.

(** C4, counterexample.  With [--out_dir ''] and a batch size of 2 the run
    ends in line 187 with the [FileNotFoundError] of [os.makedirs('')]: the
    assertion of line 191 is never reached. *)
Lemma main_fails_before_the_assertion :
  @main demo (demo_namespace 2 "") (MkEnviron 1 0 0)
  = ([EvMakedirs []], Raise FileNotFoundError)
  /\ snd (@main demo (demo_namespace 2 "") (MkEnviron 1 0 0))
     <> Raise (AssertionError "Only batch size 1 is supported").
Proof. split; [reflexivity | discriminate]. Qed.

(** With the batch size 1 the run of the example goes through: the model
    is loaded, the dataset evaluated and the results file written. *)
Example main_demo_run :
  exists text,
    @main demo (demo_namespace 1 "results") (MkEnviron 1 0 0)
    = ([EvMakedirs (str "results");
        EvPrint [str "datasets:"; str "pope"];
        EvInitProcessGroup 1 0;
        EvSetDevice 0;
        EvFromPretrained (str "ckpt");
        EvSeed 0;
        EvEvaluate (str "pope");
        EvBarrier;
        EvAllGather;
        EvPrint [str "Evaluating pope ..."];
        EvWriteFile (str "results/pope_240101000000.json") text;
        EvPrint [str "Results saved to results/pope_240101000000.json"];
        EvPrint [str "python eval/pope/eval_pope.py --annotation-dir ./data/pope/coco --question-file ./data/pope/llava_pope_test.jsonl --result-file results/pope_240101000000.json"];
        EvSystem (str "python eval/pope/eval_pope.py --annotation-dir ./data/pope/coco --question-file ./data/pope/llava_pope_test.jsonl --result-file results/pope_240101000000.json")],
       Ok tt).
Proof. eexists. vm_compute. reflexivity. Qed.

(* ====================================================================== *)
(** * Part III: further properties of the code                             *)
(* ====================================================================== *)

(** ** The sampler beyond its partition *)

Lemma py_sum_nonneg (l : list Z) : Forall (fun z => 0 <= z) l -> 0 <= py_sum l.
Proof.
  induction 1 as [| z l Hz _ IH]; [reflexivity |].
  change (z :: l) with ([z] ++ l). rewrite py_sum_app.
  unfold py_sum at 1. cbn [fold_left]. lia.
Qed.

Lemma shard_sizes_nonneg (total ws : Z) :
  0 <= total -> Forall (fun z => 0 <= z) (shard_sizes total ws).
Proof.
  intros Ht. unfold shard_sizes. apply Forall_forall. intros z Hz.
  apply in_map_iff in Hz as [r [<- Hr]]. apply range_list_In in Hr.
  assert (0 <= total / ws) by (apply Z.div_pos; lia).
  unfold int_of_bool. destruct (r <? total mod ws); lia.
Qed.

Lemma py_slice_upto_Forall {A : Type} (P : A -> Prop) (l : list A) (k : Z) :
  Forall P l -> Forall P (py_slice_upto l k).
Proof.
  intros H. unfold py_slice_upto.
  set (n := Z.to_nat _). rewrite <- (firstn_skipn n l) in H.
  apply Forall_app in H. apply H.
Qed.

Lemma range_list_snoc (n : nat) :
  range_list (Range 0 (Z.of_nat (S n)))
  = range_list (Range 0 (Z.of_nat n)) ++ [Z.of_nat n].
Proof.
  rewrite <- (range_list_app 0 (Z.of_nat n) (Z.of_nat (S n))) by lia.
  f_equal. unfold range_list. cbn [range_start range_stop].
  replace (Z.to_nat (Z.of_nat (S n) - Z.of_nat n)) with 1%nat by lia.
  cbn [seq map]. f_equal. lia.
Qed.

Lemma boundary_telescope (total ws : Z) (n : nat) :
  py_sum (map (fun r => boundary total ws (r + 1) - boundary total ws r)
              (range_list (Range 0 (Z.of_nat n))))
  = boundary total ws (Z.of_nat n) - boundary total ws 0.
Proof.
  induction n as [| n IH].
  - cbn. lia.
  - rewrite range_list_snoc, map_app, py_sum_app, IH. cbn [map].
    unfold py_sum at 1. cbn [fold_left].
    replace (Z.of_nat (S n)) with (Z.of_nat n + 1) by lia. lia.
Qed.

(** X1.  A run with a single process owns the whole dataset: for every
    size, rank 0 of 1 gets [range(0, total_size)], so the sampler of a
    non-empty dataset yields the indices [0 .. total_size-1] in order and
    its length is the size of the dataset. *)
Theorem single_process_shard (total_size : Z) :
  _get_local_indices total_size 1 0 = Ok (Range 0 total_size)
  /\ (0 < total_size ->
      exists s, InferenceSampler_init (ProcessGroup 0 1) total_size = Ok s
                /\ InferenceSampler_iter s = range_list (Range 0 total_size)
                /\ InferenceSampler_len s = total_size).
Proof.
  assert (E : _get_local_indices total_size 1 0 = Ok (Range 0 total_size)).
  { assert (S : shard_sizes total_size 1 = [total_size]).
    { unfold shard_sizes. rewrite Z.div_1_r, Z.mod_1_r.
      change (range_list (Range 0 1)) with [0]. cbn [map].
      change (0 <? 0) with false. unfold int_of_bool. f_equal. lia. }
    unfold _get_local_indices. rewrite S. change (1 =? 0) with false. cbv iota.
    change (py_slice_upto [total_size] 0) with (@nil Z).
    change (py_slice_upto [total_size] (0 + 1)) with [total_size].
    unfold py_sum. cbn [fold_left]. f_equal. f_equal. lia. }
  split; [exact E |].
  intros Hn. unfold InferenceSampler_init. cbn [pg_rank pg_world_size].
  destruct (Z.ltb_spec 0 total_size); [| lia].
  rewrite E. cbn [bind]. eexists. split; [reflexivity |].
  unfold InferenceSampler_iter, InferenceSampler_len, range_len.
  cbn [_local_indices range_start range_stop]. split; [reflexivity | lia].
Qed.

(** X2.  The lengths of the samplers of all ranks add up to the size of
    the dataset, and [len(sampler)] is the number of indices iterating the
    sampler yields. *)
Theorem sampler_lengths_sum (size world_size : Z) :
  0 < size -> 1 <= world_size ->
  exists samplers,
    mapM (fun r => InferenceSampler_init (ProcessGroup r world_size) size)
         (range_list (Range 0 world_size)) = Ok samplers
    /\ py_sum (map InferenceSampler_len samplers) = size
    /\ Forall (fun s => InferenceSampler_len s
                        = Z.of_nat (length (InferenceSampler_iter s)))
              samplers.
Proof.
  intros Hn Hw.
  set (mk := fun r => MkSampler size r world_size
                        (Range (boundary size world_size r)
                               (boundary size world_size (r + 1)))).
  exists (map mk (range_list (Range 0 world_size))).
  split; [| split].
  - apply mapM_pointwise. intros r Hr. apply range_list_In in Hr.
    apply InferenceSampler_init_rank; lia.
  - rewrite map_map.
    rewrite (map_ext_in _ (fun r => boundary size world_size (r + 1)
                                    - boundary size world_size r)).
    + pose proof (boundary_telescope size world_size (Z.to_nat world_size)) as T.
      rewrite Z2Nat.id in T by lia. rewrite T.
      rewrite boundary_0, boundary_ws by lia. lia.
    + intros r Hr. unfold mk, InferenceSampler_len, range_len.
      cbn [_local_indices range_start range_stop].
      pose proof (boundary_mono size world_size r (r + 1)). lia.
  - apply Forall_forall. intros s Hs. apply in_map_iff in Hs as [r [<- _]].
    unfold mk, InferenceSampler_len, InferenceSampler_iter. cbn [_local_indices].
    symmetry. apply range_list_length.
Qed.

Lemma sampler_lengths_sum_witness :
  exists samplers,
    mapM (fun r => InferenceSampler_init (ProcessGroup r 3) 10)
         (range_list (Range 0 3)) = Ok samplers
    /\ py_sum (map InferenceSampler_len samplers) = 10.
Proof.
  destruct (sampler_lengths_sum 10 3 ltac:(lia) ltac:(lia))
    as [samplers [H1 [H2 _]]].
  exists samplers. split; assumption.
Defined.

(** X3.  Whatever rank and world size the process group reports, a
    sampler that could be built yields only indices of the dataset:
    [self.data[idx]] never raises [IndexError] for an index that comes from
    the sampler. *)
Theorem sampler_indices_in_bounds (R : Runtime) (ds : VQADataset)
    (pg : process_group) (s : InferenceSampler) (idx : Z) :
  InferenceSampler_init pg (VQADataset_len ds) = Ok s ->
  In idx (InferenceSampler_iter s) ->
  0 <= idx < VQADataset_len ds
  /\ exists line, py_index (ds_data ds) idx = Ok line
                  /\ nth_error (ds_data ds) (Z.to_nat idx) = Some line.
Proof.
  intros Hinit Hin.
  assert (Hb : 0 <= idx < VQADataset_len ds).
  { unfold InferenceSampler_init in Hinit.
    destruct (Z.ltb_spec 0 (VQADataset_len ds)) as [Hn | Hn]; [| discriminate].
    unfold _get_local_indices in Hinit.
    destruct (pg_world_size pg =? 0); [discriminate |].
    cbn [bind] in Hinit. injection Hinit as <-.
    unfold InferenceSampler_iter in Hin. cbn [_local_indices] in Hin.
    apply range_list_In in Hin.
    pose proof (py_sum_nonneg _
      (py_slice_upto_Forall _ _ (pg_rank pg)
         (shard_sizes_nonneg (VQADataset_len ds) (pg_world_size pg) ltac:(lia)))).
    lia. }
  split; [exact Hb |].
  unfold VQADataset_len in Hb. unfold py_index.
  destruct (Z.ltb_spec idx 0); [lia |].
  destruct (Z.leb_spec 0 idx); [| lia].
  destruct (Z.ltb_spec idx (Z.of_nat (length (ds_data ds)))); [| lia].
  cbn [andb].
  destruct (nth_error (ds_data ds) (Z.to_nat idx)) as [line |] eqn:E.
  - exists line. split; reflexivity.
  - apply nth_error_None in E. lia.
Qed.

Lemma sampler_indices_in_bounds_witness :
  let ds := MkDataset demo (str "root") [str "a"; str "b"; str "c"] []
                      (fun i => Ok i) in
  0 <= 1 < @VQADataset_len demo ds
  /\ exists line, py_index (@ds_data demo ds) 1 = Ok line
                  /\ nth_error (@ds_data demo ds) (Z.to_nat 1) = Some line.
Proof.
  intros ds.
  refine (sampler_indices_in_bounds demo ds (ProcessGroup 1 3)
            (MkSampler 3 1 3 (Range 1 2)) 1 eq_refl _).
  left. reflexivity.
Defined.

(** ** The dataset reader: lines, indices and records *)

Lemma readlines_concat (text : pystr) : concat (readlines text) = text.
Proof.
  induction text as [| c text IH]; [reflexivity |].
  cbn [readlines]. destruct (c =? 10)%N.
  - cbn [concat app]. rewrite IH. reflexivity.
  - destruct (readlines text) as [| line lines].
    + cbn in IH. subst text. reflexivity.
    + cbn [concat app] in *. rewrite IH. reflexivity.
Qed.

Lemma readlines_lines (text : pystr) :
  Forall (fun line => line <> [] /\ ~ In 10%N (removelast line)) (readlines text).
Proof.
  induction text as [| c text IH]; [constructor |].
  cbn [readlines]. destruct (N.eqb_spec c 10) as [-> | Hc].
  - constructor; [| exact IH]. split; [discriminate | intros []].
  - destruct (readlines text) as [| line lines].
    + constructor; [| constructor]. split; [discriminate | intros []].
    + inversion IH as [| ? ? [Hne Hl] Hls]; subst.
      constructor; [| exact Hls]. split; [discriminate |].
      destruct line as [| d line]; [contradiction |].
      change (removelast (c :: d :: line)) with (c :: removelast (d :: line)).
      intros [H | H]; [congruence | auto].
Qed.

Lemma readlines_terminated (text : pystr) :
  Forall (fun line => last line 0%N = 10%N) (removelast (readlines text)).
Proof.
  induction text as [| c text IH]; [constructor |].
  cbn [readlines]. destruct (N.eqb_spec c 10) as [-> | Hc].
  - destruct (readlines text) as [| line lines]; [constructor |].
    change (removelast ([10%N] :: line :: lines))
      with ([10%N] :: removelast (line :: lines)).
    constructor; [reflexivity | exact IH].
  - pose proof (readlines_lines text) as Hl.
    destruct (readlines text) as [| line lines]; [constructor |].
    destruct lines as [| l2 lines]; [constructor |].
    change (removelast ((c :: line) :: l2 :: lines))
      with ((c :: line) :: removelast (l2 :: lines)).
    change (removelast (line :: l2 :: lines))
      with (line :: removelast (l2 :: lines)) in IH.
    inversion IH; subst. inversion Hl as [| ? ? [Hne _] _]; subst.
    constructor; [| assumption].
    destruct line; [contradiction | assumption].
Qed.

(** X4.  The dataset keeps the text of the question file as it is: its
    items, one after the other, are the text that was read; no item is
    empty; an item holds a line feed only as its last character, and every
    item but the last ends with one.  The dataset is empty exactly when the
    file is. *)
Theorem dataset_keeps_file_text (R : Runtime) (root data prompt : pystr)
    (input_size : Z) (pad : bool) (ds : VQADataset) :
  VQADataset_init root data prompt input_size pad = Ok ds ->
  read_text data = Ok (concat (ds_data ds))
  /\ Forall (fun line => line <> [] /\ ~ In 10%N (removelast line)) (ds_data ds)
  /\ Forall (fun line => last line 0%N = 10%N) (removelast (ds_data ds))
  /\ (VQADataset_len ds = 0 <-> read_text data = Ok []).
Proof.
  unfold VQADataset_init. intros H.
  destruct (read_text data) as [text | e]; [| discriminate].
  cbn [bind] in H. injection H as <-. cbn [ds_data].
  split; [rewrite readlines_concat; reflexivity |].
  split; [apply readlines_lines |].
  split; [apply readlines_terminated |].
  unfold VQADataset_len. cbn [ds_data]. split.
  - intros H0. destruct text as [| c text]; [reflexivity |].
    pose proof (readlines_concat (c :: text)) as Hc.
    destruct (readlines (c :: text)); [discriminate | cbn in H0; lia].
  - intros H0. injection H0 as ->. reflexivity.
Qed.

Lemma dataset_keeps_file_text_witness :
  exists ds,
    @VQADataset_init demo (str "data/pope/val2014")
                     (str "data/pope/llava_pope_test.jsonl") (str "") 224 false
    = Ok ds
    /\ @read_text demo (str "data/pope/llava_pope_test.jsonl")
       = Ok (concat (ds_data ds))
    /\ length (ds_data ds) = 3%nat.
Proof.
  eexists. split; [reflexivity |]. split; [| reflexivity].
  apply (dataset_keeps_file_text demo (str "data/pope/val2014")
           (str "data/pope/llava_pope_test.jsonl") (str "") 224 false _ eq_refl).
Defined.

Lemma py_index_out_of_range {A : Type} (l : list A) (i : Z) :
  i < - Z.of_nat (length l) \/ Z.of_nat (length l) <= i ->
  py_index l i = Raise IndexError.
Proof.
  intros H. unfold py_index.
  destruct (Z.ltb_spec i 0);
    destruct (Z.leb_spec 0 (i + Z.of_nat (length l)));
    destruct (Z.leb_spec 0 i);
    destruct (Z.ltb_spec i (Z.of_nat (length l)));
    destruct (Z.ltb_spec (i + Z.of_nat (length l)) (Z.of_nat (length l)));
    cbn [andb]; try reflexivity; lia.
Qed.

Lemma py_index_negative {A : Type} (l : list A) (i : Z) :
  - Z.of_nat (length l) <= i < 0 ->
  py_index l i = py_index l (i + Z.of_nat (length l)).
Proof.
  intros H. unfold py_index.
  destruct (Z.ltb_spec i 0); [| lia].
  destruct (Z.ltb_spec (i + Z.of_nat (length l)) 0); [lia |]. reflexivity.
Qed.

Lemma py_index_nth {A : Type} (l : list A) (i : nat) (a : A) :
  nth_error l i = Some a -> py_index l (Z.of_nat i) = Ok a.
Proof.
  intros H. unfold py_index.
  assert (i < length l)%nat by (apply nth_error_Some; congruence).
  destruct (Z.ltb_spec (Z.of_nat i) 0); [lia |].
  destruct (Z.leb_spec 0 (Z.of_nat i)); [| lia].
  destruct (Z.ltb_spec (Z.of_nat i) (Z.of_nat (length l))); [| lia].
  cbn [andb]. rewrite Nat2Z.id, H. reflexivity.
Qed.

(** X5.  [__getitem__] at an index outside [-len .. len-1] raises
    [IndexError]; a negative index inside that range reads the record
    counted from the end. *)
Theorem getitem_index_bounds (R : Runtime) (ds : VQADataset) (idx : Z) :
  let n := VQADataset_len ds in
  (idx < - n \/ n <= idx -> VQADataset_getitem ds idx = Raise IndexError)
  /\ (- n <= idx < 0 ->
      VQADataset_getitem ds idx = VQADataset_getitem ds (idx + n)).
Proof.
  unfold VQADataset_len, VQADataset_getitem. split; intros H.
  - rewrite py_index_out_of_range by exact H. reflexivity.
  - rewrite py_index_negative by exact H. reflexivity.
Qed.

Lemma lstrip_spaces (s : pystr) : forallb is_space s = true -> lstrip s = [].
Proof.
  induction s as [| c s IH]; [reflexivity |].
  cbn [forallb lstrip]. intros H. apply andb_prop in H as [Hc Hs].
  rewrite Hc. auto.
Qed.

(** X6.  A line that holds only white space is an item of the dataset, and
    reading it fails: [strip()] leaves the empty string, which
    [json.loads] refuses with a [JSONDecodeError]. *)
Theorem getitem_blank_line (R : Runtime) (ds : VQADataset) (idx : Z)
    (line : pystr) :
  py_index (ds_data ds) idx = Ok line ->
  forallb is_space line = true ->
  VQADataset_getitem ds idx = Raise JSONDecodeError.
Proof.
  intros Hline Hsp. unfold VQADataset_getitem. rewrite Hline. cbn [bind].
  unfold py_strip. rewrite (lstrip_spaces line Hsp). reflexivity.
Qed.

Lemma getitem_blank_line_witness :
  let ds := MkDataset demo (str "root") [str "{}"; [32; 10]%N] [] (fun i => Ok i) in
  @VQADataset_getitem demo ds 1 = Raise JSONDecodeError.
Proof.
  intros ds.
  exact (getitem_blank_line demo ds 1 [32; 10]%N eq_refl eq_refl).
Defined.

(** X7.  When [__getitem__] returns an item, the line was a JSON object
    whose [image] and [text] are strings; [question_id] is passed on as it
    was parsed, and [annotation] is the value of [answer], or [None] for a
    record without that key. *)
Theorem getitem_record_fields (R : Runtime) (ds : VQADataset) (idx : Z)
    (it : item) :
  VQADataset_getitem ds idx = Ok it ->
  exists line d image_s text,
    py_index (ds_data ds) idx = Ok line
    /\ json_loads (py_strip line) = Ok (PDict d)
    /\ assoc_get (str "image") d = Some (PStr image_s)
    /\ assoc_get (str "text") d = Some (PStr text)
    /\ assoc_get (str "question_id") d = Some (question_id it)
    /\ annotation it = match assoc_get (str "answer") d with
                       | Some a => a
                       | None => PNone
                       end
    /\ question it = text ++ str " " ++ ds_prompt ds.
Proof.
  unfold VQADataset_getitem. intros H.
  apply bind_Ok in H as [line [Hline H]].
  apply bind_Ok in H as [data [Hdata H]].
  apply bind_Ok in H as [image_v [Himage H]].
  apply bind_Ok in H as [question_v [Htext H]].
  apply bind_Ok in H as [qid [Hqid H]].
  apply bind_Ok in H as [ann [Hann H]].
  apply bind_Ok in H as [image_s [Himage_s H]].
  apply bind_Ok in H as [img [_ H]].
  apply bind_Ok in H as [t [_ H]].
  apply bind_Ok in H as [text [Htext_s H]].
  injection H as <-. cbn [question_id annotation question].
  apply as_str_Ok in Himage_s, Htext_s. subst image_v question_v.
  destruct data as [| b | z | s | l | d]; try discriminate.
  exists line, d, image_s, text. cbn [py_getitem py_get] in *.
  destruct (assoc_get (str "image") d); [| discriminate].
  destruct (assoc_get (str "text") d); [| discriminate].
  destruct (assoc_get (str "question_id") d); [| discriminate].
  injection Himage as ->. injection Htext as ->. injection Hqid as ->.
  repeat split; try assumption; try reflexivity.
  destruct (assoc_get (str "answer") d); injection Hann as <-; reflexivity.
Qed.

Lemma getitem_record_fields_witness :
  exists ds it d,
    @VQADataset_init demo (str "data/pope/val2014")
                     (str "data/pope/llava_pope_test.jsonl") (str "") 224 false
    = Ok ds
    /\ @VQADataset_getitem demo ds 0 = Ok it
    /\ assoc_get (str "question_id") d = Some (question_id it)
    /\ annotation it = PNone.
Proof.
  eexists. eexists.
  destruct (getitem_record_fields demo _ 0 _
              (eq_refl : @VQADataset_getitem demo
                 (MkDataset demo (str "data/pope/val2014")
                            (readlines demo_questions) (str "")
                            (fun i => Ok i)) 0 = Ok _))
    as [line [d [image_s [text [_ [_ [_ [_ [Hq [Ha _]]]]]]]]]].
  exists d. split; [reflexivity |]. split; [reflexivity |].
  split; [exact Hq | reflexivity].
Defined.

(** ** [json]: the normal form, and what [json.dumps] writes *)

Lemma land_1023 (x : N) : (N.land x 1023 < 1024)%N.
Proof.
  change 1023%N with (N.ones 10). rewrite N.land_ones.
  change (2 ^ 10)%N with 1024%N. lia.
Qed.

Lemma join_surrogates_range (hi lo : N) :
  (65536 <= join_surrogates hi lo < 1114112)%N.
Proof.
  unfold join_surrogates. rewrite N.shiftl_mul_pow2.
  rewrite lor_shifted by apply land_1023.
  pose proof (land_1023 hi). pose proof (land_1023 lo).
  change (2 ^ 10)%N with 1024%N. lia.
Qed.

Lemma join_surrogates_not_surrogate (hi lo : N) :
  is_high_surrogate (join_surrogates hi lo) = false
  /\ is_low_surrogate (join_surrogates hi lo) = false.
Proof.
  pose proof (join_surrogates_range hi lo) as H.
  unfold is_high_surrogate, is_low_surrogate.
  split; apply andb_false_intro2; apply N.leb_gt; lia.
Qed.

Lemma join_pairs_cons (c d : N) (r : pystr) :
  join_pairs (c :: d :: r)
  = if is_high_surrogate c && is_low_surrogate d
    then join_surrogates c d :: join_pairs r
    else c :: join_pairs (d :: r).
Proof. reflexivity. Qed.

Lemma pair_free_cons (c d : N) (r : pystr) :
  pair_free (c :: d :: r)
  = negb (is_high_surrogate c && is_low_surrogate d) && pair_free (d :: r).
Proof. reflexivity. Qed.

Lemma join_pairs_head (d : N) (r : pystr) :
  exists x t, join_pairs (d :: r) = x :: t
              /\ (is_low_surrogate x = true -> is_low_surrogate d = true).
Proof.
  destruct r as [| d2 r].
  - exists d, []. split; [reflexivity | trivial].
  - rewrite join_pairs_cons.
    destruct (is_high_surrogate d && is_low_surrogate d2).
    + eexists _, _. split; [reflexivity |].
      rewrite (proj2 (join_surrogates_not_surrogate d d2)). discriminate.
    + eexists _, _. split; [reflexivity | trivial].
Qed.

Lemma join_pairs_result (n : nat) :
  forall s, (length s <= n)%nat ->
    pair_free (join_pairs s) = true
    /\ (valid_str s -> valid_str (join_pairs s)).
Proof.
  induction n as [| n IH]; intros s Hn.
  - destruct s; [| cbn [length] in Hn; lia]. split; [reflexivity | trivial].
  - destruct s as [| c [| d r]].
    + split; [reflexivity | trivial].
    + split; [reflexivity | trivial].
    + rewrite join_pairs_cons.
      destruct (is_high_surrogate c && is_low_surrogate d) eqn:Epair.
      * destruct (IH r ltac:(cbn [length] in *; lia)) as [Hfree Hvalid].
        split.
        -- destruct (join_pairs r) as [| x t] eqn:Er; [reflexivity |].
           rewrite pair_free_cons, Hfree.
           rewrite (proj1 (join_surrogates_not_surrogate c d)). reflexivity.
        -- intros Hs. inversion Hs as [| ? ? _ Hs']; subst.
           inversion Hs' as [| ? ? _ Hr]; subst.
           constructor; [| apply Hvalid; exact Hr].
           apply join_surrogates_range.
      * destruct (IH (d :: r) ltac:(cbn [length] in *; lia)) as [Hfree Hvalid].
        split.
        -- destruct (join_pairs_head d r) as [x [t [Ex Hlow]]].
           rewrite Ex in *. rewrite pair_free_cons, Hfree, andb_true_r.
           apply negb_true_iff. apply andb_false_iff.
           apply andb_false_iff in Epair as [Hc | Hd]; [left; exact Hc |].
           right. destruct (is_low_surrogate x); [| reflexivity].
           rewrite Hlow in Hd by reflexivity. discriminate.
        -- intros Hs. inversion Hs as [| ? ? Hc Hs']; subst.
           constructor; [exact Hc | apply Hvalid; exact Hs'].
Qed.

Lemma pair_free_join_pairs (s : pystr) : pair_free (join_pairs s) = true.
Proof. apply (join_pairs_result (length s)). apply Nat.le_refl. Qed.

Lemma join_pairs_valid (s : pystr) : valid_str s -> valid_str (join_pairs s).
Proof. apply (join_pairs_result (length s)). apply Nat.le_refl. Qed.

Lemma pystr_eqb_eq (a b : pystr) : pystr_eqb a b = true -> a = b.
Proof.
  unfold pystr_eqb. destruct (list_eq_dec N.eq_dec a b); [trivial | discriminate].
Qed.

Lemma dict_set_keys (d : list (pystr * pyval)) (k : pystr) (v : pyval) :
  map fst (dict_set d k v) = map fst d
  \/ (~ In k (map fst d) /\ map fst (dict_set d k v) = map fst d ++ [k]).
Proof.
  induction d as [| [k' v'] d IH]; cbn [dict_set map fst].
  - right. split; [intros [] | reflexivity].
  - destruct (pystr_eqb k k') eqn:E; cbn [map fst].
    + left. reflexivity.
    + destruct IH as [IH | [Hfresh IH]]; [left; rewrite IH; reflexivity |].
      right. split.
      * intros [H | H]; [| contradiction]. subst k'.
        unfold pystr_eqb in E. destruct (list_eq_dec N.eq_dec k k); congruence.
      * rewrite IH. reflexivity.
Qed.

Lemma dict_set_NoDup (d : list (pystr * pyval)) (k : pystr) (v : pyval) :
  NoDup (map fst d) -> NoDup (map fst (dict_set d k v)).
Proof.
  intros H. destruct (dict_set_keys d k v) as [-> | [Hfresh ->]]; [exact H |].
  apply NoDup_app; [exact H | repeat constructor; intros [] |].
  intros x Hx [<- | []]. contradiction.
Qed.

Lemma dict_set_Forall (Q : pystr -> pyval -> Prop)
    (d : list (pystr * pyval)) (k : pystr) (v : pyval) :
  Forall (fun kv => Q (fst kv) (snd kv)) d -> Q k v ->
  Forall (fun kv => Q (fst kv) (snd kv)) (dict_set d k v).
Proof.
  intros Hd Hkv. induction Hd as [| [k' v'] d Hx Hd IH]; cbn [dict_set].
  - repeat constructor. exact Hkv.
  - destruct (pystr_eqb k k') eqn:E.
    + apply pystr_eqb_eq in E. subst k'. constructor; [exact Hkv | exact Hd].
    + constructor; [exact Hx | exact IH].
Qed.

Lemma fold_norm_member_invariant (Q : pystr -> pyval -> Prop)
    (d : list (pystr * pyval)) :
  Forall (fun kv => Q (join_pairs (fst kv)) (json_norm (snd kv))) d ->
  forall acc,
    NoDup (map fst acc) -> Forall (fun kv => Q (fst kv) (snd kv)) acc ->
    NoDup (map fst (fold_left norm_member d acc))
    /\ Forall (fun kv => Q (fst kv) (snd kv)) (fold_left norm_member d acc).
Proof.
  induction 1 as [| kv d Hkv _ IH]; intros acc Hnd Hacc; cbn [fold_left].
  - split; assumption.
  - apply IH.
    + apply dict_set_NoDup. exact Hnd.
    + apply dict_set_Forall; assumption.
Qed.

Lemma json_norm_is_stable (v : pyval) : stable_val (json_norm v).
Proof.
  induction v as [| b | z | s | l IH | d IH] using pyval_induction;
    try exact I.
  - cbn [json_norm stable_val]. apply pair_free_join_pairs.
  - cbn [json_norm]. apply stable_val_list. apply Forall_map. exact IH.
  - rewrite json_norm_dict. apply stable_val_dict.
    apply (fold_norm_member_invariant
             (fun k x => pair_free k = true /\ stable_val x)).
    + eapply Forall_impl; [| exact IH]. cbn beta. intros kv H.
      split; [apply pair_free_join_pairs | exact H].
    + constructor.
    + constructor.
Qed.

Lemma json_norm_is_valid (v : pyval) : valid_val v -> valid_val (json_norm v).
Proof.
  induction v as [| b | z | s | l IH | d IH] using pyval_induction;
    intros Hv; try exact I.
  - cbn [json_norm valid_val] in *. apply join_pairs_valid. exact Hv.
  - cbn [json_norm]. apply valid_val_list. apply valid_val_list in Hv.
    apply Forall_map. rewrite Forall_forall in *. auto.
  - rewrite json_norm_dict. apply valid_val_dict. apply valid_val_dict in Hv.
    apply (fold_norm_member_invariant (fun k x => valid_str k /\ valid_val x)).
    + rewrite Forall_forall in *. intros kv Hin.
      destruct (Hv kv Hin) as [Hk Hx].
      split; [apply join_pairs_valid; exact Hk | apply IH; assumption].
    + constructor.
    + constructor.
Qed.

Lemma json_loads_dumps_norm (v : pyval) :
  valid_val v -> json_loads (json_dumps (json_norm v)) = Ok (json_norm v).
Proof.
  intros Hv. apply json_loads_dumps_stable;
    [apply json_norm_is_valid; exact Hv | apply json_norm_is_stable].
Qed.



Lemma hex_digit_visible (d : N) : (d < 16)%N -> (33 <= hex_digit d <= 126)%N.
Proof. intros H. unfold hex_digit. destruct (N.ltb_spec d 10); lia. Qed.

Lemma hex4_visible (n : N) :
  (n < 65536)%N -> Forall (fun c => (33 <= c <= 126)%N) (hex4 n).
Proof.
  intros H. unfold hex4.
  repeat (first [apply Forall_nil | apply Forall_cons]);
    apply hex_digit_visible; lia.
Qed.

Lemma escape_char_printable (c : N) :
  valid_char c -> Forall (fun x => (32 <= x <= 126)%N) (escape_char c).
Proof.
  intros Hc. unfold valid_char in Hc.
  assert (Hhex : forall n, (n < 65536)%N ->
            Forall (fun x => (32 <= x <= 126)%N) (92 :: 117 :: hex4 n)%N).
  { intros n Hn. constructor; [lia |]. constructor; [lia |].
    eapply Forall_impl; [| apply hex4_visible; exact Hn]. cbn beta. lia. }
  unfold escape_char.
  repeat match goal with
         | |- context [(c =? ?k)%N] =>
             destruct (N.eqb_spec c k); [repeat constructor; lia |]
         end.
  destruct ((32 <=? c) && (c <=? 126))%N eqn:E.
  - apply andb_prop in E as [E1 E2]. apply N.leb_le in E1, E2.
    constructor; [lia | constructor].
  - destruct (N.ltb_spec c 65536); [apply Hhex; assumption |].
    destruct (surrogate_halves c ltac:(lia)) as [E1 [E2 Hq]].
    cbv zeta in E1, E2, Hq. cbv zeta. rewrite E1, E2.
    apply Forall_app. split; apply Hhex; lia.
Qed.

Lemma encode_printable (s : pystr) :
  valid_str s ->
  Forall (fun x => (32 <= x <= 126)%N) (encode_basestring_ascii s).
Proof.
  intros Hs. unfold encode_basestring_ascii.
  constructor; [lia |]. apply Forall_app. split; [| repeat constructor; lia].
  induction Hs as [| c s Hc _ IH]; [constructor |].
  cbn [flat_map]. apply Forall_app. split; [| exact IH].
  apply escape_char_printable. exact Hc.
Qed.

Lemma digits_of_visible (fuel : nat) :
  forall (n : N) (acc : pystr),
    Forall (fun c => (33 <= c <= 126)%N) acc ->
    Forall (fun c => (33 <= c <= 126)%N) (digits_of fuel n acc).
Proof.
  induction fuel as [| fuel IH]; intros n acc Hacc; cbn [digits_of];
    [exact Hacc |].
  assert (Hacc' : Forall (fun c => (33 <= c <= 126)%N) ((48 + n mod 10)%N :: acc))
    by (constructor; [lia | exact Hacc]).
  destruct (n <? 10)%N; [exact Hacc' | apply IH; exact Hacc'].
Qed.

Lemma repr_int_visible (z : Z) :
  Forall (fun c => (33 <= c <= 126)%N) (repr_int z).
Proof.
  unfold repr_int, repr_nat. destruct (z <? 0).
  - constructor; [lia |]. apply digits_of_visible. constructor.
  - apply digits_of_visible. constructor.
Qed.

Lemma join_printable (parts : list pystr) :
  Forall (Forall (fun x => (32 <= x <= 126)%N)) parts ->
  Forall (fun x => (32 <= x <= 126)%N) (join [44; 32]%N parts).
Proof.
  induction 1 as [| p parts Hp Hparts IH]; [constructor |].
  destruct parts as [| q parts]; [exact Hp |].
  rewrite join_cons2. apply Forall_app. split; [exact Hp |].
  apply Forall_app. split; [repeat constructor; lia | exact IH].
Qed.

Lemma json_dumps_printable (v : pyval) :
  valid_val v -> Forall (fun x => (32 <= x <= 126)%N) (json_dumps v).
Proof.
  induction v as [| b | z | s | l IH | d IH] using pyval_induction; intros Hv.
  - repeat constructor; lia.
  - destruct b; repeat constructor; lia.
  - cbn [json_dumps]. eapply Forall_impl; [| apply repr_int_visible].
    cbn beta. lia.
  - apply encode_printable. exact Hv.
  - cbn [json_dumps]. apply valid_val_list in Hv.
    constructor; [lia |]. apply Forall_app. split; [| repeat constructor; lia].
    apply join_printable. apply Forall_map.
    rewrite Forall_forall in *. auto.
  - rewrite json_dumps_dict. apply valid_val_dict in Hv.
    constructor; [lia |]. apply Forall_app. split; [| repeat constructor; lia].
    apply join_printable. apply Forall_map.
    rewrite Forall_forall in *. intros kv Hin.
    destruct (Hv kv Hin) as [Hk Hx]. unfold dump_member.
    apply Forall_app. split; [apply encode_printable; exact Hk |].
    apply Forall_app. split; [repeat constructor; lia | auto].
Qed.

(** X9.  What [json.dumps] writes is printable ASCII ([ensure_ascii]):
    every character lies between the space and the tilde, so the text
    holds no line feed. *)
Theorem json_dumps_ascii (v : pyval) :
  valid_val v ->
  Forall (fun c => (32 <= c <= 126)%N) (json_dumps v)
  /\ ~ In 10%N (json_dumps v).
Proof.
  intros Hv. pose proof (json_dumps_printable v Hv) as H.
  split; [exact H |]. intros Hin.
  apply (proj1 (Forall_forall _ _) H) in Hin. lia.
Qed.

Lemma json_dumps_ascii_witness :
  Forall (fun c => (32 <= c <= 126)%N)
         (json_dumps (PList [prediction (PInt (-7)) [233; 10; 128512]%N (str "ckpt")]))
  /\ json_dumps (PStr [233; 10; 128512]%N)
     = str (String (ascii_of_nat 34) ("\u00e9\n\ud83d\ude00"
                                      ++ String (ascii_of_nat 34) EmptyString)).
Proof.
  split; [| reflexivity].
  apply json_dumps_ascii.
  cbn [valid_val prediction fst snd]. unfold valid_str.
  repeat (first [apply Forall_nil | apply Forall_cons | split | exact I
                 | reflexivity]).
Defined.

Lemma json_dumps_last (v : pyval) : last (json_dumps v) 0%N <> 32%N.
Proof.
  destruct v as [| [|] | z | s | l | d]; cbn [json_dumps]; try (cbn; discriminate).
  - pose proof (repr_int_visible z) as H.
    destruct (repr_int_head z) as [c [tl [E _]]].
    assert (Hne : repr_int z <> []) by (rewrite E; discriminate).
    rewrite (app_removelast_last 0%N Hne) in H.
    apply Forall_app in H as [_ H]. inversion H; subst. lia.
  - unfold encode_basestring_ascii.
    change (34%N :: flat_map escape_char s ++ [34%N])
      with ((34%N :: flat_map escape_char s) ++ [34%N]).
    rewrite last_last. discriminate.
  - rewrite app_comm_cons, last_last. discriminate.
  - rewrite app_comm_cons, last_last. discriminate.
Qed.

Lemma is_space_printable (c : N) :
  (32 <= c <= 126)%N -> c <> 32%N -> is_space c = false.
Proof.
  intros H Hc. unfold is_space.
  repeat match goal with
         | |- context [(?a <=? ?b)%N] => destruct (N.leb_spec a b); try lia
         | |- context [(?a =? ?b)%N] => destruct (N.eqb_spec a b); try lia
         end; reflexivity.
Qed.

Lemma py_strip_line (d : pystr) :
  d <> [] -> is_space (hd 0%N d) = false -> is_space (last d 0%N) = false ->
  py_strip (d ++ [10%N]) = d.
Proof.
  intros Hne Hhd Hlast. unfold py_strip.
  destruct d as [| c d']; [contradiction |].
  cbn [hd] in Hhd. cbn [app lstrip]. rewrite Hhd.
  change (c :: d' ++ [10%N]) with ((c :: d') ++ [10%N]).
  rewrite rev_unit. cbn [lstrip]. change (is_space 10) with true. cbv iota.
  rewrite (app_removelast_last 0%N Hne) at 1.
  rewrite rev_unit. cbn [lstrip]. rewrite Hlast.
  rewrite <- rev_unit, <- app_removelast_last by exact Hne.
  apply rev_involutive.
Qed.

Lemma py_strip_json_line (v : pyval) :
  valid_val v -> py_strip (json_dumps v ++ [10%N]) = json_dumps v.
Proof.
  intros Hv. pose proof (json_dumps_printable v Hv) as Hp.
  destruct (json_dumps_head v) as [c [t [E [Hws _]]]].
  assert (Hne : json_dumps v <> []) by (rewrite E; discriminate).
  apply py_strip_line; [exact Hne | |].
  - rewrite E in *. cbn [hd]. inversion Hp; subst.
    apply is_space_printable; [assumption |].
    intros ->. discriminate.
  - apply is_space_printable; [| apply json_dumps_last].
    rewrite (app_removelast_last 0%N Hne) in Hp.
    apply Forall_app in Hp as [_ Hp]. inversion Hp; subst. assumption.
Qed.

Lemma readlines_line (l rest : pystr) :
  ~ In 10%N l -> readlines (l ++ 10%N :: rest) = (l ++ [10%N]) :: readlines rest.
Proof.
  induction l as [| c l IH]; intros Hl.
  - reflexivity.
  - cbn [app readlines].
    destruct (N.eqb_spec c 10) as [-> | Hc]; [exfalso; apply Hl; left; reflexivity |].
    rewrite IH by (intros H; apply Hl; right; exact H). reflexivity.
Qed.

Lemma readlines_terminated_lines (ls : list pystr) :
  Forall (fun l => ~ In 10%N l) ls ->
  readlines (concat (map (fun l => l ++ [10%N]) ls))
  = map (fun l => l ++ [10%N]) ls.
Proof.
  induction 1 as [| l ls Hl _ IH]; [reflexivity |].
  cbn [map concat]. rewrite <- app_assoc. cbn [app].
  rewrite readlines_line by exact Hl. rewrite IH. reflexivity.
Qed.

(** X10.  A question file written one record per line with [json.dumps]
    is read back record by record: the dataset has one item per record,
    and the line at index [i], stripped and parsed as [__getitem__] does,
    is the normal form of record [i]. *)
Theorem jsonl_records_read_back (R : Runtime) (root data prompt : pystr)
    (input_size : Z) (pad : bool) (records : list pyval) :
  Forall valid_val records ->
  read_text data = Ok (concat (map (fun v => json_dumps v ++ [10%N]) records)) ->
  exists ds,
    VQADataset_init root data prompt input_size pad = Ok ds
    /\ VQADataset_len ds = Z.of_nat (length records)
    /\ forall i v,
         nth_error records i = Some v ->
         exists line,
           py_index (ds_data ds) (Z.of_nat i) = Ok line
           /\ json_loads (py_strip line) = Ok (json_norm v).
Proof.
  intros Hvalid Htext. unfold VQADataset_init. rewrite Htext. cbn [bind].
  eexists. split; [reflexivity |].
  unfold VQADataset_len. cbn [ds_data].
  rewrite <- (map_map json_dumps (fun l => l ++ [10%N])).
  rewrite readlines_terminated_lines.
  2:{ apply Forall_map. eapply Forall_impl; [| exact Hvalid].
      cbn beta. intros v Hv Hin.
      apply (proj1 (Forall_forall _ _) (json_dumps_printable v Hv)) in Hin. lia. }
  rewrite map_map. split; [rewrite length_map; reflexivity |].
  intros i v Hi. exists (json_dumps v ++ [10%N]). split.
  - apply py_index_nth. rewrite nth_error_map, Hi. reflexivity.
  - assert (Hv : valid_val v).
    { apply (proj1 (Forall_forall _ _) Hvalid). eapply nth_error_In. exact Hi. }
    rewrite py_strip_json_line by exact Hv. apply json_loads_dumps. exact Hv.
Qed.

Lemma jsonl_records_read_back_witness :
  let records := [PDict [(str "image", PStr (str "a.jpg")); (str "question_id", PInt 1)];
                  PDict [(str "image", PStr (str "b.jpg")); (str "question_id", PInt 2)]] in
  let R := demo_runtime
             [(str "q.jsonl", concat (map (fun v => json_dumps v ++ [10%N]) records))] in
  exists ds,
    VQADataset_init (str "root") (str "q.jsonl") (str "") 224 false = Ok ds
    /\ VQADataset_len ds = 2.
Proof.
  intros records R.
  assert (Hv : Forall valid_val records).
  { repeat (first [apply Forall_nil | apply Forall_cons]);
      cbn [valid_val fst snd]; unfold valid_str;
      repeat (first [apply Forall_nil | apply Forall_cons | split | exact I
                     | reflexivity]). }
  destruct (jsonl_records_read_back R (str "root") (str "q.jsonl") (str "") 224
              false records Hv eq_refl) as [ds [H1 [H2 _]]].
  exists ds. split; [exact H1 | exact H2].
Defined.

(** X11.  A line written by [json.dumps] from a record with the keys
    [image], [text] and [question_id] is read into the item with that
    question id, the text followed by a space and the prompt, no
    annotation, and the pixel values of the image found under the root. *)
Theorem getitem_reads_written_record (R : Runtime) (ds : VQADataset) (idx : Z)
    (img q : pystr) (qid : pyval) :
  valid_str img -> valid_str q -> valid_val qid ->
  py_index (ds_data ds) idx
  = Ok (json_dumps (PDict [(str "image", PStr img); (str "text", PStr q);
                           (str "question_id", qid)]) ++ [10%N]) ->
  VQADataset_getitem ds idx
  = (im <- Image_open (os_path_join (ds_root ds) (join_pairs img)) ;;
     t <- ds_transform ds im ;;
     Ok (MkItem R (json_norm qid) (join_pairs q ++ str " " ++ ds_prompt ds)
                (unsqueeze0 t) PNone)).
Proof.
  intros Himg Hq Hqid Hline.
  set (record := PDict [(str "image", PStr img); (str "text", PStr q);
                        (str "question_id", qid)]) in *.
  assert (Hv : valid_val record).
  { cbn [record valid_val fst snd]. unfold valid_str in *.
    repeat split; try assumption;
      repeat (first [apply Forall_nil | apply Forall_cons]); reflexivity. }
  unfold VQADataset_getitem. rewrite Hline. cbn [bind].
  rewrite py_strip_json_line by exact Hv.
  rewrite json_loads_dumps by exact Hv. cbn [bind].
  assert (Hn : json_norm record
               = PDict [(str "image", PStr (join_pairs img));
                        (str "text", PStr (join_pairs q));
                        (str "question_id", json_norm qid)]).
  { unfold record. rewrite json_norm_dict. reflexivity. }
  rewrite Hn.
  change (py_getitem (PDict _) (str "image")) with (Ok (PStr (join_pairs img))).
  cbn [bind].
  change (py_getitem (PDict _) (str "text")) with (Ok (PStr (join_pairs q))).
  cbn [bind].
  change (py_getitem (PDict _) (str "question_id")) with (Ok (json_norm qid)).
  cbn [bind].
  change (py_get (PDict _) (str "answer") PNone) with (Ok PNone).
  cbn [bind as_str].
  destruct (Image_open _) as [im | e]; [| reflexivity]. cbn [bind].
  destruct (ds_transform ds im) as [t | e]; reflexivity.
Qed.

Lemma getitem_reads_written_record_witness :
  let line := json_dumps (PDict [(str "image", PStr (str "a.jpg"));
                                 (str "text", PStr (str "Is there a cat?"));
                                 (str "question_id", PInt 1)]) ++ [10%N] in
  let ds := MkDataset demo (str "data/pope/val2014") [line] []
                      (fun i => Ok i) in
  @VQADataset_getitem demo ds 0
  = Ok (MkItem demo (PInt 1) (str "Is there a cat? ")
               (str "data/pope/val2014/a.jpg") PNone).
Proof.
  intros line ds.
  rewrite (getitem_reads_written_record demo ds 0 (str "a.jpg")
             (str "Is there a cat?") (PInt 1)).
  - reflexivity.
  - apply valid_str_literal. reflexivity.
  - apply valid_str_literal. reflexivity.
  - exact I.
  - reflexivity.
Defined.

(** ** The loader and the loop *)

Lemma batch_sampler_concat {A : Type} (size : nat) (l : list A) :
  forall batch, concat (batch_sampler size batch l) = rev batch ++ l.
Proof.
  induction l as [| idx l IH]; intros batch; cbn [batch_sampler].
  - destruct batch as [| a batch]; [reflexivity |].
    cbn [concat]. rewrite !app_nil_r. reflexivity.
  - destruct (length (idx :: batch) =? size)%nat.
    + cbn [concat]. rewrite IH. cbn [rev app].
      rewrite <- app_assoc. reflexivity.
    + rewrite IH. cbn [rev]. rewrite <- app_assoc. reflexivity.
Qed.

Lemma batch_sampler_sizes {A : Type} (size : nat) (l : list A) :
  forall batch, (length batch < size)%nat ->
    Forall (fun b => b <> [] /\ (length b <= size)%nat)
           (batch_sampler size batch l).
Proof.
  induction l as [| idx l IH]; intros batch Hb; cbn [batch_sampler].
  - destruct batch as [| a batch]; [constructor |].
    constructor; [| constructor]. split.
    + cbn [rev]. intros E. apply app_eq_nil in E as [_ E]. discriminate.
    + rewrite length_rev. lia.
  - destruct (Nat.eqb_spec (length (idx :: batch)) size) as [E | E].
    + constructor; [| apply IH; cbn [length] in *; lia]. split.
      * cbn [rev]. intros E'. apply app_eq_nil in E' as [_ E']. discriminate.
      * rewrite length_rev. lia.
    + apply IH. cbn [length] in *. lia.
Qed.

(** X12.  The loader refuses a batch size that is not positive with
    [ValueError]; otherwise its batches, one after the other, are the
    indices of the sampler, no batch is empty or longer than the batch
    size, and every collated batch has as many questions as indices, so
    [questions[0]] exists. *)
Theorem loader_batches (R : Runtime) (ds : VQADataset) (batch_size : Z)
    (indices : list Z) :
  (batch_size <= 0 -> dataloader_batches batch_size indices = Raise ValueError)
  /\ (0 < batch_size ->
      exists batches,
        dataloader_batches batch_size indices = Ok batches
        /\ concat batches = indices
        /\ Forall (fun b => b <> [] /\ Z.of_nat (length b) <= batch_size) batches
        /\ forall b pixels questions qids anns,
             In b batches ->
             fetch ds b = Ok (pixels, questions, qids, anns) ->
             length questions = length b
             /\ exists q0, py_index questions 0 = Ok q0).
Proof.
  unfold dataloader_batches. split; intros H.
  - destruct (Z.ltb_spec 0 batch_size); [lia | reflexivity].
  - destruct (Z.ltb_spec 0 batch_size); [| lia].
    eexists. split; [reflexivity |].
    pose proof (batch_sampler_sizes (Z.to_nat batch_size) indices []
                  ltac:(cbn [length]; lia)) as Hs.
    split; [apply batch_sampler_concat |]. split.
    + eapply Forall_impl; [| exact Hs]. cbn beta. intros b [Hb Hl].
      split; [exact Hb | lia].
    + intros b pixels questions qids anns Hin Hf.
      apply (proj1 (Forall_forall _ _) Hs) in Hin as [Hne _].
      unfold fetch in Hf. apply bind_Ok in Hf as [items [Hitems Hf]].
      injection Hf as _ <- _ _.
      assert (Hlen : length items = length b).
      { clear Hne. revert items Hitems.
        induction b as [| i b IH]; intros items Hitems.
        - injection Hitems as <-. reflexivity.
        - cbn [mapM] in Hitems.
          apply bind_Ok in Hitems as [it [_ Hitems]].
          apply bind_Ok in Hitems as [its [Hits Hitems]].
          injection Hitems as <-. cbn [length]. f_equal. apply IH. exact Hits. }
      rewrite length_map. split; [exact Hlen |].
      destruct items as [| it items].
      * destruct b; [contradiction | discriminate].
      * cbn [map]. eexists. apply py_index_head.
Qed.

Lemma mapM_Forall2 {A B : Type} (f : A -> result B) (l : list A) :
  forall outs, mapM f l = Ok outs -> Forall2 (fun a b => f a = Ok b) l outs.
Proof.
  induction l as [| a l IH]; intros outs H; cbn [mapM] in H.
  - injection H as <-. constructor.
  - apply bind_Ok in H as [b [Hb H]]. apply bind_Ok in H as [bs [Hbs H]].
    injection H as <-. constructor; [exact Hb | apply IH; exact Hbs].
Qed.

(** X13.  With batch size 1, a process that finishes its loop has one
    prediction per index of its sampler, in the order of the sampler; the
    prediction for an index carries the question id of the record at that
    index and the answer of the model to the question of that record. *)
Theorem one_prediction_per_index (R : Runtime) (args : Args) (ds_name : pystr)
    (pg : process_group) (outs : list pyval) :
  arg_batch_size args = 1 ->
  local_outputs args ds_name pg = Ok outs ->
  exists cfg ds sampler,
    ds_lookup ds_name = Ok cfg
    /\ VQADataset_init (cfg_root cfg) (cfg_question cfg) (str "")
                       image_size pad2square = Ok ds
    /\ InferenceSampler_init pg (VQADataset_len ds) = Ok sampler
    /\ Z.of_nat (length outs) = InferenceSampler_len sampler
    /\ Forall2 (fun idx p =>
                  exists it answer,
                    VQADataset_getitem ds idx = Ok it
                    /\ model_chat (arg_template args)
                                  (to_bfloat16_cuda (torch_cat [pixel_values it]))
                                  (question it)
                                  (make_generation_config args cfg) = Ok answer
                    /\ p = prediction (question_id it) answer (arg_checkpoint args))
               (InferenceSampler_iter sampler) outs.
Proof.
  intros Hbs H. rewrite local_outputs_batch_one in H by exact Hbs.
  apply bind_Ok in H as [cfg [Hcfg H]].
  apply bind_Ok in H as [ds [Hds H]].
  apply bind_Ok in H as [sampler [Hs H]].
  exists cfg, ds, sampler. repeat (split; [assumption |]).
  apply mapM_Forall2 in H. split.
  - rewrite <- (Forall2_length H). unfold InferenceSampler_iter, InferenceSampler_len.
    destruct (_local_indices sampler) as [a b]. apply range_list_length.
  - eapply Forall2_impl; [| exact H]. cbn beta. intros idx p Hp.
    unfold predict_one in Hp.
    apply bind_Ok in Hp as [it [Hit Hp]].
    apply bind_Ok in Hp as [answer [Hans Hp]].
    injection Hp as <-. exists it, answer. repeat split; assumption.
Qed.

Lemma one_prediction_per_index_witness :
  exists outs sampler,
    @local_outputs demo (demo_args 1) (str "pope") (ProcessGroup 0 2) = Ok outs
    /\ Z.of_nat (length outs) = InferenceSampler_len sampler
    /\ Forall2 (fun idx p => exists it, py_getitem p (str "question_id")
                                        = Ok (@question_id demo it))
               (InferenceSampler_iter sampler) outs.
Proof.
  eexists.
  destruct (one_prediction_per_index demo (demo_args 1) (str "pope")
              (ProcessGroup 0 2) _ eq_refl eq_refl)
    as [cfg [ds [sampler [_ [_ [_ [Hlen Hall]]]]]]].
  exists sampler. split; [reflexivity |]. split; [exact Hlen |].
  eapply Forall2_impl; [| exact Hall]. cbn beta.
  intros idx p [it [answer [_ [_ ->]]]]. exists it. reflexivity.
Defined.

Lemma eval_collated_batch {R : Runtime} (args : Args) (cfg : ds_config)
    (it : item) (its : list item) :
  eval_batch args cfg (collate_fn (it :: its))
  = (answer <- model_chat (arg_template args)
                 (to_bfloat16_cuda (torch_cat (map pixel_values (it :: its))))
                 (question it) (make_generation_config args cfg) ;;
     Ok [prediction (question_id it) answer (arg_checkpoint args)]).
Proof.
  unfold collate_fn, eval_batch. cbn [map].
  rewrite py_index_head. cbn [bind].
  destruct (model_chat _ _ _ _) as [answer | e]; [| reflexivity].
  cbn [bind zip3 map]. destruct (map question_id its), (map annotation its);
    reflexivity.
Qed.

Lemma mapM_Ok_cons {A B : Type} (f : A -> result B) (a : A) (l : list A)
    (outs : list B) :
  mapM f (a :: l) = Ok outs ->
  exists b bs, outs = b :: bs /\ f a = Ok b /\ mapM f l = Ok bs.
Proof.
  cbn [mapM]. intros H.
  apply bind_Ok in H as [b [Hb H]]. apply bind_Ok in H as [bs [Hbs H]].
  injection H as <-. exists b, bs. repeat split; assumption.
Qed.

Lemma Forall2_concat_singletons {A B : Type} (P : A -> B -> Prop)
    (l : list A) (ls : list (list B)) :
  Forall2 (fun a out => exists b, out = [b] /\ P a b) l ls ->
  Forall2 P l (concat ls).
Proof.
  induction 1 as [| a out l ls [b [-> Hb]] _ IH]; [constructor |].
  cbn [concat app]. constructor; assumption.
Qed.

(** X14.  For any batch size, a process that finishes its loop has one
    prediction per batch, in the order of the batches: the prediction of a
    batch carries the question id of its first record and the answer of the
    model to the question of that record, asked about the pixel values of
    the whole batch.  The other records of a batch of several get no
    prediction. *)
Theorem one_prediction_per_batch (R : Runtime) (args : Args) (ds_name : pystr)
    (pg : process_group) (outs : list pyval) :
  local_outputs args ds_name pg = Ok outs ->
  exists cfg ds sampler batches,
    ds_lookup ds_name = Ok cfg
    /\ VQADataset_init (cfg_root cfg) (cfg_question cfg) (str "")
                       image_size pad2square = Ok ds
    /\ InferenceSampler_init pg (VQADataset_len ds) = Ok sampler
    /\ dataloader_batches (arg_batch_size args) (InferenceSampler_iter sampler)
       = Ok batches
    /\ length outs = length batches
    /\ Forall2 (fun b p =>
                  exists it its answer,
                    mapM (VQADataset_getitem ds) b = Ok (it :: its)
                    /\ model_chat (arg_template args)
                         (to_bfloat16_cuda (torch_cat (map pixel_values (it :: its))))
                         (question it) (make_generation_config args cfg)
                       = Ok answer
                    /\ p = prediction (question_id it) answer (arg_checkpoint args))
               batches outs.
Proof.
  unfold local_outputs. intros H.
  apply bind_Ok in H as [cfg [Hcfg H]].
  apply bind_Ok in H as [ds [Hds H]].
  apply bind_Ok in H as [sampler [Hs H]].
  apply bind_Ok in H as [batches [Hb H]].
  apply bind_Ok in H as [parts [Hparts H]].
  injection H as <-.
  exists cfg, ds, sampler, batches. repeat (split; [assumption |]).
  assert (Hne : Forall (fun b => b <> []) batches).
  { unfold dataloader_batches in Hb.
    destruct (Z.ltb_spec 0 (arg_batch_size args)); [| discriminate].
    injection Hb as <-.
    eapply Forall_impl;
      [| apply (batch_sampler_sizes (Z.to_nat (arg_batch_size args)));
         cbn [length]; lia].
    cbn beta. intros b [Hb _]. exact Hb. }
  assert (HF : Forall2 (fun b p =>
                  exists it its answer,
                    mapM (VQADataset_getitem ds) b = Ok (it :: its)
                    /\ model_chat (arg_template args)
                         (to_bfloat16_cuda (torch_cat (map pixel_values (it :: its))))
                         (question it) (make_generation_config args cfg)
                       = Ok answer
                    /\ p = prediction (question_id it) answer (arg_checkpoint args))
               batches (concat parts)).
  { apply Forall2_concat_singletons.
    apply mapM_Forall2 in Hparts.
    clear Hb. induction Hparts as [| b out batches parts Hout _ IH];
      [constructor |].
    inversion Hne as [| ? ? Hbne Hne']; subst.
    constructor; [| apply IH; exact Hne'].
    apply bind_Ok in Hout as [batch [Hfetch Hout]].
    unfold fetch in Hfetch. apply bind_Ok in Hfetch as [items [Hitems Hfetch]].
    injection Hfetch as <-.
    destruct b as [| idx b]; [contradiction |].
    destruct (mapM_Ok_cons _ _ _ _ Hitems) as [it [its [-> _]]].
    rewrite eval_collated_batch in Hout.
    apply bind_Ok in Hout as [answer [Hans Hout]]. injection Hout as <-.
    eexists. split; [reflexivity |].
    exists it, its, answer. repeat split; assumption. }
  split; [symmetry; apply (Forall2_length HF) | exact HF].
Qed.

Lemma one_prediction_per_batch_witness :
  exists outs batches,
    @local_outputs demo (demo_args 2) (str "pope") (ProcessGroup 0 1) = Ok outs
    /\ length outs = 2%nat
    /\ length outs = length batches
    /\ Forall2 (fun (b : list Z) p =>
                  exists it, py_getitem p (str "question_id")
                             = Ok (@question_id demo it))
               batches outs.
Proof.
  eexists.
  destruct (one_prediction_per_batch demo (demo_args 2) (str "pope")
              (ProcessGroup 0 1) _ eq_refl)
    as [cfg [ds [sampler [batches [_ [_ [_ [_ [Hlen Hall]]]]]]]]].
  exists batches. split; [reflexivity |]. split; [reflexivity |].
  split; [exact Hlen |].
  eapply Forall2_impl; [| exact Hall]. cbn beta.
  intros b p [it [its [answer [_ [_ ->]]]]]. exists it. reflexivity.
Defined.

(** ** The driver: datasets, ranks and the results file *)




(** X16.  An empty question file makes the evaluation of the dataset fail
    with the sampler's assertion, on every rank and for every batch size,
    before the barrier is reached. *)
Theorem empty_question_file (R : Runtime) (args : Args) (pg : process_group)
    (name : pystr) (cfg : ds_config) :
  ds_lookup name = Ok cfg ->
  read_text (cfg_question cfg) = Ok [] ->
  local_outputs args name pg = Raise (AssertionError "")
  /\ evaluate_dataset args pg name
     = ([EvEvaluate name], Raise (AssertionError "")).
Proof.
  intros Hcfg Htext.
  assert (E : local_outputs args name pg = Raise (AssertionError "")).
  { unfold local_outputs. rewrite Hcfg. cbn [bind].
    unfold VQADataset_init. rewrite Htext. reflexivity. }
  split; [exact E |].
  unfold evaluate_dataset. rewrite E. reflexivity.
Qed.

Lemma empty_question_file_witness :
  let R := demo_runtime [(str "data/pope/llava_pope_test.jsonl", [])] in
  local_outputs (demo_args 1) (str "pope") (ProcessGroup 0 1)
  = Raise (AssertionError "")
  /\ evaluate_dataset (demo_args 1) (ProcessGroup 0 1) (str "pope")
     = ([EvEvaluate (str "pope")], Raise (AssertionError "")).
Proof.
  exact (empty_question_file
           (demo_runtime [(str "data/pope/llava_pope_test.jsonl", [])])
           (demo_args 1) (ProcessGroup 0 1) (str "pope")
           (DsConfig (str "data/pope/val2014")
                     (str "data/pope/llava_pope_test.jsonl") PNone 100 1)
           eq_refl eq_refl).
Defined.

Lemma split_char_nonempty (sep : N) (s : pystr) : split_char sep s <> [].
Proof.
  induction s as [| c s IH]; cbn [split_char]; [discriminate |].
  destruct (c =? sep)%N; [discriminate |].
  destruct (split_char sep s); discriminate.
Qed.

(** X17.  Cutting a string at a separator loses nothing: the pieces
    joined with the separator are the string, no piece holds the
    separator, and there is one piece more than there are separators; in
    particular [--datasets] always gives at least one dataset name. *)
Theorem split_join_round_trip (sep : N) (s : pystr) :
  join [sep] (split_char sep s) = s
  /\ split_char sep s <> []
  /\ Forall (fun piece => ~ In sep piece) (split_char sep s)
  /\ length (split_char sep s) = S (count_occ N.eq_dec s sep).
Proof.
  split; [| split; [apply split_char_nonempty | split]].
  - induction s as [| c s IH]; [reflexivity |].
    cbn [split_char]. pose proof (split_char_nonempty sep s) as Hne.
    destruct (N.eqb_spec c sep) as [-> | Hc].
    + destruct (split_char sep s) as [| p ps]; [contradiction |].
      rewrite join_cons2, IH. reflexivity.
    + destruct (split_char sep s) as [| p ps]; [contradiction |].
      destruct ps as [| q ps].
      * cbn [join] in *. rewrite IH. reflexivity.
      * rewrite join_cons2 in *. rewrite <- IH. reflexivity.
  - induction s as [| c s IH]; cbn [split_char].
    + constructor; [intros [] | constructor].
    + destruct (N.eqb_spec c sep) as [-> | Hc].
      * constructor; [intros [] | exact IH].
      * destruct (split_char sep s) as [| p ps].
        -- constructor; [| constructor]. intros [H | []]. congruence.
        -- inversion IH as [| ? ? Hp Hps]; subst.
           constructor; [| exact Hps]. intros [H | H]; [congruence | auto].
  - induction s as [| c s IH]; [reflexivity |].
    cbn [split_char count_occ]. pose proof (split_char_nonempty sep s) as Hne.
    destruct (N.eqb_spec c sep) as [-> | Hc].
    + destruct (N.eq_dec sep sep); [| congruence]. cbn [length]. rewrite IH.
      reflexivity.
    + destruct (N.eq_dec c sep); [congruence |].
      destruct (split_char sep s) as [| p ps]; [contradiction |].
      exact IH.
Qed.

Lemma local_outputs_shard {R : Runtime} (args : Args) (ds_name : pystr)
    (cfg : ds_config) (ds : VQADataset) (world_size r : Z) :
  arg_batch_size args = 1 ->
  ds_lookup ds_name = Ok cfg ->
  VQADataset_init (cfg_root cfg) (cfg_question cfg) (str "")
                  image_size pad2square = Ok ds ->
  0 < VQADataset_len ds -> 1 <= world_size -> 0 <= r < world_size ->
  local_outputs args ds_name (ProcessGroup r world_size)
  = mapM (predict_one args cfg ds)
         (range_list (Range (boundary (VQADataset_len ds) world_size r)
                            (boundary (VQADataset_len ds) world_size (r + 1)))).
Proof.
  intros Hbs Hcfg Hds Hn Hws Hr.
  rewrite local_outputs_batch_one by exact Hbs.
  rewrite Hcfg. cbn [bind]. rewrite Hds. cbn [bind].
  rewrite InferenceSampler_init_rank by lia. reflexivity.
Qed.

Lemma locals_concat_single {R : Runtime} (args : Args) (ds_name : pystr)
    (world_size : Z) (locals : list (list pyval)) :
  arg_batch_size args = 1 -> 1 <= world_size ->
  mapM (fun r => local_outputs args ds_name (ProcessGroup r world_size))
       (range_list (Range 0 world_size)) = Ok locals ->
  local_outputs args ds_name (ProcessGroup 0 1) = Ok (concat locals).
Proof.
  intros Hbs Hws Hlocals.
  pose proof (ranks_nonempty world_size Hws) as Hranks.
  destruct (ds_lookup ds_name) as [cfg | e] eqn:Hcfg.
  2:{ rewrite (mapM_ext_in _ (fun _ => Raise e)) in Hlocals.
      - rewrite mapM_raise in Hlocals by exact Hranks. discriminate.
      - intros r _. unfold local_outputs. rewrite Hcfg. reflexivity. }
  destruct (VQADataset_init (cfg_root cfg) (cfg_question cfg) (str "")
                            image_size pad2square) as [ds | e] eqn:Hds.
  2:{ rewrite (mapM_ext_in _ (fun _ => Raise e)) in Hlocals.
      - rewrite mapM_raise in Hlocals by exact Hranks. discriminate.
      - intros r _. unfold local_outputs. rewrite Hcfg. cbn [bind].
        rewrite Hds. reflexivity. }
  destruct (Z.lt_ge_cases 0 (VQADataset_len ds)) as [Hn | Hn].
  2:{ rewrite (mapM_ext_in _ (fun _ => Raise (AssertionError ""))) in Hlocals.
      - rewrite mapM_raise in Hlocals by exact Hranks. discriminate.
      - intros r _. unfold local_outputs. rewrite Hcfg. cbn [bind].
        rewrite Hds. cbn [bind].
        rewrite InferenceSampler_init_empty by lia. reflexivity. }
  set (n := VQADataset_len ds) in *.
  rewrite (mapM_ext_in _
             (fun r => mapM (predict_one args cfg ds)
                            (range_list (Range (boundary n world_size r)
                                               (boundary n world_size (r + 1))))))
    in Hlocals.
  2:{ intros r Hr. apply range_list_In in Hr.
      apply local_outputs_shard; assumption || lia. }
  rewrite <- (mapM_map (fun r => range_list (Range (boundary n world_size r)
                                                    (boundary n world_size (r + 1))))
                       (mapM (predict_one args cfg ds))) in Hlocals.
  pose proof (mapM_concat (predict_one args cfg ds)
                (map (fun r => range_list (Range (boundary n world_size r)
                                                 (boundary n world_size (r + 1))))
                     (range_list (Range 0 world_size)))) as Hc.
  rewrite Hlocals in Hc. cbn [bind] in Hc.
  rewrite shards_concat_all in Hc by lia.
  rewrite (local_outputs_shard args ds_name cfg ds 1 0) by (assumption || lia).
  fold n. change (0 + 1) with 1.
  rewrite (boundary_0 n 1), (boundary_ws n 1) by lia.
  symmetry. exact Hc.
Qed.

Lemma demo_locals :
  exists locals,
    mapM (fun r => @local_outputs demo (demo_args 1) (str "pope")
                                  (ProcessGroup r 2))
         (range_list (Range 0 2)) = Ok locals
    /\ Forall (Forall valid_val) locals
    /\ length (concat locals) = 3%nat.
Proof.
  eexists. split; [vm_compute; reflexivity |]. split; [| reflexivity].
  repeat (first [apply Forall_nil | apply Forall_cons]);
    cbn [valid_val fst snd]; unfold valid_str;
    repeat (first [apply Forall_nil | apply Forall_cons | split | exact I
                   | reflexivity]).
Qed.



(** X19.  With batch size 1, the merged list has exactly one prediction
    per line of the question file. *)
Theorem merged_prediction_count (R : Runtime) (args : Args) (ds_name : pystr)
    (world_size : Z) (locals : list (list pyval)) :
  arg_batch_size args = 1 -> 1 <= world_size ->
  mapM (fun r => local_outputs args ds_name (ProcessGroup r world_size))
       (range_list (Range 0 world_size)) = Ok locals ->
  Forall (Forall valid_val) locals ->
  exists cfg ds merged,
    ds_lookup ds_name = Ok cfg
    /\ VQADataset_init (cfg_root cfg) (cfg_question cfg) (str "")
                       image_size pad2square = Ok ds
    /\ merged_outputs args ds_name world_size = Ok merged
    /\ Z.of_nat (length merged) = VQADataset_len ds.
Proof.
  intros Hbs Hws Hlocals Hvalid.
  pose proof (locals_concat_single args ds_name world_size locals Hbs Hws Hlocals)
    as Hsingle.
  pose proof (merged_outputs_of_locals args ds_name world_size locals
                Hlocals Hvalid) as Hm.
  rewrite local_outputs_batch_one in Hsingle by exact Hbs.
  apply bind_Ok in Hsingle as [cfg [Hcfg H]].
  apply bind_Ok in H as [ds [Hds H]].
  apply bind_Ok in H as [sampler [Hs H]].
  exists cfg, ds, (map json_norm (concat locals)).
  repeat (split; [assumption |]).
  rewrite length_map. apply mapM_Forall2, Forall2_length in H. rewrite <- H.
  destruct (Z.lt_ge_cases 0 (VQADataset_len ds)) as [Hn | Hn].
  - rewrite InferenceSampler_init_rank in Hs by lia. injection Hs as <-.
    unfold InferenceSampler_iter. cbn [_local_indices].
    rewrite range_list_length. unfold range_len. cbn [range_start range_stop].
    change (0 + 1) with 1.
    rewrite boundary_0, boundary_ws by lia. lia.
  - rewrite InferenceSampler_init_empty in Hs by lia. discriminate.
Qed.

Lemma merged_prediction_count_witness :
  exists ds merged,
    @VQADataset_init demo (str "data/pope/val2014")
                     (str "data/pope/llava_pope_test.jsonl") (str "")
                     (@image_size demo) (@pad2square demo) = Ok ds
    /\ @merged_outputs demo (demo_args 1) (str "pope") 2 = Ok merged
    /\ Z.of_nat (length merged) = VQADataset_len ds.
Proof.
  destruct demo_locals as [locals [Hloc [Hvalid _]]].
  destruct (merged_prediction_count demo (demo_args 1) (str "pope") 2 locals
              eq_refl ltac:(lia) Hloc Hvalid)
    as [cfg [ds [merged [Hcfg [Hds [Hm Hlen]]]]]].
  injection Hcfg as <-.
  exists ds, merged. repeat split; assumption.
Defined.

(** X20.  The results file can be read back: [json.loads] of the text
    rank 0 writes is the merged list. *)
Theorem results_file_reads_back (R : Runtime) (args : Args) (ds_name : pystr)
    (world_size : Z) (locals : list (list pyval)) :
  mapM (fun r => local_outputs args ds_name (ProcessGroup r world_size))
       (range_list (Range 0 world_size)) = Ok locals ->
  Forall (Forall valid_val) locals ->
  exists merged text,
    merged_outputs args ds_name world_size = Ok merged
    /\ results_file_text args ds_name world_size = Ok text
    /\ json_loads text = Ok (PList merged).
Proof.
  intros Hlocals Hvalid.
  pose proof (merged_outputs_of_locals args ds_name world_size locals
                Hlocals Hvalid) as Hm.
  exists (map json_norm (concat locals)), (json_dumps (PList (map json_norm (concat locals)))).
  split; [exact Hm |]. split.
  - unfold results_file_text. rewrite Hm. reflexivity.
  - change (PList (map json_norm (concat locals)))
      with (json_norm (PList (concat locals))).
    apply json_loads_dumps_norm. apply valid_val_list.
    apply Forall_concat. exact Hvalid.
Qed.

Lemma results_file_reads_back_witness :
  exists merged text,
    @merged_outputs demo (demo_args 1) (str "pope") 2 = Ok merged
    /\ @results_file_text demo (demo_args 1) (str "pope") 2 = Ok text
    /\ json_loads text = Ok (PList merged).
Proof.
  destruct demo_locals as [locals [Hloc [Hvalid _]]].
  exact (results_file_reads_back demo (demo_args 1) (str "pope") 2 locals
           Hloc Hvalid).
Defined.

Lemma io_bind_trace {A B : Type} (P : event -> Prop) (m : io A) (f : A -> io B) :
  Forall P (fst m) -> (forall a, Forall P (fst (f a))) ->
  Forall P (fst (io_bind m f)).
Proof.
  intros Hm Hf. destruct m as [t [a | e]]; cbn [io_bind fst] in *.
  - specialize (Hf a). destruct (f a) as [t' r]. cbn [fst] in *.
    apply Forall_app. split; assumption.
  - exact Hm.
Qed.

Lemma io_for_trace {A : Type} (P : event -> Prop) (l : list A)
    (body : A -> io unit) :
  (forall a, Forall P (fst (body a))) -> Forall P (fst (io_for l body)).
Proof.
  intros H. induction l as [| a l IH]; cbn [io_for].
  - constructor.
  - apply io_bind_trace; [apply H | intros _; exact IH].
Qed.

(** X21.  A process whose rank is not 0 never writes a results file,
    never prints and never starts the scoring command, whatever the
    datasets are and however their evaluation ends. *)
Theorem only_rank_zero_writes (R : Runtime) (args : Args) (pg : process_group) :
  pg_rank pg <> 0 ->
  Forall (fun ev => match ev with
                    | EvWriteFile _ _ | EvSystem _ | EvPrint _ => False
                    | _ => True
                    end)
         (fst (evaluate_chat_model args pg)).
Proof.
  intros Hrank. unfold evaluate_chat_model.
  apply io_bind_trace; [repeat constructor | intros _].
  apply io_bind_trace; [repeat constructor | intros _].
  apply io_for_trace. intros name. unfold evaluate_dataset.
  apply io_bind_trace; [repeat constructor | intros _].
  apply io_bind_trace; [constructor | intros _].
  apply io_bind_trace; [repeat constructor | intros _].
  apply io_bind_trace; [repeat constructor | intros _].
  apply io_bind_trace; [constructor | intros merged].
  destruct (Z.eqb_spec (pg_rank pg) 0); [contradiction | constructor].
Qed.

Lemma only_rank_zero_writes_witness :
  fst (@evaluate_chat_model demo (demo_args 1) (ProcessGroup 1 2))
  = [EvFromPretrained (str "ckpt"); EvSeed 0; EvEvaluate (str "pope");
     EvBarrier; EvAllGather]
  /\ Forall (fun ev => match ev with
                       | EvWriteFile _ _ | EvSystem _ | EvPrint _ => False
                       | _ => True
                       end)
            (fst (@evaluate_chat_model demo (demo_args 1) (ProcessGroup 1 2))).
Proof.
  split; [vm_compute; reflexivity |].
  apply (only_rank_zero_writes demo (demo_args 1) (ProcessGroup 1 2)).
  discriminate.
Defined.



(** X23.  When the evaluation of a dataset ends normally on rank 0, the
    process has written the results file once, with the text of the merged
    list, under the output directory and the name made of the dataset name
    and the time prefix, and has then started the scoring command on that
    file. *)
Theorem rank_zero_writes_results (R : Runtime) (args : Args) (pg : process_group)
    (name : pystr) :
  pg_rank pg = 0 ->
  snd (evaluate_dataset args pg name) = Ok tt ->
  exists text,
    results_file_text args name (pg_world_size pg) = Ok text
    /\ let results_file :=
         os_path_join (arg_out_dir args)
                      (name ++ str "_" ++ time_prefix ++ str ".json") in
       let cmd :=
         str "python eval/pope/eval_pope.py --annotation-dir ./data/pope/coco --question-file ./data/pope/llava_pope_test.jsonl --result-file "
         ++ results_file in
       fst (evaluate_dataset args pg name)
       = [EvEvaluate name; EvBarrier; EvAllGather;
          EvPrint [str "Evaluating " ++ name ++ str " ..."];
          EvWriteFile results_file text;
          EvPrint [str "Results saved to " ++ results_file];
          EvPrint [cmd];
          EvSystem cmd].
Proof.
  intros Hrank. unfold evaluate_dataset, results_file_text.
  destruct (local_outputs args name pg) as [outs | e]; [| discriminate].
  destruct (merged_outputs args name (pg_world_size pg)) as [merged | e];
    [| discriminate].
  rewrite Hrank. intros _. eexists. split; reflexivity.
Qed.

Lemma rank_zero_writes_results_witness :
  exists text,
    @results_file_text demo (demo_args 1) (str "pope") 1 = Ok text
    /\ In (EvWriteFile (str "results/pope_240101000000.json") text)
          (fst (@evaluate_dataset demo (demo_args 1) (ProcessGroup 0 1) (str "pope"))).
Proof.
  destruct (rank_zero_writes_results demo (demo_args 1) (ProcessGroup 0 1)
              (str "pope") eq_refl eq_refl) as [text [Htext Htrace]].
  exists text. split; [exact Htext |].
  cbv zeta in Htrace. rewrite Htrace.
  right. right. right. right. left. reflexivity.
Defined.

Lemma evaluate_dataset_marks {R : Runtime} (args : Args) (pg : process_group)
    (name : pystr) :
  filter (fun ev => match ev with
                    | EvEvaluate _ | EvFromPretrained _ => true
                    | _ => false
                    end)
         (fst (evaluate_dataset args pg name))
  = [EvEvaluate name].
Proof.
  unfold evaluate_dataset.
  destruct (local_outputs args name pg) as [outs | e]; [| reflexivity].
  destruct (merged_outputs args name (pg_world_size pg)) as [merged | e];
    [| reflexivity].
  destruct (pg_rank pg =? 0); reflexivity.
Qed.

Lemma io_for_marks {R : Runtime} (args : Args) (pg : process_group)
    (names : list pystr) :
  exists k,
    (k <= length names)%nat
    /\ filter (fun ev => match ev with
                         | EvEvaluate _ | EvFromPretrained _ => true
                         | _ => false
                         end)
              (fst (io_for names (evaluate_dataset args pg)))
       = map EvEvaluate (firstn k names)
    /\ (snd (io_for names (evaluate_dataset args pg)) = Ok tt ->
        k = length names).
Proof.
  induction names as [| name names [k [Hk [Hf Hs]]]].
  - exists 0%nat. repeat split; reflexivity || lia.
  - cbn [io_for]. pose proof (evaluate_dataset_marks args pg name) as Hm.
    destruct (evaluate_dataset args pg name) as [t [[] | e]]; cbn [io_bind fst] in *.
    + destruct (io_for names (evaluate_dataset args pg)) as [t' r].
      cbn [fst snd] in *. exists (S k). split; [cbn [length]; lia |]. split.
      * rewrite filter_app, Hm, Hf. reflexivity.
      * intros Hr. cbn [length]. f_equal. auto.
    + exists 1%nat. split; [cbn [length]; lia |]. split.
      * rewrite Hm. reflexivity.
      * cbn [snd]. discriminate.
Qed.

(** X24.  The model is loaded once, before any dataset; the datasets are
    evaluated in the order of the list, up to the first one that fails;
    a run that ends normally has evaluated every dataset of the list. *)
Theorem datasets_evaluated_in_order (R : Runtime) (args : Args)
    (pg : process_group) :
  exists k,
    (k <= length (arg_datasets args))%nat
    /\ filter (fun ev => match ev with
                         | EvEvaluate _ | EvFromPretrained _ => true
                         | _ => false
                         end)
              (fst (evaluate_chat_model args pg))
       = EvFromPretrained (arg_checkpoint args)
         :: map EvEvaluate (firstn k (arg_datasets args))
    /\ (snd (evaluate_chat_model args pg) = Ok tt ->
        k = length (arg_datasets args)).
Proof.
  destruct (io_for_marks args pg (arg_datasets args)) as [k [Hk [Hf Hs]]].
  exists k. split; [exact Hk |]. unfold evaluate_chat_model.
  destruct (io_for (arg_datasets args) (evaluate_dataset args pg)) as [t r].
  cbn [io_bind emit fst snd app] in *. split.
  - cbn [filter]. rewrite Hf. reflexivity.
  - exact Hs.
Qed.

(** X25.  With batch size 1 the main block goes on to the evaluation: it
    creates the output directory only when it does not exist, prints the
    dataset names, initialises the process group with [WORLD_SIZE] and
    [RANK], selects the device [LOCAL_RANK], and then runs
    [evaluate_chat_model] with the rank and world size of the environment;
    when the directory cannot be created nothing else happens. *)
Theorem main_runs_evaluation (R : Runtime) (ns : Namespace) (env : Environ) :
  ns_batch_size ns = 1 ->
  main ns env
  = let datasets := split_char 44%N (ns_datasets ns) in
    let args := MkArgs (ns_checkpoint ns) datasets 1 (ns_num_workers ns)
                       (ns_num_beams ns) (ns_template ns) (ns_temperature ns)
                       (ns_out_dir ns) (ns_seed ns) in
    let run := evaluate_chat_model
                 args (ProcessGroup (env_rank env) (env_world_size env)) in
    let steps := [EvPrint (str "datasets:" :: datasets);
                  EvInitProcessGroup (env_world_size env) (env_rank env);
                  EvSetDevice (env_local_rank env)] in
    if os_path_exists (ns_out_dir ns) then (steps ++ fst run, snd run)
    else
      match os_makedirs (ns_out_dir ns) with
      | Ok _ => (EvMakedirs (ns_out_dir ns) :: steps ++ fst run, snd run)
      | Raise e => ([EvMakedirs (ns_out_dir ns)], Raise e)
      end.
Proof.
  intros Hbs. unfold main. rewrite Hbs. cbv zeta. change (1 =? 1) with true.
  cbv iota.
  destruct (evaluate_chat_model _ _) as [t r].
  destruct (os_path_exists (ns_out_dir ns)).
  - reflexivity.
  - destruct (os_makedirs (ns_out_dir ns)) as [[] | e]; reflexivity.
Qed.

Lemma main_runs_evaluation_witness :
  exists t,
    @main demo (demo_namespace 1 "results") (MkEnviron 2 1 1)
    = (EvMakedirs (str "results") :: EvPrint [str "datasets:"; str "pope"]
       :: EvInitProcessGroup 2 1 :: EvSetDevice 1 :: t, Ok tt).
Proof.
  eexists.
  rewrite (main_runs_evaluation demo (demo_namespace 1 "results")
             (MkEnviron 2 1 1) eq_refl).
  vm_compute. reflexivity.
Defined.
